(** * gem5-SALAM: memory protocol, retry queue and statistics engine

    A shallow embedding of the parts of gem5-SALAM that the specification
    makes checkable statements about:

    - salam-core/include/salam/memory_interface.hh: module [Memory]
    - salam-core/adapters/gem5/gem5_memory_port.hh: modules [Port] and
      [PortResponse]
    - scripts/patches/temp_hw_statistics_enhanced.hh and .cc: modules
      [Enums], [Stall], [Coeffs], [Enhanced], [RingWindows], [MemAccess],
      [Dataflow], [FUUtil], [StallRun], [Area], [FUCollect], [RingCycle]
      and [SaveFile]
    - scripts/patches/temp_hw_statistics.hh and .cc: modules [Base],
      [GrowingWindows] and [GrowingCycle], and the second half of [Area]

    The first part holds the embedding, the second part (from
    "Properties" on) the lemmas about it, one module of lemmas per
    component.

    Conventions.  [uint64_t] and [size_t] values are integers in
    [0, 2^64) and every arithmetic result is reduced with [u64]; [int] is
    reduced with [i32].  [double] is the binary64 type of the kernel
    ([PrimFloat.float]).  Operations whose C++ behaviour is undefined
    (an iterator dereferenced outside its vector) or that leave by an
    uncaught exception are given an explicit outcome. *)

From Stdlib Require Import ZArith Lia Bool String Ascii List.
From Stdlib Require Import Floats.PrimFloat Floats.SpecFloat Floats.FloatOps.
From stdpp Require Import base tactics option list fin_maps zmap.

Set Warnings "-inexact-float".
Local Open Scope Z_scope.

(** ** Machine integers *)

Definition UINT64_MAX : Z := 2 ^ 64 - 1.
Definition INT_MAX : Z := 2 ^ 31 - 1.

(** Unsigned 64-bit wrap-around ([uint64_t], [size_t] on LP64). *)
Definition u64 (z : Z) : Z := z mod 2 ^ 64.

(** Two's-complement wrap-around of [int]. *)
Definition i32 (z : Z) : Z := (z + 2 ^ 31) mod 2 ^ 32 - 2 ^ 31.

Definition is_u64 (z : Z) : Prop := 0 <= z <= UINT64_MAX.

(** ** Outcome of an operation that may have no defined result

    [UndefinedBehaviour] stands for an execution that has left what C++
    defines: an iterator or index used outside its vector. *)

Inductive outcome (A : Type) : Type :=
| Returns (a : A)
| UndefinedBehaviour.
Arguments Returns {A} a.
Arguments UndefinedBehaviour {A}.

(** The value an operation returned, if it returned. *)
Definition returned {A : Type} (o : outcome A) : option A :=
  match o with
  | Returns a => Some a
  | UndefinedBehaviour => None
  end.

(** ** memory_interface.hh *)

Module Memory.

Inductive MemoryRequestType : Set :=
| Read | Write | ReadExclusive | WriteInvalidate | Invalidate | Prefetch | Flush.

Record MemoryRequest : Type := mkMemoryRequest {
  id : Z;
  type : MemoryRequestType;
  addr : Z;                 (* uint64_t *)
  size : Z;                 (* size_t *)
  data : list Byte.byte;    (* std::vector<uint8_t> *)
  requestTick : Z;
  responseTick : Z;
  context : Z;
  completed : bool;
  success : bool
}.

(** [MemoryRequest(reqId, reqType, address, reqSize)]: the payload is
    pre-sized (zero-filled) for [Write] only. *)
Definition newMemoryRequest (reqId : Z) (reqType : MemoryRequestType)
    (address reqSize : Z) : MemoryRequest :=
  {| id := reqId; type := reqType; addr := address; size := reqSize;
     data := match reqType with
             | Write => replicate (Z.to_nat reqSize) Byte.x00
             | _ => []
             end;
     requestTick := 0; responseTick := 0; context := 0;
     completed := false; success := false |}.

Definition isRead (req : MemoryRequest) : bool :=
  match type req with Read | ReadExclusive => true | _ => false end.

Definition isWrite (req : MemoryRequest) : bool :=
  match type req with Write | WriteInvalidate => true | _ => false end.

Definition set_success (b : bool) (req : MemoryRequest) : MemoryRequest :=
  {| id := id req; type := type req; addr := addr req;
     size := size req; data := data req;
     requestTick := requestTick req; responseTick := responseTick req;
     context := context req; completed := completed req;
     success := b |}.

Definition set_completed (b : bool) (req : MemoryRequest) : MemoryRequest :=
  {| id := id req; type := type req; addr := addr req;
     size := size req; data := data req;
     requestTick := requestTick req; responseTick := responseTick req;
     context := context req; completed := b;
     success := success req |}.

Definition set_data (d : list Byte.byte) (req : MemoryRequest) : MemoryRequest :=
  {| id := id req; type := type req; addr := addr req;
     size := size req; data := d;
     requestTick := requestTick req; responseTick := responseTick req;
     context := context req; completed := completed req;
     success := success req |}.

Record SimpleMemory : Type := mkSimpleMemory {
  base : Z;                     (* uint64_t *)
  storage : list Byte.byte      (* std::vector<uint8_t> *)
}.

(** [SimpleMemory(baseAddr, size)]: [size] zero bytes. *)
Definition newSimpleMemory (baseAddr : Z) (sz : nat) : SimpleMemory :=
  {| base := baseAddr; storage := replicate sz Byte.x00 |}.

Definition storage_size (m : SimpleMemory) : Z := Z.of_nat (length (storage m)).

(** The guard of [recvFunctional], line 218:
    [req.addr < base || req.addr + req.size > base + storage.size()],
    both sums in 64-bit unsigned arithmetic. *)
Definition guard_rejects (m : SimpleMemory) (req : MemoryRequest) : bool :=
  (addr req <? base m)
  || (u64 (addr req + size req) >? u64 (base m + storage_size m)).

(** [std::copy(src.begin() + from, src.begin() + from + n, ...)] reads
    exactly the elements [from .. from+n-1]; it is defined only when they
    exist. *)
Definition slice (l : list Byte.byte) (from n : Z) : list Byte.byte :=
  take (Z.to_nat n) (drop (Z.to_nat from) l).

(** [std::copy(src, src + n, dst.begin() + at)] into a vector that is not
    resized. *)
Definition overwrite (dst : list Byte.byte) (at_ : Z) (src : list Byte.byte)
  : list Byte.byte :=
  take (Z.to_nat at_) dst ++ src ++ drop (Z.to_nat at_ + length src) dst.

Definition recvFunctional (m : SimpleMemory) (req : MemoryRequest)
  : outcome (SimpleMemory * MemoryRequest) :=
  if guard_rejects m req then
    Returns (m, set_success false req)
  else
    let offset := u64 (addr req - base m) in
    if isRead req then
      (* req.data.resize(req.size), then every element is overwritten *)
      if offset + size req <=? storage_size m then
        Returns (m, set_success true
                      (set_data (slice (storage m) offset (size req)) req))
      else UndefinedBehaviour
    else if isWrite req then
      if (size req <=? Z.of_nat (length (data req)))
         && (offset + size req <=? storage_size m) then
        Returns ({| base := base m;
                    storage := overwrite (storage m) offset
                                 (slice (data req) 0 (size req)) |},
                 set_success true req)
      else UndefinedBehaviour
    else
      Returns (m, set_success true req).

(** [recvTimingRequest]: the functional access, then both flags are set
    unconditionally; the method returns [true]. *)
Definition recvTimingRequest (m : SimpleMemory) (req : MemoryRequest)
  : outcome (SimpleMemory * MemoryRequest * bool) :=
  match recvFunctional m req with
  | Returns (m', req') =>
      Returns (m', set_success true (set_completed true req'), true)
  | UndefinedBehaviour => UndefinedBehaviour
  end.

(** [getAddressRange]: [(start, end)] with [end = base + storage.size()]. *)
Definition getAddressRange (m : SimpleMemory) : Z * Z :=
  (base m, u64 (base m + storage_size m)).

(** The byte range [addr, addr+size) of a request is wholly inside
    [base, base+S), over the integers. *)
Definition within_range (m : SimpleMemory) (a len : Z) : Prop :=
  base m <= a /\ a + len <= base m + storage_size m.

End Memory.

(** ** gem5_memory_port.hh *)

Module Port.

(** A [MemoryRequest*]: the identity of a caller-owned request object. *)
Definition ReqPtr : Set := nat.

(** A [gem5::PacketPtr] obtained from [new gem5::Packet]; [pkt_for] is the
    request whose address, size and command the packet was built from. *)
Record Packet : Set := mkPacket { pkt_ptr : nat; pkt_for : ReqPtr }.

Record Gem5MemoryPort : Type := mkPort {
  stalled : bool;
  pendingRequests : list (nat * ReqPtr);   (* std::map<PacketPtr, MemoryRequest*> *)
  retryQueue : list ReqPtr;                (* std::queue, front first *)
  requestTicks : ReqPtr -> Z;              (* the requestTick field of each request *)
  next_packet : nat                        (* next address handed out by [new] *)
}.

Definition set_stalled (b : bool) (p : Gem5MemoryPort) : Gem5MemoryPort :=
  {| stalled := b; pendingRequests := pendingRequests p;
     retryQueue := retryQueue p; requestTicks := requestTicks p;
     next_packet := next_packet p |}.

Definition set_retryQueue (q : list ReqPtr) (p : Gem5MemoryPort) : Gem5MemoryPort :=
  {| stalled := stalled p; pendingRequests := pendingRequests p;
     retryQueue := q; requestTicks := requestTicks p;
     next_packet := next_packet p |}.

Definition set_pendingRequests (m : list (nat * ReqPtr)) (p : Gem5MemoryPort)
  : Gem5MemoryPort :=
  {| stalled := stalled p; pendingRequests := m;
     retryQueue := retryQueue p; requestTicks := requestTicks p;
     next_packet := next_packet p |}.

(** [pendingRequests.erase(pkt)] *)
Definition erase (pkt : nat) (m : list (nat * ReqPtr)) : list (nat * ReqPtr) :=
  filter (fun kv => negb (Nat.eqb (fst kv) pkt)) m.

(** [Gem5MemoryPort(portName, parent, requestorId)] *)
Definition newPort : Gem5MemoryPort :=
  {| stalled := false; pendingRequests := []; retryQueue := [];
     requestTicks := fun _ => 0; next_packet := 0 |}.

Section Downstream.

(** The peer of the gem5 request port: [port.sendTimingReq(pkt)] answers
    accept/refuse and may change the peer. [curTick] is gem5's clock. *)
Variable D : Type.
Variable port_sendTimingReq : D -> Packet -> bool * D.
Variable curTick : Z.

(** [createPacket] always yields a packet: [new] does not return null. *)
Definition createPacket (p : Gem5MemoryPort) (req : ReqPtr)
  : Packet * Gem5MemoryPort :=
  ({| pkt_ptr := next_packet p; pkt_for := req |},
   {| stalled := stalled p; pendingRequests := pendingRequests p;
      retryQueue := retryQueue p; requestTicks := requestTicks p;
      next_packet := S (next_packet p) |}).

Definition sendTimingRequest (p : Gem5MemoryPort) (d : D) (req : ReqPtr)
  : Gem5MemoryPort * D * bool :=
  if stalled p then (p, d, false)
  else
    let '(pkt, p0) := createPacket p req in
    (* pendingRequests[pkt] = &req;  req.requestTick = curTick() *)
    let p1 :=
      {| stalled := stalled p0;
         pendingRequests := pendingRequests p0 ++ [(pkt_ptr pkt, req)];
         retryQueue := retryQueue p0;
         requestTicks := fun r => if Nat.eqb r req then curTick
                                  else requestTicks p0 r;
         next_packet := next_packet p0 |} in
    let '(accepted, d') := port_sendTimingReq d pkt in
    if negb accepted then
      (* erase, delete pkt, stalled = true, retryQueue.push(&req) *)
      let p2 := set_pendingRequests (erase (pkt_ptr pkt) (pendingRequests p1)) p1 in
      let p3 := set_stalled true p2 in
      (set_retryQueue (retryQueue p3 ++ [req]) p3, d', false)
    else (p1, d', true).

(** The [while (!retryQueue.empty())] loop of [handleRetry]; [fuel] bounds
    the number of iterations. *)
Fixpoint retry_loop (fuel : nat) (p : Gem5MemoryPort) (d : D)
  : Gem5MemoryPort * D :=
  match fuel with
  | O => (p, d)
  | S fuel' =>
      match retryQueue p with
      | [] => (p, d)
      | req :: rest =>
          let p1 := set_retryQueue rest p in        (* front(); pop() *)
          let '(p2, d2, ok) := sendTimingRequest p1 d req in
          if negb ok then (p2, d2)                  (* break *)
          else retry_loop fuel' p2 d2
      end
  end.

(** [handleRetry]: every iteration pops one request and a refusal leaves
    the loop, so [length retryQueue] iterations are enough. *)
Definition handleRetry (p : Gem5MemoryPort) (d : D) : Gem5MemoryPort * D :=
  retry_loop (length (retryQueue p)) (set_stalled false p) d.

Definition isStalled (p : Gem5MemoryPort) : bool := stalled p.
Definition isReady (p : Gem5MemoryPort) : bool := negb (stalled p).

End Downstream.

(** The states a port gets into through [sendTimingRequest] and retry
    notifications: ready with nothing queued, or stalled with the one
    request queued whose refusal stalled it. *)
Definition one_request_queued (p : Gem5MemoryPort) : Prop :=
  (stalled p = false /\ retryQueue p = [])
  \/ (stalled p = true /\ exists r, retryQueue p = [r]).

(** A peer that answers from a script (accepting once the script is
    used up) and keeps the packets it was offered, in order. *)
Record Scripted : Set := mkScripted { answers : list bool; offered : list Packet }.

Definition scripted_sendTimingReq (d : Scripted) (pkt : Packet) : bool * Scripted :=
  match answers d with
  | [] => (true, {| answers := []; offered := offered d ++ [pkt] |})
  | b :: rest => (b, {| answers := rest; offered := offered d ++ [pkt] |})
  end.

(** The requests a scripted peer was offered, oldest first. *)
Definition offered_requests (d : Scripted) : list ReqPtr := map pkt_for (offered d).

(** The port in front of a scripted peer, at tick 0. *)
Abbreviation send_s := (sendTimingRequest Scripted scripted_sendTimingReq 0).
Abbreviation loop_s := (retry_loop Scripted scripted_sendTimingReq 0).
Abbreviation handleRetry_s := (handleRetry Scripted scripted_sendTimingReq 0).

End Port.

(** ** temp_hw_statistics_enhanced.hh: enumerations *)

Module Enums.

Inductive FUType : Set :=
| FU_TYPE_COUNTER | FU_TYPE_INT_ADD_SUB | FU_TYPE_INT_MUL_DIV | FU_TYPE_INT_SHIFT
| FU_TYPE_INT_BITWISE | FU_TYPE_FP_FLOAT_ADD_SUB | FU_TYPE_FP_FLOAT_MUL_DIV
| FU_TYPE_FP_DOUBLE_ADD_SUB | FU_TYPE_FP_DOUBLE_MUL_DIV | FU_TYPE_ZERO_CYCLE
| FU_TYPE_GEP | FU_TYPE_CONVERSION | FU_TYPE_OTHER.

(** [static_cast<int>(FUType::FU_TYPE_COUNT)] *)
Definition FU_TYPE_COUNT : nat := 13.

(** [static_cast<int>(type)] *)
Definition fu_index (t : FUType) : nat :=
  match t with
  | FU_TYPE_COUNTER => 0 | FU_TYPE_INT_ADD_SUB => 1 | FU_TYPE_INT_MUL_DIV => 2
  | FU_TYPE_INT_SHIFT => 3 | FU_TYPE_INT_BITWISE => 4
  | FU_TYPE_FP_FLOAT_ADD_SUB => 5 | FU_TYPE_FP_FLOAT_MUL_DIV => 6
  | FU_TYPE_FP_DOUBLE_ADD_SUB => 7 | FU_TYPE_FP_DOUBLE_MUL_DIV => 8
  | FU_TYPE_ZERO_CYCLE => 9 | FU_TYPE_GEP => 10 | FU_TYPE_CONVERSION => 11
  | FU_TYPE_OTHER => 12
  end%nat.

Inductive StallCause : Set :=
| NONE | MEMORY_LATENCY | RAW_HAZARD | WAW_HAZARD | WAR_HAZARD | FU_CONTENTION
| PORT_CONTENTION | CONTROL_FLOW | DMA_PENDING | RESOURCE_LIMIT.

(** [static_cast<int>(StallCause::STALL_CAUSE_COUNT)] *)
Definition STALL_CAUSE_COUNT : nat := 10.

(** [static_cast<int>(cause)] *)
Definition cause_index (c : StallCause) : nat :=
  match c with
  | NONE => 0 | MEMORY_LATENCY => 1 | RAW_HAZARD => 2 | WAW_HAZARD => 3
  | WAR_HAZARD => 4 | FU_CONTENTION => 5 | PORT_CONTENTION => 6
  | CONTROL_FLOW => 7 | DMA_PENDING => 8 | RESOURCE_LIMIT => 9
  end%nat.

(** [static_cast<StallCause>(i)] for [0 <= i < STALL_CAUSE_COUNT]; the
    loops that use it never leave that range. *)
Definition cause_of_index (i : nat) : StallCause :=
  match i with
  | 0 => NONE | 1 => MEMORY_LATENCY | 2 => RAW_HAZARD | 3 => WAW_HAZARD
  | 4 => WAR_HAZARD | 5 => FU_CONTENTION | 6 => PORT_CONTENTION
  | 7 => CONTROL_FLOW | 8 => DMA_PENDING | _ => RESOURCE_LIMIT
  end%nat.

Definition getStallCauseName (c : StallCause) : string :=
  match c with
  | NONE => "none" | MEMORY_LATENCY => "memory_latency"
  | RAW_HAZARD => "raw_hazard" | WAW_HAZARD => "waw_hazard"
  | WAR_HAZARD => "war_hazard" | FU_CONTENTION => "fu_contention"
  | PORT_CONTENTION => "port_contention" | CONTROL_FLOW => "control_flow"
  | DMA_PENDING => "dma_pending" | RESOURCE_LIMIT => "resource_limit"
  end%string.

End Enums.

(** ** temp_hw_statistics_enhanced.hh: [struct StallBreakdown] *)

Module Stall.
Import Enums.

Record StallBreakdown : Type := mkStallBreakdown {
  by_cause : list Z;                (* uint64_t [STALL_CAUSE_COUNT] *)
  memory_read_stalls : Z;
  memory_write_stalls : Z;
  cache_miss_stalls : Z;
  dma_stalls : Z;
  raw_stalls : Z;
  waw_stalls : Z;
  war_stalls : Z;
  fu_stalls_by_type : list Z;       (* uint64_t [FU_TYPE_COUNT] *)
  read_port_stalls : Z;
  write_port_stalls : Z;
  reservation_full_stalls : Z;
  compute_queue_full_stalls : Z;
  total_stall_cycles : Z;
  max_consecutive_stalls : Z;
  current_stall_streak : Z;
  stall_events : Z
}.

(** The in-class initialisers, which [reset()] re-establishes. *)
Definition reset : StallBreakdown :=
  {| by_cause := replicate STALL_CAUSE_COUNT 0;
     memory_read_stalls := 0; memory_write_stalls := 0;
     cache_miss_stalls := 0; dma_stalls := 0;
     raw_stalls := 0; waw_stalls := 0; war_stalls := 0;
     fu_stalls_by_type := replicate FU_TYPE_COUNT 0;
     read_port_stalls := 0; write_port_stalls := 0;
     reservation_full_stalls := 0; compute_queue_full_stalls := 0;
     total_stall_cycles := 0; max_consecutive_stalls := 0;
     current_stall_streak := 0; stall_events := 0 |}.

(** [a[i]] for an array of [uint64_t]. *)
Definition at_index (a : list Z) (i : nat) : Z := default 0 (a !! i).

(** [a[i]++] *)
Definition incr_at (a : list Z) (i : nat) : list Z :=
  <[i := u64 (at_index a i + 1)]> a.

(** One iteration of the loop in [getDominantCause]. *)
Definition dominant_step (a : list Z) (acc : StallCause * Z) (i : nat)
  : StallCause * Z :=
  let '(dominant, max_stalls) := acc in
  if at_index a i >? max_stalls then (cause_of_index i, at_index a i)
  else (dominant, max_stalls).

(** [for (int i = 1; i < STALL_CAUSE_COUNT; i++)] *)
Definition getDominantCause (s : StallBreakdown) : StallCause :=
  fst (fold_left (dominant_step (by_cause s))
                 (seq 1 (STALL_CAUSE_COUNT - 1)) (NONE, 0)).

Definition getDominantBottleneck (s : StallBreakdown) : string :=
  match getDominantCause s with
  | MEMORY_LATENCY => "memory_latency"
  | RAW_HAZARD => "data_dependency"
  | FU_CONTENTION => "compute_bound"
  | PORT_CONTENTION => "memory_bandwidth"
  | CONTROL_FLOW => "control_flow"
  | DMA_PENDING => "dma"
  | RESOURCE_LIMIT => "resource_limit"
  | _ => "none"
  end%string.

(** [by_cause[static_cast<int>(c)]] *)
Definition count_of (s : StallBreakdown) (c : StallCause) : Z :=
  at_index (by_cause s) (cause_index c).

Definition recordStall (cause : StallCause) (s : StallBreakdown) : StallBreakdown :=
  let streak := u64 (current_stall_streak s + 1) in
  {| by_cause := incr_at (by_cause s) (cause_index cause);
     memory_read_stalls := memory_read_stalls s;
     memory_write_stalls := memory_write_stalls s;
     cache_miss_stalls := cache_miss_stalls s; dma_stalls := dma_stalls s;
     raw_stalls := raw_stalls s; waw_stalls := waw_stalls s;
     war_stalls := war_stalls s;
     fu_stalls_by_type := fu_stalls_by_type s;
     read_port_stalls := read_port_stalls s;
     write_port_stalls := write_port_stalls s;
     reservation_full_stalls := reservation_full_stalls s;
     compute_queue_full_stalls := compute_queue_full_stalls s;
     total_stall_cycles := u64 (total_stall_cycles s + 1);
     max_consecutive_stalls := Z.max (max_consecutive_stalls s) streak;
     current_stall_streak := streak;
     stall_events := stall_events s |}.

Definition recordNoStall (s : StallBreakdown) : StallBreakdown :=
  {| by_cause := by_cause s;
     memory_read_stalls := memory_read_stalls s;
     memory_write_stalls := memory_write_stalls s;
     cache_miss_stalls := cache_miss_stalls s; dma_stalls := dma_stalls s;
     raw_stalls := raw_stalls s; waw_stalls := waw_stalls s;
     war_stalls := war_stalls s;
     fu_stalls_by_type := fu_stalls_by_type s;
     read_port_stalls := read_port_stalls s;
     write_port_stalls := write_port_stalls s;
     reservation_full_stalls := reservation_full_stalls s;
     compute_queue_full_stalls := compute_queue_full_stalls s;
     total_stall_cycles := total_stall_cycles s;
     max_consecutive_stalls := max_consecutive_stalls s;
     current_stall_streak := 0;
     stall_events := if current_stall_streak s >? 0
                     then u64 (stall_events s + 1) else stall_events s |}.

(** What the loop of [getDominantCause] has established once the indices
    [1 .. k-1] are done. *)
Definition dominant_inv (a : list Z) (k : nat) (acc : StallCause * Z) : Prop :=
  let '(d, m) := acc in
  (forall i, (1 <= i < k)%nat -> at_index a i <= m) /\
  ((m = 0 /\ d = NONE) \/
   (0 < m /\ exists j, (1 <= j < k)%nat /\ d = cause_of_index j /\
              at_index a j = m /\
              forall i, (1 <= i < j)%nat -> at_index a i < m)).

End Stall.

(** ** Conversions to [double] *)

(** An integer converted to [double]: round to nearest, ties to even. *)
Definition double_of_Z (z : Z) : float :=
  SF2Prim (binary_normalize prec emax z 0 false).

(** ** temp_hw_statistics_enhanced.{hh,cc}: [struct PowerAreaCoefficients] *)

Module Coeffs.
Import Enums.

Record FUCoeffs : Set := mkFUCoeffs {
  area_um2 : float;
  leakage_mw : float;
  dynamic_read_mw : float;
  dynamic_write_mw : float
}.

Record PowerAreaCoefficients : Type := mkCoeffs {
  fu_coeffs : list FUCoeffs;            (* FUCoeffs [FU_TYPE_COUNT] *)
  reg_area_per_bit_um2 : float;
  reg_leakage_per_bit_mw : float;
  reg_dynamic_read_mw : float;
  reg_dynamic_write_mw : float;
  spm_leakage_per_kb_mw : float;
  spm_read_dynamic_per_access_mw : float;
  spm_write_dynamic_per_access_mw : float;
  spm_area_per_kb_um2 : float;
  cache_leakage_per_kb_mw : float;
  cache_read_dynamic_per_access_mw : float;
  cache_write_dynamic_per_access_mw : float;
  cache_area_per_kb_um2 : float;
  technology_node : string;
  voltage : float;
  temperature_c : float
}.

Definition zeroFUCoeffs : FUCoeffs :=
  {| area_um2 := 0; leakage_mw := 0; dynamic_read_mw := 0;
     dynamic_write_mw := 0 |}%float.

(** The in-class member initialisers. *)
Definition initial : PowerAreaCoefficients :=
  {| fu_coeffs := replicate FU_TYPE_COUNT zeroFUCoeffs;
     reg_area_per_bit_um2 := 5.981433;
     reg_leakage_per_bit_mw := 7.395312e-05;
     reg_dynamic_read_mw := 1.322600e-03;
     reg_dynamic_write_mw := 1.792126e-04;
     spm_leakage_per_kb_mw := 0.5;
     spm_read_dynamic_per_access_mw := 0.1;
     spm_write_dynamic_per_access_mw := 0.15;
     spm_area_per_kb_um2 := 10000.0;
     cache_leakage_per_kb_mw := 0.8;
     cache_read_dynamic_per_access_mw := 0.2;
     cache_write_dynamic_per_access_mw := 0.25;
     cache_area_per_kb_um2 := 15000.0;
     technology_node := "45nm";
     voltage := 1.0;
     temperature_c := 25.0 |}%float.

(** [fu_coeffs[static_cast<int>(t)]] gets all four of its members assigned. *)
Definition set_fu (t : FUType) (a l r w : float) (cs : list FUCoeffs)
  : list FUCoeffs :=
  <[fu_index t := {| area_um2 := a; leakage_mw := l; dynamic_read_mw := r;
                     dynamic_write_mw := w |}]> cs.

(** [setDefaults]: the entries of [FU_TYPE_COUNTER], [FU_TYPE_ZERO_CYCLE]
    and [FU_TYPE_OTHER] are not assigned. *)
Definition setDefaults (c : PowerAreaCoefficients) : PowerAreaCoefficients :=
  {| fu_coeffs :=
       (set_fu FU_TYPE_CONVERSION 150.0 1.5e-03 4.0e-03 3.0e-03
       (set_fu FU_TYPE_GEP 200.0 2.0e-03 5.0e-03 4.0e-03
       (set_fu FU_TYPE_FP_DOUBLE_MUL_DIV 6000.0 6.0e-02 2.0e-01 1.5e-01
       (set_fu FU_TYPE_FP_DOUBLE_ADD_SUB 3000.0 3.0e-02 1.0e-01 8.0e-02
       (set_fu FU_TYPE_FP_FLOAT_MUL_DIV 3000.0 3.0e-02 1.0e-01 8.0e-02
       (set_fu FU_TYPE_FP_FLOAT_ADD_SUB 1500.0 1.5e-02 5.0e-02 4.0e-02
       (set_fu FU_TYPE_INT_SHIFT 100.0 1.0e-03 2.0e-03 1.5e-03
       (set_fu FU_TYPE_INT_BITWISE 50.36996 6.111633e-04 1.680942e-03 1.322420e-03
       (set_fu FU_TYPE_INT_MUL_DIV 4595.0 4.817683e-02 5.725752e-01 8.662890e-01
       (set_fu FU_TYPE_INT_ADD_SUB 179.443 2.380803e-03 8.115300e-03 6.162853e-03
          (fu_coeffs c)))))))))));
     reg_area_per_bit_um2 := 5.981433;
     reg_leakage_per_bit_mw := 7.395312e-05;
     reg_dynamic_read_mw := 1.322600e-03;
     reg_dynamic_write_mw := 1.792126e-04;
     spm_leakage_per_kb_mw := 0.5;
     spm_read_dynamic_per_access_mw := 0.1;
     spm_write_dynamic_per_access_mw := 0.15;
     spm_area_per_kb_um2 := 10000.0;
     cache_leakage_per_kb_mw := 0.8;
     cache_read_dynamic_per_access_mw := 0.2;
     cache_write_dynamic_per_access_mw := 0.25;
     cache_area_per_kb_um2 := 15000.0;
     technology_node := "45nm";
     voltage := 1.0;
     temperature_c := 25.0 |}%float.

Definition set_technology_node (v : string) (c : PowerAreaCoefficients)
  : PowerAreaCoefficients :=
  {| fu_coeffs := fu_coeffs c;
     reg_area_per_bit_um2 := reg_area_per_bit_um2 c;
     reg_leakage_per_bit_mw := reg_leakage_per_bit_mw c;
     reg_dynamic_read_mw := reg_dynamic_read_mw c;
     reg_dynamic_write_mw := reg_dynamic_write_mw c;
     spm_leakage_per_kb_mw := spm_leakage_per_kb_mw c;
     spm_read_dynamic_per_access_mw := spm_read_dynamic_per_access_mw c;
     spm_write_dynamic_per_access_mw := spm_write_dynamic_per_access_mw c;
     spm_area_per_kb_um2 := spm_area_per_kb_um2 c;
     cache_leakage_per_kb_mw := cache_leakage_per_kb_mw c;
     cache_read_dynamic_per_access_mw := cache_read_dynamic_per_access_mw c;
     cache_write_dynamic_per_access_mw := cache_write_dynamic_per_access_mw c;
     cache_area_per_kb_um2 := cache_area_per_kb_um2 c;
     technology_node := v;
     voltage := voltage c;
     temperature_c := temperature_c c |}.

Definition set_voltage (v : float) (c : PowerAreaCoefficients)
  : PowerAreaCoefficients :=
  {| fu_coeffs := fu_coeffs c;
     reg_area_per_bit_um2 := reg_area_per_bit_um2 c;
     reg_leakage_per_bit_mw := reg_leakage_per_bit_mw c;
     reg_dynamic_read_mw := reg_dynamic_read_mw c;
     reg_dynamic_write_mw := reg_dynamic_write_mw c;
     spm_leakage_per_kb_mw := spm_leakage_per_kb_mw c;
     spm_read_dynamic_per_access_mw := spm_read_dynamic_per_access_mw c;
     spm_write_dynamic_per_access_mw := spm_write_dynamic_per_access_mw c;
     spm_area_per_kb_um2 := spm_area_per_kb_um2 c;
     cache_leakage_per_kb_mw := cache_leakage_per_kb_mw c;
     cache_read_dynamic_per_access_mw := cache_read_dynamic_per_access_mw c;
     cache_write_dynamic_per_access_mw := cache_write_dynamic_per_access_mw c;
     cache_area_per_kb_um2 := cache_area_per_kb_um2 c;
     technology_node := technology_node c;
     voltage := v;
     temperature_c := temperature_c c |}.

Definition set_temperature_c (v : float) (c : PowerAreaCoefficients)
  : PowerAreaCoefficients :=
  {| fu_coeffs := fu_coeffs c;
     reg_area_per_bit_um2 := reg_area_per_bit_um2 c;
     reg_leakage_per_bit_mw := reg_leakage_per_bit_mw c;
     reg_dynamic_read_mw := reg_dynamic_read_mw c;
     reg_dynamic_write_mw := reg_dynamic_write_mw c;
     spm_leakage_per_kb_mw := spm_leakage_per_kb_mw c;
     spm_read_dynamic_per_access_mw := spm_read_dynamic_per_access_mw c;
     spm_write_dynamic_per_access_mw := spm_write_dynamic_per_access_mw c;
     spm_area_per_kb_um2 := spm_area_per_kb_um2 c;
     cache_leakage_per_kb_mw := cache_leakage_per_kb_mw c;
     cache_read_dynamic_per_access_mw := cache_read_dynamic_per_access_mw c;
     cache_write_dynamic_per_access_mw := cache_write_dynamic_per_access_mw c;
     cache_area_per_kb_um2 := cache_area_per_kb_um2 c;
     technology_node := technology_node c;
     voltage := voltage c;
     temperature_c := v |}.

(** [s.erase(std::remove(s.begin(), s.end(), ch), s.end())] *)
Fixpoint remove_char (ch : ascii) (s : string) : string :=
  match s with
  | EmptyString => EmptyString
  | String c rest =>
      if Ascii.eqb c ch then remove_char ch rest
      else String c (remove_char ch rest)
  end.

(** The double-quote character (code 34). *)
Definition dquote : ascii := Eval compute in ascii_of_nat 34.

(** [s.find(ch)]: position of the first [ch], [None] for [npos]. *)
Fixpoint find_char (ch : ascii) (s : string) : option nat :=
  match s with
  | EmptyString => None
  | String c rest =>
      if Ascii.eqb c ch then Some 0%nat
      else match find_char ch rest with
           | Some n => Some (S n)
           | None => None
           end
  end.

(** [line.find(':')] *)
Definition find_colon (line : string) : option nat := find_char ":" line.

(** [line.substr(pos)]: the rest of the line from [pos]. *)
Definition substr_from (pos : nat) (line : string) : string :=
  String.substring pos (String.length line - pos) line.

(** How a call ends: by returning, or by an exception nobody catches
    ([this] is left as it was when the exception was thrown). *)
Inductive completion (A : Type) : Type :=
| Normal (a : A)
| Uncaught (state_at_throw : PowerAreaCoefficients).
Arguments Normal {A} a.
Arguments Uncaught {A} state_at_throw.

Section LoadFromFile.

(** [std::stod]: the converted value, or [None] where it throws
    [std::invalid_argument] or [std::out_of_range]. *)
Variable stod : string -> option float.

(** The body of the [while (std::getline(file, line))] loop. *)
Definition parse_line (line : string) (c : PowerAreaCoefficients)
  : completion PowerAreaCoefficients :=
  match find_colon line with
  | None => Normal c
  | Some colon =>
      let key := String.substring 0 colon line in
      let value := substr_from (S colon) line in
      let key := remove_char " " (remove_char dquote key) in
      let value := remove_char "," (remove_char dquote value) in
      if String.eqb key "technology_node" then
        Normal (set_technology_node value c)
      else if String.eqb key "voltage" then
        match stod value with
        | Some v => Normal (set_voltage v c)
        | None => Uncaught c
        end
      else if String.eqb key "temperature_c" then
        match stod value with
        | Some v => Normal (set_temperature_c v c)
        | None => Uncaught c
        end
      else Normal c
  end.

Fixpoint parse_lines (lines : list string) (c : PowerAreaCoefficients)
  : completion PowerAreaCoefficients :=
  match lines with
  | [] => Normal c
  | line :: rest =>
      match parse_line line c with
      | Normal c' => parse_lines rest c'
      | Uncaught c' => Uncaught c'
      end
  end.

(** [loadFromFile]: [file] is [None] when the stream cannot be opened and
    the lines [std::getline] delivers otherwise. *)
Definition loadFromFile (file : option (list string)) (c : PowerAreaCoefficients)
  : completion (PowerAreaCoefficients * bool) :=
  match file with
  | None => Normal (setDefaults c, false)
  | Some lines =>
      match parse_lines lines c with
      | Normal c' => Normal (c', true)
      | Uncaught c' => Uncaught c'
      end
  end.

End LoadFromFile.

(** [s] between double quotes. *)
Definition quoted (s : string) : string :=
  String dquote (s ++ String dquote EmptyString).

(** A reference conversion for a fragment of the inputs of [std::stod],
    used to run [loadFromFile] on concrete files.  It agrees with
    [std::stod] on every string made of blanks followed by at most 15
    decimal digits (the value is exact), and on every string whose first
    non-blank character is a letter other than i, I, n, N (no conversion
    can be performed and [std::invalid_argument] is thrown).  Other strings
    are outside the fragment. *)
Definition digit_value (c : ascii) : option Z :=
  let n := Z.of_nat (nat_of_ascii c) in
  if (48 <=? n) && (n <=? 57) then Some (n - 48) else None.

Fixpoint read_digits (s : string) (acc : Z) : option Z :=
  match s with
  | EmptyString => Some acc
  | String c rest =>
      match digit_value c with
      | Some d => read_digits rest (10 * acc + d)
      | None => None
      end
  end.

Fixpoint skip_blanks (s : string) : string :=
  match s with
  | String " " rest => skip_blanks rest
  | _ => s
  end.

Definition stod_integers (s : string) : option float :=
  match skip_blanks s with
  | EmptyString => None
  | String c rest =>
      match read_digits (String c rest) 0 with
      | Some z => Some (double_of_Z z)
      | None => None
      end
  end.

End Coeffs.

(** ** temp_hw_statistics_enhanced.{hh,cc}: summary structs and
       [HWStatistics::calculatePowerWithActivity]

    Of [MemoryAccessStats] and [FUTypeUtilizationStats] only the counters
    are kept (the containers for heat maps and Gantt intervals are not
    read by the functions modelled here). *)

Module Enhanced.
Import Enums.

Record PerformanceStats : Type := mkPerformanceStats {
  setup_time_ns : float;
  sim_time_ns : float;
  clock_period_ns : Z;          (* int *)
  sys_clock_ghz : float;
  total_cycles : Z;             (* int *)
  stall_cycles : Z;
  executed_nodes : Z
}.

Record MemoryStats : Type := mkMemoryStats {
  cache_size_kb : Z; cache_ports : Z;
  spm_size_kb : Z; spm_read_ports : Z; spm_write_ports : Z;
  read_bus_width : Z; write_bus_width : Z; local_ports : Z;
  mem_reads : Z; mem_writes : Z; dma_reads : Z; dma_writes : Z
}.

Record RegisterStats : Type := mkRegisterStats {
  total : Z;                    (* int *)
  max_usage : Z;
  avg_usage : float;
  avg_size_bytes : float;
  reads : Z;                    (* int64_t *)
  writes : Z
}.

Record PowerStats : Type := mkPowerStats {
  fu_leakage : float; fu_dynamic : float; fu_total : float;
  reg_leakage : float; reg_dynamic : float; reg_total : float;
  spm_leakage : float; spm_read_dynamic : float; spm_write_dynamic : float;
  spm_total : float;
  cache_leakage : float; cache_read_dynamic : float;
  cache_write_dynamic : float; cache_total : float;
  total_power : float;
  acc_spm_total : float; acc_cache_total : float;
  total_energy_nj : float; fu_energy_nj : float;
  mem_energy_nj : float; reg_energy_nj : float
}.

Record MemoryAccessStats : Type := mkMemoryAccessStats {
  cache_hits : Z; cache_misses : Z;
  cache_read_hits : Z; cache_read_misses : Z;
  cache_write_hits : Z; cache_write_misses : Z;
  spm_reads : Z; spm_writes : Z
}.

Record FUTypeUtilizationStats : Type := mkFUTypeUtilizationStats {
  instances_available : Z;
  max_concurrent_used : Z;
  total_busy_cycles : Z;
  total_operations : Z;         (* uint64_t *)
  contention_stalls : Z;
  contention_requests : Z
}.

Definition zeroFUTypeUtilizationStats : FUTypeUtilizationStats :=
  {| instances_available := 0; max_concurrent_used := 0;
     total_busy_cycles := 0; total_operations := 0;
     contention_stalls := 0; contention_requests := 0 |}.

Record SummaryStats : Type := mkSummaryStats {
  performance : PerformanceStats;
  static_count : list Z;        (* functional_units.static_count [FU_TYPE_COUNT] *)
  memory : MemoryStats;
  registers : RegisterStats;
  power : PowerStats;
  memory_access : MemoryAccessStats;
  by_type : list FUTypeUtilizationStats;   (* fu_utilization.by_type *)
  stall_breakdown : Stall.StallBreakdown
}.

(** The part of [HWStatistics] behind the summary: [summary] and
    [power_area_config]. *)
Record HWStatistics : Type := mkHWStatistics {
  summary : SummaryStats;
  power_area_config : Coeffs.PowerAreaCoefficients
}.

Definition set_power (p : PowerStats) (h : HWStatistics) : HWStatistics :=
  {| summary :=
       {| performance := performance (summary h);
          static_count := static_count (summary h);
          memory := memory (summary h);
          registers := registers (summary h);
          power := p;
          memory_access := memory_access (summary h);
          by_type := by_type (summary h);
          stall_breakdown := stall_breakdown (summary h) |};
     power_area_config := power_area_config h |}.

Definition set_stall_breakdown (b : Stall.StallBreakdown) (h : HWStatistics)
  : HWStatistics :=
  {| summary :=
       {| performance := performance (summary h);
          static_count := static_count (summary h);
          memory := memory (summary h);
          registers := registers (summary h);
          power := power (summary h);
          memory_access := memory_access (summary h);
          by_type := by_type (summary h);
          stall_breakdown := b |};
     power_area_config := power_area_config h |}.

(** The stall breakdown of an engine. *)
Abbreviation sb h := (stall_breakdown (summary h)).

(** [recordStallCause] and [recordNoStall] forward to the breakdown. *)
Definition recordStallCause (cause : StallCause) (h : HWStatistics) : HWStatistics :=
  set_stall_breakdown (Stall.recordStall cause (stall_breakdown (summary h))) h.

Definition recordNoStall (h : HWStatistics) : HWStatistics :=
  set_stall_breakdown (Stall.recordNoStall (stall_breakdown (summary h))) h.

(** Consecutive calls of [recordStallCause], one per element. *)
Definition recordStallCauses (causes : list StallCause) (h : HWStatistics)
  : HWStatistics :=
  fold_left (fun h c => recordStallCause c h) causes h.

(** One iteration of the loop over the FU types: the pair is
    [(pwr.fu_leakage, pwr.fu_dynamic)]. *)
Definition fu_power_step (h : HWStatistics) (acc : float * float) (i : nat)
  : float * float :=
  let count := default 0 (static_count (summary h) !! i) in
  let ops := double_of_Z
               (total_operations
                  (default zeroFUTypeUtilizationStats (by_type (summary h) !! i))) in
  let cf := default Coeffs.zeroFUCoeffs
              (Coeffs.fu_coeffs (power_area_config h) !! i) in
  (fst acc + double_of_Z count * Coeffs.leakage_mw cf,
   snd acc + ops * (Coeffs.dynamic_read_mw cf + Coeffs.dynamic_write_mw cf))%float.

Definition calculatePowerWithActivity (h : HWStatistics) : HWStatistics :=
  let s := summary h in
  let cfg := power_area_config h in
  let pwr := power s in
  let '(fu_leak, fu_dyn) :=
    fold_left (fu_power_step h) (seq 0 FU_TYPE_COUNT) (0, 0)%float in
  let fu_tot := (fu_leak + fu_dyn)%float in
  let reg_leak :=
    (double_of_Z (i32 (total (registers s) * 32))
     * Coeffs.reg_leakage_per_bit_mw cfg)%float in
  let reg_dyn :=
    (double_of_Z (reads (registers s)) * Coeffs.reg_dynamic_read_mw cfg
     + double_of_Z (writes (registers s)) * Coeffs.reg_dynamic_write_mw cfg)%float in
  let reg_tot := (reg_leak + reg_dyn)%float in
  let spm_leak :=
    (double_of_Z (spm_size_kb (memory s)) * Coeffs.spm_leakage_per_kb_mw cfg)%float in
  let spm_rd :=
    (double_of_Z (spm_reads (memory_access s))
     * Coeffs.spm_read_dynamic_per_access_mw cfg)%float in
  let spm_wr :=
    (double_of_Z (spm_writes (memory_access s))
     * Coeffs.spm_write_dynamic_per_access_mw cfg)%float in
  let spm_tot := (spm_leak + spm_rd + spm_wr)%float in
  let cache_reads :=
    u64 (cache_read_hits (memory_access s) + cache_read_misses (memory_access s)) in
  let cache_writes :=
    u64 (cache_write_hits (memory_access s) + cache_write_misses (memory_access s)) in
  let cache_leak :=
    (double_of_Z (cache_size_kb (memory s))
     * Coeffs.cache_leakage_per_kb_mw cfg)%float in
  let cache_rd :=
    (double_of_Z cache_reads * Coeffs.cache_read_dynamic_per_access_mw cfg)%float in
  let cache_wr :=
    (double_of_Z cache_writes * Coeffs.cache_write_dynamic_per_access_mw cfg)%float in
  let cache_tot := (cache_leak + cache_rd + cache_wr)%float in
  let tot := (fu_tot + reg_tot + spm_tot + cache_tot)%float in
  let runtime_ns :=
    double_of_Z (i32 (total_cycles (performance s) * clock_period_ns (performance s))) in
  set_power
    {| fu_leakage := fu_leak; fu_dynamic := fu_dyn; fu_total := fu_tot;
       reg_leakage := reg_leak; reg_dynamic := reg_dyn; reg_total := reg_tot;
       spm_leakage := spm_leak; spm_read_dynamic := spm_rd;
       spm_write_dynamic := spm_wr; spm_total := spm_tot;
       cache_leakage := cache_leak; cache_read_dynamic := cache_rd;
       cache_write_dynamic := cache_wr; cache_total := cache_tot;
       total_power := tot;
       acc_spm_total := acc_spm_total pwr;
       acc_cache_total := acc_cache_total pwr;
       total_energy_nj := (tot * runtime_ns / 1e6)%float;
       fu_energy_nj := (fu_tot * runtime_ns / 1e6)%float;
       mem_energy_nj := ((spm_tot + cache_tot) * runtime_ns / 1e6)%float;
       reg_energy_nj := (reg_tot * runtime_ns / 1e6)%float |} h.

(** [collectPowerStats] of the enhanced engine. *)
Definition collectPowerStats
    (fu_leak fu_dyn reg_leak reg_dyn spm_leak spm_read spm_write
     cache_leak cache_read cache_write : float) (h : HWStatistics) : HWStatistics :=
  let pwr := power (summary h) in
  let fu_tot := (fu_leak + fu_dyn)%float in
  let reg_tot := (reg_leak + reg_dyn)%float in
  let spm_tot := (spm_leak + spm_read + spm_write)%float in
  let cache_tot := (cache_leak + cache_read + cache_write)%float in
  set_power
    {| fu_leakage := fu_leak; fu_dynamic := fu_dyn; fu_total := fu_tot;
       reg_leakage := reg_leak; reg_dynamic := reg_dyn; reg_total := reg_tot;
       spm_leakage := spm_leak; spm_read_dynamic := spm_read;
       spm_write_dynamic := spm_write; spm_total := spm_tot;
       cache_leakage := cache_leak; cache_read_dynamic := cache_read;
       cache_write_dynamic := cache_write; cache_total := cache_tot;
       total_power := (fu_tot + reg_tot + spm_tot + cache_tot)%float;
       acc_spm_total := acc_spm_total pwr;
       acc_cache_total := acc_cache_total pwr;
       total_energy_nj := total_energy_nj pwr;
       fu_energy_nj := fu_energy_nj pwr;
       mem_energy_nj := mem_energy_nj pwr;
       reg_energy_nj := reg_energy_nj pwr |} h.

(** [PowerStats::reset()] and the in-class initialisers. *)
Definition zeroPowerStats : PowerStats :=
  {| fu_leakage := 0; fu_dynamic := 0; fu_total := 0;
     reg_leakage := 0; reg_dynamic := 0; reg_total := 0;
     spm_leakage := 0; spm_read_dynamic := 0; spm_write_dynamic := 0;
     spm_total := 0;
     cache_leakage := 0; cache_read_dynamic := 0; cache_write_dynamic := 0;
     cache_total := 0; total_power := 0;
     acc_spm_total := 0; acc_cache_total := 0;
     total_energy_nj := 0; fu_energy_nj := 0; mem_energy_nj := 0;
     reg_energy_nj := 0 |}%float.

(** [summary.reset()] *)
Definition zeroSummary : SummaryStats :=
  {| performance :=
       {| setup_time_ns := 0; sim_time_ns := 0; clock_period_ns := 0;
          sys_clock_ghz := 0; total_cycles := 0; stall_cycles := 0;
          executed_nodes := 0 |}%float;
     static_count := replicate FU_TYPE_COUNT 0;
     memory :=
       {| cache_size_kb := 0; cache_ports := 0; spm_size_kb := 0;
          spm_read_ports := 0; spm_write_ports := 0; read_bus_width := 0;
          write_bus_width := 0; local_ports := 0; mem_reads := 0;
          mem_writes := 0; dma_reads := 0; dma_writes := 0 |};
     registers :=
       {| total := 0; max_usage := 0; avg_usage := 0; avg_size_bytes := 0;
          reads := 0; writes := 0 |}%float;
     power := zeroPowerStats;
     memory_access :=
       {| cache_hits := 0; cache_misses := 0; cache_read_hits := 0;
          cache_read_misses := 0; cache_write_hits := 0;
          cache_write_misses := 0; spm_reads := 0; spm_writes := 0 |};
     by_type := replicate FU_TYPE_COUNT zeroFUTypeUtilizationStats;
     stall_breakdown := Stall.reset |}.

(** The object the constructor leaves: [summary.reset()] and
    [power_area_config.setDefaults()]. *)
Definition newHWStatistics : HWStatistics :=
  {| summary := zeroSummary;
     power_area_config := Coeffs.setDefaults Coeffs.initial |}.

Definition collectPerformanceStats (setup_ns sim_ns : float)
    (clock_period cycles stalls : Z) (h : HWStatistics) : HWStatistics :=
  {| summary :=
       {| performance :=
            {| setup_time_ns := setup_ns; sim_time_ns := sim_ns;
               clock_period_ns := clock_period;
               sys_clock_ghz :=
                 if clock_period >? 0 then (1.0 / double_of_Z clock_period)%float
                 else 0%float;
               total_cycles := cycles; stall_cycles := stalls;
               executed_nodes := i32 (i32 (cycles - stalls) - 1) |};
          static_count := static_count (summary h);
          memory := memory (summary h);
          registers := registers (summary h);
          power := power (summary h);
          memory_access := memory_access (summary h);
          by_type := by_type (summary h);
          stall_breakdown := stall_breakdown (summary h) |};
     power_area_config := power_area_config h |}.

Definition collectMemoryStats (cache_kb cache_ports_ spm_kb spm_read_ports_
    spm_write_ports_ mem_reads_ mem_writes_ dma_reads_ dma_writes_ : Z)
    (h : HWStatistics) : HWStatistics :=
  {| summary :=
       {| performance := performance (summary h);
          static_count := static_count (summary h);
          memory :=
            {| cache_size_kb := cache_kb; cache_ports := cache_ports_;
               spm_size_kb := spm_kb; spm_read_ports := spm_read_ports_;
               spm_write_ports := spm_write_ports_;
               read_bus_width := read_bus_width (memory (summary h));
               write_bus_width := write_bus_width (memory (summary h));
               local_ports := local_ports (memory (summary h));
               mem_reads := mem_reads_; mem_writes := mem_writes_;
               dma_reads := dma_reads_; dma_writes := dma_writes_ |};
          registers := registers (summary h);
          power := power (summary h);
          memory_access := memory_access (summary h);
          by_type := by_type (summary h);
          stall_breakdown := stall_breakdown (summary h) |};
     power_area_config := power_area_config h |}.

(** [runtime_ns] as [calculatePowerWithActivity] computes it. *)
Definition runtime_ns (h : HWStatistics) : float :=
  double_of_Z (i32 (total_cycles (performance (summary h))
                    * clock_period_ns (performance (summary h)))).

End Enhanced.

(** ** temp_hw_statistics.{hh,cc}: [HWStatistics::collectPowerStats] *)

Module Base.

Record PowerStats : Type := mkPowerStats {
  fu_leakage : float; fu_dynamic : float; fu_total : float;
  reg_leakage : float; reg_dynamic : float; reg_total : float;
  spm_leakage : float; spm_read_dynamic : float; spm_write_dynamic : float;
  spm_total : float;
  cache_leakage : float; cache_read_dynamic : float;
  cache_write_dynamic : float; cache_total : float;
  total_power : float;
  acc_spm_total : float; acc_cache_total : float
}.

(** [collectPowerStats] assigns every member of [summary.power]; nothing
    else of the object is touched. *)
Definition collectPowerStats
    (fu_leak fu_dyn reg_leak reg_dyn spm_leak spm_read spm_write
     cache_leak cache_read cache_write : float) : PowerStats :=
  let fu_tot := (fu_leak + fu_dyn)%float in
  let reg_tot := (reg_leak + reg_dyn)%float in
  let spm_tot := (spm_leak + spm_read + spm_write)%float in
  let cache_tot := (cache_leak + cache_read + cache_write)%float in
  let tot := (fu_tot + reg_tot)%float in
  {| fu_leakage := fu_leak; fu_dynamic := fu_dyn; fu_total := fu_tot;
     reg_leakage := reg_leak; reg_dynamic := reg_dyn; reg_total := reg_tot;
     spm_leakage := spm_leak; spm_read_dynamic := spm_read;
     spm_write_dynamic := spm_write; spm_total := spm_tot;
     cache_leakage := cache_leak; cache_read_dynamic := cache_read;
     cache_write_dynamic := cache_write; cache_total := cache_tot;
     total_power := tot;
     acc_spm_total := (tot + spm_tot)%float;
     acc_cache_total := (tot + cache_tot)%float |}.

End Base.

(** ** Cycle tracking, temp_hw_statistics_enhanced.{hh,cc}

    The members of [HWStatistics] behind [recordCycleStats],
    [updateBuffer] and [summarizeCycleStats].  The two iterators are kept
    as positions: [hw_buffer] in [hw_buffer_list] and [cycle_buffer] in the
    window [hw_buffer] points to.  Every operation also reports how many
    times it entered [updateBuffer]. *)

Module RingWindows.
Import Enums.

Record HW_Cycle_Stats : Set := mkCycleStats {
  cycle : Z; resInFlight : Z; loadInFlight : Z; loadInternal : Z;
  loadAcitve : Z; loadRawStall : Z; storeInFlight : Z; storeActive : Z;
  compInFlight : Z; compLaunched : Z; compActive : Z; compFUStall : Z;
  compCommited : Z;
  stall_cause : StallCause;
  bytes_read_this_cycle : Z; bytes_written_this_cycle : Z;
  fu_utilization_mask : Z
}.

(** A value-initialised element, as [resize] and [reset()] produce. *)
Definition blank : HW_Cycle_Stats :=
  {| cycle := 0; resInFlight := 0; loadInFlight := 0; loadInternal := 0;
     loadAcitve := 0; loadRawStall := 0; storeInFlight := 0; storeActive := 0;
     compInFlight := 0; compLaunched := 0; compActive := 0; compFUStall := 0;
     compCommited := 0; stall_cause := NONE;
     bytes_read_this_cycle := 0; bytes_written_this_cycle := 0;
     fu_utilization_mask := 0 |}.

Record CycleStatsSummary : Set := mkCycleStatsSummary {
  total_samples : Z;
  avg_res_in_flight : float; avg_load_in_flight : float;
  avg_store_in_flight : float; avg_comp_in_flight : float;
  peak_res_in_flight : Z; peak_load_in_flight : Z;
  peak_store_in_flight : Z; peak_comp_in_flight : Z;
  total_load_raw_stalls : Z; total_comp_fu_stalls : Z
}.

Definition emptySummary : CycleStatsSummary :=
  {| total_samples := 0;
     avg_res_in_flight := 0; avg_load_in_flight := 0;
     avg_store_in_flight := 0; avg_comp_in_flight := 0;
     peak_res_in_flight := 0; peak_load_in_flight := 0;
     peak_store_in_flight := 0; peak_comp_in_flight := 0;
     total_load_raw_stalls := 0; total_comp_fu_stalls := 0 |}%float.

Record HWStatistics : Type := mkHWStatistics {
  hw_buffer_list : list (list HW_Cycle_Stats);
  hw_buffer : nat;
  cycle_buffer : nat;
  current_buffer_index : Z;     (* int *)
  cycle_tracking : bool;
  stat_buffer_size : Z          (* int *)
}.

(** The constructor: two windows of [stat_buffer_size] blank elements
    when tracking is on ([resize] throws for a negative size, so only
    [0 <= stat_buffer_size] yields an object). *)
Definition newHWStatistics (tracking : bool) (K : Z) : HWStatistics :=
  {| hw_buffer_list :=
       if tracking then replicate 2 (replicate (Z.to_nat K) blank) else [];
     hw_buffer := 0; cycle_buffer := 0; current_buffer_index := 0;
     cycle_tracking := tracking; stat_buffer_size := K |}.

(** [updateBuffer]: advance to the next window, wrapping to the first. *)
Definition updateBuffer (h : HWStatistics) : outcome HWStatistics :=
  let n := length (hw_buffer_list h) in
  if (hw_buffer h <? n)%nat then
    Returns
      {| hw_buffer_list := hw_buffer_list h;
         hw_buffer := if (S (hw_buffer h) =? n)%nat then 0%nat
                      else S (hw_buffer h);
         cycle_buffer := 0;
         current_buffer_index :=
           i32 (u64 (i32 (current_buffer_index h + 1)) mod Z.of_nat n);
         cycle_tracking := cycle_tracking h;
         stat_buffer_size := stat_buffer_size h |}
  else UndefinedBehaviour.

(** [recordCycleStats]: store through [cycle_buffer], advance it, and
    rotate when it reaches the end of the window. *)
Definition recordCycleStats (stats : HW_Cycle_Stats) (h : HWStatistics)
  : outcome (HWStatistics * nat) :=
  if negb (cycle_tracking h) then Returns (h, 0%nat)
  else
    match hw_buffer_list h !! hw_buffer h with
    | None => UndefinedBehaviour
    | Some window =>
        if (cycle_buffer h <? length window)%nat then
          let h1 :=
            {| hw_buffer_list :=
                 <[hw_buffer h := <[cycle_buffer h := stats]> window]>
                   (hw_buffer_list h);
               hw_buffer := hw_buffer h;
               cycle_buffer := S (cycle_buffer h);
               current_buffer_index := current_buffer_index h;
               cycle_tracking := cycle_tracking h;
               stat_buffer_size := stat_buffer_size h |} in
          if (S (cycle_buffer h) =? length window)%nat then
            match updateBuffer h1 with
            | Returns h2 => Returns (h2, 1%nat)
            | UndefinedBehaviour => UndefinedBehaviour
            end
          else Returns (h1, 0%nat)
        else UndefinedBehaviour
    end.

(** Recording a sequence of snapshots, adding up the rotations. *)
Fixpoint recordAll (snaps : list HW_Cycle_Stats) (h : HWStatistics)
  : outcome (HWStatistics * nat) :=
  match snaps with
  | [] => Returns (h, 0%nat)
  | st :: rest =>
      match recordCycleStats st h with
      | Returns (h1, r1) =>
          match recordAll rest h1 with
          | Returns (h2, r2) => Returns (h2, (r1 + r2)%nat)
          | UndefinedBehaviour => UndefinedBehaviour
          end
      | UndefinedBehaviour => UndefinedBehaviour
      end
  end.

(** The locals of [summarizeCycleStats]. *)
Record Accum : Set := mkAccum {
  total_res : Z; total_load : Z; total_store : Z; total_comp : Z;  (* uint64_t *)
  count : Z;                                                       (* int *)
  sum : CycleStatsSummary
}.

Definition accumulate (st : HW_Cycle_Stats) (a : Accum) : Accum :=
  {| total_res := u64 (total_res a + resInFlight st);
     total_load := u64 (total_load a + loadInFlight st);
     total_store := u64 (total_store a + storeInFlight st);
     total_comp := u64 (total_comp a + compInFlight st);
     count := i32 (count a + 1);
     sum :=
       {| total_samples := total_samples (sum a);
          avg_res_in_flight := avg_res_in_flight (sum a);
          avg_load_in_flight := avg_load_in_flight (sum a);
          avg_store_in_flight := avg_store_in_flight (sum a);
          avg_comp_in_flight := avg_comp_in_flight (sum a);
          peak_res_in_flight := Z.max (peak_res_in_flight (sum a)) (resInFlight st);
          peak_load_in_flight := Z.max (peak_load_in_flight (sum a)) (loadInFlight st);
          peak_store_in_flight := Z.max (peak_store_in_flight (sum a)) (storeInFlight st);
          peak_comp_in_flight := Z.max (peak_comp_in_flight (sum a)) (compInFlight st);
          total_load_raw_stalls := i32 (total_load_raw_stalls (sum a) + loadRawStall st);
          total_comp_fu_stalls := i32 (total_comp_fu_stalls (sum a) + compFUStall st) |} |}.

(** The inner loop over one window; the [break] leaves this window only. *)
Fixpoint summarize_window (window : list HW_Cycle_Stats) (a : Accum) : Accum :=
  match window with
  | [] => a
  | st :: rest =>
      if (cycle st =? 0) && (count a >? 0) then a
      else summarize_window rest (accumulate st a)
  end.

Definition summarizeCycleStats (h : HWStatistics) : CycleStatsSummary :=
  if negb (cycle_tracking h) then emptySummary
  else
    let a := fold_left (fun a window => summarize_window window a)
               (hw_buffer_list h)
               {| total_res := 0; total_load := 0; total_store := 0;
                  total_comp := 0; count := 0; sum := emptySummary |} in
    let n := double_of_Z (count a) in
    let averaged := count a >? 0 in
    {| total_samples := count a;
       avg_res_in_flight :=
         if averaged then (double_of_Z (total_res a) / n)%float
         else avg_res_in_flight (sum a);
       avg_load_in_flight :=
         if averaged then (double_of_Z (total_load a) / n)%float
         else avg_load_in_flight (sum a);
       avg_store_in_flight :=
         if averaged then (double_of_Z (total_store a) / n)%float
         else avg_store_in_flight (sum a);
       avg_comp_in_flight :=
         if averaged then (double_of_Z (total_comp a) / n)%float
         else avg_comp_in_flight (sum a);
       peak_res_in_flight := peak_res_in_flight (sum a);
       peak_load_in_flight := peak_load_in_flight (sum a);
       peak_store_in_flight := peak_store_in_flight (sum a);
       peak_comp_in_flight := peak_comp_in_flight (sum a);
       total_load_raw_stalls := total_load_raw_stalls (sum a);
       total_comp_fu_stalls := total_comp_fu_stalls (sum a) |}.

(** The snapshot [updateHWStatsCycleEnd(n)] hands over when nothing else
    was counted in the cycle. *)
Definition at_cycle (n : Z) : HW_Cycle_Stats :=
  {| cycle := n; resInFlight := 0; loadInFlight := 0; loadInternal := 0;
     loadAcitve := 0; loadRawStall := 0; storeInFlight := 0; storeActive := 0;
     compInFlight := 0; compLaunched := 0; compActive := 0; compFUStall := 0;
     compCommited := 0; stall_cause := NONE;
     bytes_read_this_cycle := 0; bytes_written_this_cycle := 0;
     fu_utilization_mask := 0 |}.

(** Shape of a tracking engine with two windows of [K] elements whose
    write position is [c]. *)
Definition ring_inv (K : nat) (h : HWStatistics) (c : nat) : Prop :=
  cycle_tracking h = true /\
  (exists b0 b1, hw_buffer_list h = [b0; b1] /\ length b0 = K /\ length b1 = K) /\
  (hw_buffer h < 2)%nat /\ cycle_buffer h = c /\ (c < K)%nat.

(** Contents of a tracking engine that has not wrapped yet: the first
    window starts with [d0], the second with [d1], blanks follow, and the
    write position is just behind the recorded snapshots. *)
Definition ring_fill (K : nat) (h : HWStatistics) (d0 d1 : list HW_Cycle_Stats)
  : Prop :=
  cycle_tracking h = true /\
  hw_buffer_list h = [d0 ++ replicate (K - length d0) blank;
                      d1 ++ replicate (K - length d1) blank] /\
  (((length d0 < K)%nat /\ d1 = [] /\
    hw_buffer h = 0%nat /\ cycle_buffer h = length d0)
   \/ (length d0 = K /\ (length d1 < K)%nat /\
       hw_buffer h = 1%nat /\ cycle_buffer h = length d1)
   \/ (length d0 = K /\ length d1 = K)).

End RingWindows.

(** ** Cycle tracking, temp_hw_statistics.{hh,cc}

    Windows are filled with [push_back] and a new window is appended when
    the index runs past the last one. *)

Module GrowingWindows.

Record HW_Cycle_Stats : Set := mkCycleStats {
  cycle : Z; resInFlight : Z; loadInFlight : Z; loadInternal : Z;
  loadAcitve : Z; loadRawStall : Z; storeInFlight : Z; storeActive : Z;
  compInFlight : Z; compLaunched : Z; compActive : Z; compFUStall : Z;
  compCommited : Z
}.

Definition blank : HW_Cycle_Stats :=
  {| cycle := 0; resInFlight := 0; loadInFlight := 0; loadInternal := 0;
     loadAcitve := 0; loadRawStall := 0; storeInFlight := 0; storeActive := 0;
     compInFlight := 0; compLaunched := 0; compActive := 0; compFUStall := 0;
     compCommited := 0 |}.

Record CycleStatsSummary : Set := mkCycleStatsSummary {
  total_samples : Z;
  avg_res_in_flight : float; avg_load_in_flight : float;
  avg_store_in_flight : float; avg_comp_in_flight : float;
  peak_res_in_flight : Z; peak_load_in_flight : Z;
  peak_store_in_flight : Z; peak_comp_in_flight : Z;
  total_load_raw_stalls : Z; total_comp_fu_stalls : Z
}.

Definition emptySummary : CycleStatsSummary :=
  {| total_samples := 0;
     avg_res_in_flight := 0; avg_load_in_flight := 0;
     avg_store_in_flight := 0; avg_comp_in_flight := 0;
     peak_res_in_flight := 0; peak_load_in_flight := 0;
     peak_store_in_flight := 0; peak_comp_in_flight := 0;
     total_load_raw_stalls := 0; total_comp_fu_stalls := 0 |}%float.

Record HWStatistics : Type := mkHWStatistics {
  current_cycle_stats : HW_Cycle_Stats;
  hw_buffer_list : list (list HW_Cycle_Stats);
  hw_buffer : nat;
  cycle_buffer : nat;
  current_buffer_index : Z;     (* int *)
  cycle_tracking : bool;
  stat_buffer_size : Z          (* int *)
}.

(** The constructor: two empty windows ([reserve] only) when tracking is
    on, then [clearStats()]. *)
Definition newHWStatistics (tracking : bool) (K : Z) : HWStatistics :=
  {| current_cycle_stats := blank;
     hw_buffer_list := if tracking then replicate 2 [] else [];
     hw_buffer := 0; cycle_buffer := 0; current_buffer_index := 0;
     cycle_tracking := tracking; stat_buffer_size := K |}.

(** [updateBuffer]: step the index and append a window if it ran past the
    last one. *)
Definition updateBuffer (h : HWStatistics) : HWStatistics :=
  let idx := i32 (current_buffer_index h + 1) in
  let windows :=
    if idx >=? i32 (Z.of_nat (length (hw_buffer_list h)))
    then hw_buffer_list h ++ [[]] else hw_buffer_list h in
  {| current_cycle_stats := current_cycle_stats h;
     hw_buffer_list := windows;
     hw_buffer := Z.to_nat idx; cycle_buffer := 0;
     current_buffer_index := idx;
     cycle_tracking := cycle_tracking h;
     stat_buffer_size := stat_buffer_size h |}.

(** [recordCycleStats]: [hw_buffer_list[current_buffer_index].push_back],
    then rotate once the window holds [stat_buffer_size] elements. *)
Definition recordCycleStats (stats : HW_Cycle_Stats) (h : HWStatistics)
  : outcome (HWStatistics * nat) :=
  if negb (cycle_tracking h) then Returns (h, 0%nat)
  else if current_buffer_index h <? 0 then UndefinedBehaviour
  else
    let i := Z.to_nat (current_buffer_index h) in
    match hw_buffer_list h !! i with
    | None => UndefinedBehaviour
    | Some window =>
        let h1 :=
          {| current_cycle_stats := stats;
             hw_buffer_list := <[i := window ++ [stats]]> (hw_buffer_list h);
             hw_buffer := hw_buffer h; cycle_buffer := cycle_buffer h;
             current_buffer_index := current_buffer_index h;
             cycle_tracking := cycle_tracking h;
             stat_buffer_size := stat_buffer_size h |} in
        if Z.of_nat (length (window ++ [stats])) >=? u64 (stat_buffer_size h)
        then Returns (updateBuffer h1, 1%nat)
        else Returns (h1, 0%nat)
    end.

Fixpoint recordAll (snaps : list HW_Cycle_Stats) (h : HWStatistics)
  : outcome (HWStatistics * nat) :=
  match snaps with
  | [] => Returns (h, 0%nat)
  | st :: rest =>
      match recordCycleStats st h with
      | Returns (h1, r1) =>
          match recordAll rest h1 with
          | Returns (h2, r2) => Returns (h2, (r1 + r2)%nat)
          | UndefinedBehaviour => UndefinedBehaviour
          end
      | UndefinedBehaviour => UndefinedBehaviour
      end
  end.

(** Two's-complement wrap-around of [int64_t]. *)
Definition i64 (z : Z) : Z := (z + 2 ^ 63) mod 2 ^ 64 - 2 ^ 63.

(** The locals of [summarizeCycleStats]. *)
Record Accum : Set := mkAccum {
  sum_res : Z; sum_load : Z; sum_store : Z; sum_comp : Z;   (* int64_t *)
  result : CycleStatsSummary
}.

Definition accumulate (a : Accum) (st : HW_Cycle_Stats) : Accum :=
  {| sum_res := i64 (sum_res a + resInFlight st);
     sum_load := i64 (sum_load a + loadInFlight st);
     sum_store := i64 (sum_store a + storeInFlight st);
     sum_comp := i64 (sum_comp a + compInFlight st);
     result :=
       {| total_samples := i32 (total_samples (result a) + 1);
          avg_res_in_flight := avg_res_in_flight (result a);
          avg_load_in_flight := avg_load_in_flight (result a);
          avg_store_in_flight := avg_store_in_flight (result a);
          avg_comp_in_flight := avg_comp_in_flight (result a);
          peak_res_in_flight := Z.max (peak_res_in_flight (result a)) (resInFlight st);
          peak_load_in_flight := Z.max (peak_load_in_flight (result a)) (loadInFlight st);
          peak_store_in_flight := Z.max (peak_store_in_flight (result a)) (storeInFlight st);
          peak_comp_in_flight := Z.max (peak_comp_in_flight (result a)) (compInFlight st);
          total_load_raw_stalls := i32 (total_load_raw_stalls (result a) + loadRawStall st);
          total_comp_fu_stalls := i32 (total_comp_fu_stalls (result a) + compFUStall st) |} |}.

Definition summarizeCycleStats (h : HWStatistics) : CycleStatsSummary :=
  if negb (cycle_tracking h) then emptySummary
  else
    let a := fold_left (fun a window => fold_left accumulate window a)
               (hw_buffer_list h)
               {| sum_res := 0; sum_load := 0; sum_store := 0; sum_comp := 0;
                  result := emptySummary |} in
    let r := result a in
    let n := double_of_Z (total_samples r) in
    let averaged := total_samples r >? 0 in
    {| total_samples := total_samples r;
       avg_res_in_flight :=
         if averaged then (double_of_Z (sum_res a) / n)%float
         else avg_res_in_flight r;
       avg_load_in_flight :=
         if averaged then (double_of_Z (sum_load a) / n)%float
         else avg_load_in_flight r;
       avg_store_in_flight :=
         if averaged then (double_of_Z (sum_store a) / n)%float
         else avg_store_in_flight r;
       avg_comp_in_flight :=
         if averaged then (double_of_Z (sum_comp a) / n)%float
         else avg_comp_in_flight r;
       peak_res_in_flight := peak_res_in_flight r;
       peak_load_in_flight := peak_load_in_flight r;
       peak_store_in_flight := peak_store_in_flight r;
       peak_comp_in_flight := peak_comp_in_flight r;
       total_load_raw_stalls := total_load_raw_stalls r;
       total_comp_fu_stalls := total_comp_fu_stalls r |}.

(** The snapshot [updateHWStatsCycleEnd(n)] hands over when nothing else
    was counted in the cycle. *)
Definition at_cycle (n : Z) : HW_Cycle_Stats :=
  {| cycle := n; resInFlight := 0; loadInFlight := 0; loadInternal := 0;
     loadAcitve := 0; loadRawStall := 0; storeInFlight := 0; storeActive := 0;
     compInFlight := 0; compLaunched := 0; compActive := 0; compFUStall := 0;
     compCommited := 0 |}.

(** Shape of a tracking engine: the windows before the current one are
    [pre], the current one is [cur], and [e] empty windows follow (the
    second pre-allocated window, until the first rotation). *)
Definition windows_inv (K : Z) (h : HWStatistics)
    (pre : list (list HW_Cycle_Stats)) (cur : list HW_Cycle_Stats) (e : nat)
  : Prop :=
  cycle_tracking h = true /\ stat_buffer_size h = K /\
  hw_buffer_list h = pre ++ cur :: replicate e [] /\
  current_buffer_index h = Z.of_nat (length pre) /\
  (e = 0%nat \/ (e = 1%nat /\ pre = [])).

(** Number of snapshots held in all windows. *)
Definition stored (h : HWStatistics) : nat := length (concat (hw_buffer_list h)).

End GrowingWindows.

(** ** Counting *)

(** How many elements of a list satisfy a test. *)
Definition count_if {A : Type} (f : A -> bool) (l : list A) : Z :=
  Z.of_nat (length (filter f l)).

(** ** gem5_memory_port.hh: packets, responses and the pending map *)

Module PortResponse.
Import Memory Port.







(** [pendingRequests.find(pkt)] *)
Fixpoint find (pkt : nat) (m : list (nat * ReqPtr)) : option ReqPtr :=
  match m with
  | [] => None
  | (k, req) :: rest => if Nat.eqb k pkt then Some req else find pkt rest
  end.



(** Every packet in the pending map was handed out by [new] before the
    next one will be. *)
Definition pending_fresh (p : Gem5MemoryPort) : Prop :=
  Forall (fun kv => (fst kv < next_packet p)%nat) (pendingRequests p).

End PortResponse.

(** ** temp_hw_statistics_enhanced.{hh,cc}: [struct MemoryAccessStats]
       and the methods of [HWStatistics] that fill it *)

Module MemAccess.

Inductive MemAccessType : Set :=
| CACHE_READ | CACHE_WRITE | SPM_READ | SPM_WRITE | DMA_READ | DMA_WRITE
| LOCAL_READ | LOCAL_WRITE.

Definition getMemAccessTypeName (t : MemAccessType) : string :=
  match t with
  | CACHE_READ => "cache_read" | CACHE_WRITE => "cache_write"
  | SPM_READ => "spm_read" | SPM_WRITE => "spm_write"
  | DMA_READ => "dma_read" | DMA_WRITE => "dma_write"
  | LOCAL_READ => "local_read" | LOCAL_WRITE => "local_write"
  end%string.

Record MemoryAccessStats : Type := mkMemoryAccessStats {
  cache_hits : Z;
  cache_misses : Z;
  cache_read_hits : Z;
  cache_read_misses : Z;
  cache_write_hits : Z;
  cache_write_misses : Z;
  spm_reads : Z;
  spm_writes : Z;
  spm_read_bytes : Z;
  spm_write_bytes : Z;
  dma_read_requests : Z;
  dma_write_requests : Z;
  dma_read_bytes : Z;
  dma_write_bytes : Z;
  dma_read_latency_total : Z;
  dma_write_latency_total : Z;
  total_read_latency : Z;
  total_write_latency : Z;
  min_read_latency : Z;
  max_read_latency : Z;
  min_write_latency : Z;
  max_write_latency : Z;
  read_count : Z;
  write_count : Z;
  total_bytes_read : Z;
  total_bytes_written : Z;
  peak_read_bandwidth_cycle : Z;
  peak_write_bandwidth_cycle : Z;
  peak_read_bytes_per_cycle : Z;
  peak_write_bytes_per_cycle : Z;
  read_port_stalls : Z;
  write_port_stalls : Z;
  queue_full_stalls : Z;
  address_read_counts : Zmap Z;
  address_write_counts : Zmap Z;
  address_granularity : Z
}.

(** The in-class initialisers. *)
Definition initial : MemoryAccessStats :=
  {| cache_hits := 0; cache_misses := 0; cache_read_hits := 0;
     cache_read_misses := 0; cache_write_hits := 0; cache_write_misses := 0;
     spm_reads := 0; spm_writes := 0; spm_read_bytes := 0; spm_write_bytes := 0;
     dma_read_requests := 0; dma_write_requests := 0; dma_read_bytes := 0;
     dma_write_bytes := 0; dma_read_latency_total := 0;
     dma_write_latency_total := 0;
     total_read_latency := 0; total_write_latency := 0;
     min_read_latency := UINT64_MAX; max_read_latency := 0;
     min_write_latency := UINT64_MAX; max_write_latency := 0;
     read_count := 0; write_count := 0;
     total_bytes_read := 0; total_bytes_written := 0;
     peak_read_bandwidth_cycle := 0; peak_write_bandwidth_cycle := 0;
     peak_read_bytes_per_cycle := 0; peak_write_bytes_per_cycle := 0;
     read_port_stalls := 0; write_port_stalls := 0; queue_full_stalls := 0;
     address_read_counts := ∅; address_write_counts := ∅;
     address_granularity := 64 |}.

(** [reset()] assigns every member but [address_granularity]. *)
Definition reset (m : MemoryAccessStats) : MemoryAccessStats :=
  {| cache_hits := cache_hits initial; cache_misses := cache_misses initial;
     cache_read_hits := cache_read_hits initial;
     cache_read_misses := cache_read_misses initial;
     cache_write_hits := cache_write_hits initial;
     cache_write_misses := cache_write_misses initial;
     spm_reads := spm_reads initial; spm_writes := spm_writes initial;
     spm_read_bytes := spm_read_bytes initial;
     spm_write_bytes := spm_write_bytes initial;
     dma_read_requests := dma_read_requests initial;
     dma_write_requests := dma_write_requests initial;
     dma_read_bytes := dma_read_bytes initial;
     dma_write_bytes := dma_write_bytes initial;
     dma_read_latency_total := dma_read_latency_total initial;
     dma_write_latency_total := dma_write_latency_total initial;
     total_read_latency := total_read_latency initial;
     total_write_latency := total_write_latency initial;
     min_read_latency := min_read_latency initial;
     max_read_latency := max_read_latency initial;
     min_write_latency := min_write_latency initial;
     max_write_latency := max_write_latency initial;
     read_count := read_count initial; write_count := write_count initial;
     total_bytes_read := total_bytes_read initial;
     total_bytes_written := total_bytes_written initial;
     peak_read_bandwidth_cycle := peak_read_bandwidth_cycle initial;
     peak_write_bandwidth_cycle := peak_write_bandwidth_cycle initial;
     peak_read_bytes_per_cycle := peak_read_bytes_per_cycle initial;
     peak_write_bytes_per_cycle := peak_write_bytes_per_cycle initial;
     read_port_stalls := read_port_stalls initial;
     write_port_stalls := write_port_stalls initial;
     queue_full_stalls := queue_full_stalls initial;
     address_read_counts := address_read_counts initial;
     address_write_counts := address_write_counts initial;
     address_granularity := address_granularity m |}.

Definition recordReadLatency (latency : Z) (m : MemoryAccessStats)
  : MemoryAccessStats :=
  {| cache_hits := cache_hits m; cache_misses := cache_misses m;
     cache_read_hits := cache_read_hits m;
     cache_read_misses := cache_read_misses m;
     cache_write_hits := cache_write_hits m;
     cache_write_misses := cache_write_misses m; spm_reads := spm_reads m;
     spm_writes := spm_writes m; spm_read_bytes := spm_read_bytes m;
     spm_write_bytes := spm_write_bytes m;
     dma_read_requests := dma_read_requests m;
     dma_write_requests := dma_write_requests m;
     dma_read_bytes := dma_read_bytes m;
     dma_write_bytes := dma_write_bytes m;
     dma_read_latency_total := dma_read_latency_total m;
     dma_write_latency_total := dma_write_latency_total m;
     total_read_latency := u64 (total_read_latency m + latency);
     total_write_latency := total_write_latency m;
     min_read_latency := Z.min (min_read_latency m) latency;
     max_read_latency := Z.max (max_read_latency m) latency;
     min_write_latency := min_write_latency m;
     max_write_latency := max_write_latency m;
     read_count := u64 (read_count m + 1);
     write_count := write_count m; total_bytes_read := total_bytes_read m;
     total_bytes_written := total_bytes_written m;
     peak_read_bandwidth_cycle := peak_read_bandwidth_cycle m;
     peak_write_bandwidth_cycle := peak_write_bandwidth_cycle m;
     peak_read_bytes_per_cycle := peak_read_bytes_per_cycle m;
     peak_write_bytes_per_cycle := peak_write_bytes_per_cycle m;
     read_port_stalls := read_port_stalls m;
     write_port_stalls := write_port_stalls m;
     queue_full_stalls := queue_full_stalls m;
     address_read_counts := address_read_counts m;
     address_write_counts := address_write_counts m;
     address_granularity := address_granularity m |}.

Definition recordWriteLatency (latency : Z) (m : MemoryAccessStats)
  : MemoryAccessStats :=
  {| cache_hits := cache_hits m; cache_misses := cache_misses m;
     cache_read_hits := cache_read_hits m;
     cache_read_misses := cache_read_misses m;
     cache_write_hits := cache_write_hits m;
     cache_write_misses := cache_write_misses m; spm_reads := spm_reads m;
     spm_writes := spm_writes m; spm_read_bytes := spm_read_bytes m;
     spm_write_bytes := spm_write_bytes m;
     dma_read_requests := dma_read_requests m;
     dma_write_requests := dma_write_requests m;
     dma_read_bytes := dma_read_bytes m;
     dma_write_bytes := dma_write_bytes m;
     dma_read_latency_total := dma_read_latency_total m;
     dma_write_latency_total := dma_write_latency_total m;
     total_read_latency := total_read_latency m;
     total_write_latency := u64 (total_write_latency m + latency);
     min_read_latency := min_read_latency m;
     max_read_latency := max_read_latency m;
     min_write_latency := Z.min (min_write_latency m) latency;
     max_write_latency := Z.max (max_write_latency m) latency;
     read_count := read_count m;
     write_count := u64 (write_count m + 1);
     total_bytes_read := total_bytes_read m;
     total_bytes_written := total_bytes_written m;
     peak_read_bandwidth_cycle := peak_read_bandwidth_cycle m;
     peak_write_bandwidth_cycle := peak_write_bandwidth_cycle m;
     peak_read_bytes_per_cycle := peak_read_bytes_per_cycle m;
     peak_write_bytes_per_cycle := peak_write_bytes_per_cycle m;
     read_port_stalls := read_port_stalls m;
     write_port_stalls := write_port_stalls m;
     queue_full_stalls := queue_full_stalls m;
     address_read_counts := address_read_counts m;
     address_write_counts := address_write_counts m;
     address_granularity := address_granularity m |}.

(** [counts[bucket]++] on a [std::map<uint64_t, uint64_t>]: a missing key
    is inserted with value 0 first. *)
Definition bump (bucket : Z) (counts : Zmap Z) : Zmap Z :=
  <[bucket := u64 (default 0 (counts !! bucket) + 1)]> counts.

(** [(addr / address_granularity) * address_granularity] *)
Definition bucket_of (granularity addr : Z) : Z :=
  u64 (addr / granularity * granularity).

(** [recordAddressAccess]: the division has no defined result for
    [address_granularity == 0]. *)
Definition recordAddressAccess (addr : Z) (is_write : bool)
    (m : MemoryAccessStats) : outcome MemoryAccessStats :=
  if address_granularity m =? 0 then UndefinedBehaviour
  else
    let bucket := bucket_of (address_granularity m) addr in
    Returns
      {| cache_hits := cache_hits m; cache_misses := cache_misses m;
         cache_read_hits := cache_read_hits m;
         cache_read_misses := cache_read_misses m;
         cache_write_hits := cache_write_hits m;
         cache_write_misses := cache_write_misses m;
         spm_reads := spm_reads m; spm_writes := spm_writes m;
         spm_read_bytes := spm_read_bytes m;
         spm_write_bytes := spm_write_bytes m;
         dma_read_requests := dma_read_requests m;
         dma_write_requests := dma_write_requests m;
         dma_read_bytes := dma_read_bytes m;
         dma_write_bytes := dma_write_bytes m;
         dma_read_latency_total := dma_read_latency_total m;
         dma_write_latency_total := dma_write_latency_total m;
         total_read_latency := total_read_latency m;
         total_write_latency := total_write_latency m;
         min_read_latency := min_read_latency m;
         max_read_latency := max_read_latency m;
         min_write_latency := min_write_latency m;
         max_write_latency := max_write_latency m;
         read_count := read_count m; write_count := write_count m;
         total_bytes_read := total_bytes_read m;
         total_bytes_written := total_bytes_written m;
         peak_read_bandwidth_cycle := peak_read_bandwidth_cycle m;
         peak_write_bandwidth_cycle := peak_write_bandwidth_cycle m;
         peak_read_bytes_per_cycle := peak_read_bytes_per_cycle m;
         peak_write_bytes_per_cycle := peak_write_bytes_per_cycle m;
         read_port_stalls := read_port_stalls m;
         write_port_stalls := write_port_stalls m;
         queue_full_stalls := queue_full_stalls m;
         address_read_counts := if is_write then address_read_counts m
           else bump bucket (address_read_counts m);
         address_write_counts := if is_write then bump bucket (address_write_counts m)
           else address_write_counts m;
         address_granularity := address_granularity m |}.

Definition add_bytes (is_write : bool) (bytes : Z) (m : MemoryAccessStats)
  : MemoryAccessStats :=
  {| cache_hits := cache_hits m; cache_misses := cache_misses m;
     cache_read_hits := cache_read_hits m;
     cache_read_misses := cache_read_misses m;
     cache_write_hits := cache_write_hits m;
     cache_write_misses := cache_write_misses m; spm_reads := spm_reads m;
     spm_writes := spm_writes m; spm_read_bytes := spm_read_bytes m;
     spm_write_bytes := spm_write_bytes m;
     dma_read_requests := dma_read_requests m;
     dma_write_requests := dma_write_requests m;
     dma_read_bytes := dma_read_bytes m;
     dma_write_bytes := dma_write_bytes m;
     dma_read_latency_total := dma_read_latency_total m;
     dma_write_latency_total := dma_write_latency_total m;
     total_read_latency := total_read_latency m;
     total_write_latency := total_write_latency m;
     min_read_latency := min_read_latency m;
     max_read_latency := max_read_latency m;
     min_write_latency := min_write_latency m;
     max_write_latency := max_write_latency m; read_count := read_count m;
     write_count := write_count m;
     total_bytes_read := if is_write then total_bytes_read m
       else u64 (total_bytes_read m + bytes);
     total_bytes_written := if is_write then u64 (total_bytes_written m + bytes)
       else total_bytes_written m;
     peak_read_bandwidth_cycle := peak_read_bandwidth_cycle m;
     peak_write_bandwidth_cycle := peak_write_bandwidth_cycle m;
     peak_read_bytes_per_cycle := peak_read_bytes_per_cycle m;
     peak_write_bytes_per_cycle := peak_write_bytes_per_cycle m;
     read_port_stalls := read_port_stalls m;
     write_port_stalls := write_port_stalls m;
     queue_full_stalls := queue_full_stalls m;
     address_read_counts := address_read_counts m;
     address_write_counts := address_write_counts m;
     address_granularity := address_granularity m |}.

(** The [CACHE_READ] and [CACHE_WRITE] cases: one of the two totals and
    the matching read or write counter. *)
Definition cache_access (is_write cache_hit : bool) (m : MemoryAccessStats)
  : MemoryAccessStats :=
  {| cache_hits := if cache_hit then u64 (cache_hits m + 1) else cache_hits m;
     cache_misses := if cache_hit then cache_misses m else u64 (cache_misses m + 1);
     cache_read_hits := if cache_hit && negb is_write
       then u64 (cache_read_hits m + 1) else cache_read_hits m;
     cache_read_misses := if negb cache_hit && negb is_write
       then u64 (cache_read_misses m + 1) else cache_read_misses m;
     cache_write_hits := if cache_hit && is_write
       then u64 (cache_write_hits m + 1) else cache_write_hits m;
     cache_write_misses := if negb cache_hit && is_write
       then u64 (cache_write_misses m + 1) else cache_write_misses m;
     spm_reads := spm_reads m; spm_writes := spm_writes m;
     spm_read_bytes := spm_read_bytes m;
     spm_write_bytes := spm_write_bytes m;
     dma_read_requests := dma_read_requests m;
     dma_write_requests := dma_write_requests m;
     dma_read_bytes := dma_read_bytes m;
     dma_write_bytes := dma_write_bytes m;
     dma_read_latency_total := dma_read_latency_total m;
     dma_write_latency_total := dma_write_latency_total m;
     total_read_latency := total_read_latency m;
     total_write_latency := total_write_latency m;
     min_read_latency := min_read_latency m;
     max_read_latency := max_read_latency m;
     min_write_latency := min_write_latency m;
     max_write_latency := max_write_latency m; read_count := read_count m;
     write_count := write_count m; total_bytes_read := total_bytes_read m;
     total_bytes_written := total_bytes_written m;
     peak_read_bandwidth_cycle := peak_read_bandwidth_cycle m;
     peak_write_bandwidth_cycle := peak_write_bandwidth_cycle m;
     peak_read_bytes_per_cycle := peak_read_bytes_per_cycle m;
     peak_write_bytes_per_cycle := peak_write_bytes_per_cycle m;
     read_port_stalls := read_port_stalls m;
     write_port_stalls := write_port_stalls m;
     queue_full_stalls := queue_full_stalls m;
     address_read_counts := address_read_counts m;
     address_write_counts := address_write_counts m;
     address_granularity := address_granularity m |}.

(** The [SPM_READ] and [SPM_WRITE] cases. *)
Definition spm_access (is_write : bool) (bytes : Z) (m : MemoryAccessStats)
  : MemoryAccessStats :=
  {| cache_hits := cache_hits m; cache_misses := cache_misses m;
     cache_read_hits := cache_read_hits m;
     cache_read_misses := cache_read_misses m;
     cache_write_hits := cache_write_hits m;
     cache_write_misses := cache_write_misses m;
     spm_reads := if is_write then spm_reads m else u64 (spm_reads m + 1);
     spm_writes := if is_write then u64 (spm_writes m + 1) else spm_writes m;
     spm_read_bytes := if is_write then spm_read_bytes m
       else u64 (spm_read_bytes m + bytes);
     spm_write_bytes := if is_write then u64 (spm_write_bytes m + bytes)
       else spm_write_bytes m;
     dma_read_requests := dma_read_requests m;
     dma_write_requests := dma_write_requests m;
     dma_read_bytes := dma_read_bytes m;
     dma_write_bytes := dma_write_bytes m;
     dma_read_latency_total := dma_read_latency_total m;
     dma_write_latency_total := dma_write_latency_total m;
     total_read_latency := total_read_latency m;
     total_write_latency := total_write_latency m;
     min_read_latency := min_read_latency m;
     max_read_latency := max_read_latency m;
     min_write_latency := min_write_latency m;
     max_write_latency := max_write_latency m; read_count := read_count m;
     write_count := write_count m; total_bytes_read := total_bytes_read m;
     total_bytes_written := total_bytes_written m;
     peak_read_bandwidth_cycle := peak_read_bandwidth_cycle m;
     peak_write_bandwidth_cycle := peak_write_bandwidth_cycle m;
     peak_read_bytes_per_cycle := peak_read_bytes_per_cycle m;
     peak_write_bytes_per_cycle := peak_write_bytes_per_cycle m;
     read_port_stalls := read_port_stalls m;
     write_port_stalls := write_port_stalls m;
     queue_full_stalls := queue_full_stalls m;
     address_read_counts := address_read_counts m;
     address_write_counts := address_write_counts m;
     address_granularity := address_granularity m |}.

(** The [DMA_READ] and [DMA_WRITE] cases; [recordDMATransfer] has the
    same three statements per direction. *)
Definition dma_access (is_write : bool) (bytes latency : Z)
    (m : MemoryAccessStats) : MemoryAccessStats :=
  {| cache_hits := cache_hits m; cache_misses := cache_misses m;
     cache_read_hits := cache_read_hits m;
     cache_read_misses := cache_read_misses m;
     cache_write_hits := cache_write_hits m;
     cache_write_misses := cache_write_misses m; spm_reads := spm_reads m;
     spm_writes := spm_writes m; spm_read_bytes := spm_read_bytes m;
     spm_write_bytes := spm_write_bytes m;
     dma_read_requests := if is_write then dma_read_requests m
       else u64 (dma_read_requests m + 1);
     dma_write_requests := if is_write then u64 (dma_write_requests m + 1)
       else dma_write_requests m;
     dma_read_bytes := if is_write then dma_read_bytes m
       else u64 (dma_read_bytes m + bytes);
     dma_write_bytes := if is_write then u64 (dma_write_bytes m + bytes)
       else dma_write_bytes m;
     dma_read_latency_total := if is_write then dma_read_latency_total m
       else u64 (dma_read_latency_total m + latency);
     dma_write_latency_total := if is_write
       then u64 (dma_write_latency_total m + latency)
       else dma_write_latency_total m;
     total_read_latency := total_read_latency m;
     total_write_latency := total_write_latency m;
     min_read_latency := min_read_latency m;
     max_read_latency := max_read_latency m;
     min_write_latency := min_write_latency m;
     max_write_latency := max_write_latency m; read_count := read_count m;
     write_count := write_count m; total_bytes_read := total_bytes_read m;
     total_bytes_written := total_bytes_written m;
     peak_read_bandwidth_cycle := peak_read_bandwidth_cycle m;
     peak_write_bandwidth_cycle := peak_write_bandwidth_cycle m;
     peak_read_bytes_per_cycle := peak_read_bytes_per_cycle m;
     peak_write_bytes_per_cycle := peak_write_bytes_per_cycle m;
     read_port_stalls := read_port_stalls m;
     write_port_stalls := write_port_stalls m;
     queue_full_stalls := queue_full_stalls m;
     address_read_counts := address_read_counts m;
     address_write_counts := address_write_counts m;
     address_granularity := address_granularity m |}.

(** [HWStatistics::recordMemoryRead], on [summary.memory_access]. *)
Definition recordMemoryRead (addr bytes latency : Z) (cache_hit : bool)
    (type : MemAccessType) (m : MemoryAccessStats) : outcome MemoryAccessStats :=
  match recordAddressAccess addr false
          (recordReadLatency latency (add_bytes false bytes m)) with
  | UndefinedBehaviour => UndefinedBehaviour
  | Returns m' =>
      Returns match type with
              | CACHE_READ => cache_access false cache_hit m'
              | SPM_READ => spm_access false bytes m'
              | DMA_READ => dma_access false bytes latency m'
              | _ => m'
              end
  end.

(** [HWStatistics::recordMemoryWrite], on [summary.memory_access]. *)
Definition recordMemoryWrite (addr bytes latency : Z) (cache_hit : bool)
    (type : MemAccessType) (m : MemoryAccessStats) : outcome MemoryAccessStats :=
  match recordAddressAccess addr true
          (recordWriteLatency latency (add_bytes true bytes m)) with
  | UndefinedBehaviour => UndefinedBehaviour
  | Returns m' =>
      Returns match type with
              | CACHE_WRITE => cache_access true cache_hit m'
              | SPM_WRITE => spm_access true bytes m'
              | DMA_WRITE => dma_access true bytes latency m'
              | _ => m'
              end
  end.

(** [HWStatistics::recordDMATransfer] *)
Definition recordDMATransfer (is_read : bool) (bytes latency : Z)
    (m : MemoryAccessStats) : MemoryAccessStats :=
  dma_access (negb is_read) bytes latency m.

(** One call of [recordMemoryRead], [recordMemoryWrite] or
    [recordDMATransfer]. *)
Inductive Access : Set :=
| MemoryRead (addr bytes latency : Z) (cache_hit : bool) (type : MemAccessType)
| MemoryWrite (addr bytes latency : Z) (cache_hit : bool) (type : MemAccessType)
| DMATransfer (is_read : bool) (bytes latency : Z).

Definition record (a : Access) (m : MemoryAccessStats) : outcome MemoryAccessStats :=
  match a with
  | MemoryRead addr bytes latency hit type =>
      recordMemoryRead addr bytes latency hit type m
  | MemoryWrite addr bytes latency hit type =>
      recordMemoryWrite addr bytes latency hit type m
  | DMATransfer is_read bytes latency =>
      Returns (recordDMATransfer is_read bytes latency m)
  end.

(** The calls of a list, first to last. *)
Fixpoint recordAll (l : list Access) (m : MemoryAccessStats)
  : outcome MemoryAccessStats :=
  match l with
  | [] => Returns m
  | a :: rest =>
      match record a m with
      | Returns m' => recordAll rest m'
      | UndefinedBehaviour => UndefinedBehaviour
      end
  end.

(** The cache totals agree with the per-direction counters (as 64-bit
    values). *)
Definition cache_counters_agree (m : MemoryAccessStats) : Prop :=
  cache_hits m = u64 (cache_read_hits m + cache_write_hits m) /\
  cache_misses m = u64 (cache_read_misses m + cache_write_misses m).

(** The calls that reach one of the cache cases. *)
Definition is_cache_access (a : Access) : bool :=
  match a with
  | MemoryRead _ _ _ _ CACHE_READ | MemoryWrite _ _ _ _ CACHE_WRITE => true
  | _ => false
  end.

Definition is_memory_read (a : Access) : bool :=
  match a with MemoryRead _ _ _ _ _ => true | _ => false end.

Definition is_memory_write (a : Access) : bool :=
  match a with MemoryWrite _ _ _ _ _ => true | _ => false end.

(** What accesses did to [m] on the way to [m']: the granularity is
    kept, the cache totals agree, the three counts moved by [r], [w] and
    [c], and the latency bounds only widened. *)
Definition moved (m m' : MemoryAccessStats) (r w c : Z) : Prop :=
  address_granularity m' = address_granularity m /\
  cache_counters_agree m' /\
  u64 (read_count m') = u64 (read_count m + r) /\
  u64 (write_count m') = u64 (write_count m + w) /\
  u64 (cache_hits m' + cache_misses m') = u64 (cache_hits m + cache_misses m + c) /\
  min_read_latency m' <= min_read_latency m /\
  max_read_latency m <= max_read_latency m'.

(** The latencies handed to [recordMemoryRead], in call order. *)
Fixpoint read_latencies (l : list Access) : list Z :=
  match l with
  | [] => []
  | MemoryRead _ _ latency _ _ :: rest => latency :: read_latencies rest
  | _ :: rest => read_latencies rest
  end.

End MemAccess.

(** ** temp_hw_statistics_enhanced.{hh,cc}: [struct DataflowStats] and
       the methods of [HWStatistics] that fill it *)

Module Dataflow.

Record DataflowStats : Type := mkDataflowStats {
  critical_path_length : Z;             (* int *)
  critical_path_instructions : Z;
  critical_path_loads : Z;
  critical_path_stores : Z;
  critical_path_computes : Z;
  avg_ready_instructions : float;
  avg_issued_per_cycle : float;
  max_parallel_ops : Z;                 (* int *)
  total_instructions : Z;
  true_dependencies : Z;                (* uint64_t *)
  anti_dependencies : Z;
  output_dependencies : Z;
  control_dependencies : Z;
  memory_dependencies : Z;
  avg_dependency_depth : float;
  max_dependency_depth : Z;             (* int *)
  total_dependency_edges : Z;
  parallelism_histogram : Zmap Z;       (* std::map<int, uint64_t> *)
  critical_path_by_opcode : Zmap Z      (* std::map<int, int> *)
}.

(** The in-class initialisers, which [reset()] re-establishes. *)
Definition reset : DataflowStats :=
  {| critical_path_length := 0; critical_path_instructions := 0;
     critical_path_loads := 0; critical_path_stores := 0;
     critical_path_computes := 0;
     avg_ready_instructions := 0; avg_issued_per_cycle := 0;
     max_parallel_ops := 0; total_instructions := 0;
     true_dependencies := 0; anti_dependencies := 0;
     output_dependencies := 0; control_dependencies := 0;
     memory_dependencies := 0;
     avg_dependency_depth := 0; max_dependency_depth := 0;
     total_dependency_edges := 0;
     parallelism_histogram := ∅; critical_path_by_opcode := ∅ |}%float.

(** [HWStatistics::recordDependency]; the two uids are not used. *)
Definition recordDependency (producer_uid consumer_uid : Z)
    (is_raw is_war is_waw : bool) (df : DataflowStats) : DataflowStats :=
  {| critical_path_length := critical_path_length df;
     critical_path_instructions := critical_path_instructions df;
     critical_path_loads := critical_path_loads df;
     critical_path_stores := critical_path_stores df;
     critical_path_computes := critical_path_computes df;
     avg_ready_instructions := avg_ready_instructions df;
     avg_issued_per_cycle := avg_issued_per_cycle df;
     max_parallel_ops := max_parallel_ops df;
     total_instructions := total_instructions df;
     true_dependencies := if is_raw then u64 (true_dependencies df + 1)
       else true_dependencies df;
     anti_dependencies := if is_war then u64 (anti_dependencies df + 1)
       else anti_dependencies df;
     output_dependencies := if is_waw then u64 (output_dependencies df + 1)
       else output_dependencies df;
     control_dependencies := control_dependencies df;
     memory_dependencies := memory_dependencies df;
     avg_dependency_depth := avg_dependency_depth df;
     max_dependency_depth := max_dependency_depth df;
     total_dependency_edges := i32 (total_dependency_edges df + 1);
     parallelism_histogram := parallelism_histogram df;
     critical_path_by_opcode := critical_path_by_opcode df |}.

(** [HWStatistics::recordCriticalPathNode]; the uid is not used. *)
Definition recordCriticalPathNode (uid opcode : Z) (is_load is_store : bool)
    (df : DataflowStats) : DataflowStats :=
  {| critical_path_length := critical_path_length df;
     critical_path_instructions := i32 (critical_path_instructions df + 1);
     critical_path_loads := if is_load then i32 (critical_path_loads df + 1)
       else critical_path_loads df;
     critical_path_stores := if is_store then i32 (critical_path_stores df + 1)
       else critical_path_stores df;
     critical_path_computes := if negb is_load && negb is_store
       then i32 (critical_path_computes df + 1)
       else critical_path_computes df;
     avg_ready_instructions := avg_ready_instructions df;
     avg_issued_per_cycle := avg_issued_per_cycle df;
     max_parallel_ops := max_parallel_ops df;
     total_instructions := total_instructions df;
     true_dependencies := true_dependencies df;
     anti_dependencies := anti_dependencies df;
     output_dependencies := output_dependencies df;
     control_dependencies := control_dependencies df;
     memory_dependencies := memory_dependencies df;
     avg_dependency_depth := avg_dependency_depth df;
     max_dependency_depth := max_dependency_depth df;
     total_dependency_edges := total_dependency_edges df;
     parallelism_histogram := parallelism_histogram df;
     critical_path_by_opcode := <[opcode := i32 (default 0 (critical_path_by_opcode df !! opcode) + 1)]>
       (critical_path_by_opcode df) |}.

(** [HWStatistics::recordParallelism] *)
Definition recordParallelism (ready_count issued_count : Z) (df : DataflowStats)
  : DataflowStats :=
  {| critical_path_length := critical_path_length df;
     critical_path_instructions := critical_path_instructions df;
     critical_path_loads := critical_path_loads df;
     critical_path_stores := critical_path_stores df;
     critical_path_computes := critical_path_computes df;
     avg_ready_instructions := avg_ready_instructions df;
     avg_issued_per_cycle := avg_issued_per_cycle df;
     max_parallel_ops := Z.max (max_parallel_ops df) ready_count;
     total_instructions := i32 (total_instructions df + issued_count);
     true_dependencies := true_dependencies df;
     anti_dependencies := anti_dependencies df;
     output_dependencies := output_dependencies df;
     control_dependencies := control_dependencies df;
     memory_dependencies := memory_dependencies df;
     avg_dependency_depth := avg_dependency_depth df;
     max_dependency_depth := max_dependency_depth df;
     total_dependency_edges := total_dependency_edges df;
     parallelism_histogram := <[ready_count := u64 (default 0 (parallelism_histogram df !! ready_count) + 1)]>
       (parallelism_histogram df);
     critical_path_by_opcode := critical_path_by_opcode df |}.

(** A node handed to [recordCriticalPathNode]. *)
Record Node : Set := mkNode {
  uid : Z; opcode : Z; is_load : bool; is_store : bool
}.

Definition recordNodes (nodes : list Node) (df : DataflowStats) : DataflowStats :=
  fold_left (fun df n => recordCriticalPathNode (uid n) (opcode n)
                           (is_load n) (is_store n) df) nodes df.

(** Consecutive calls of [recordParallelism], one per
    [(ready_count, issued_count)] pair. *)
Definition recordCycles (cycles : list (Z * Z)) (df : DataflowStats) : DataflowStats :=
  fold_left (fun df c => recordParallelism (fst c) (snd c) df) cycles df.

Definition is_compute (n : Node) : bool := negb (is_load n) && negb (is_store n).

Definition has_opcode (op : Z) (n : Node) : bool := opcode n =? op.

Definition has_ready_count (k : Z) (c : Z * Z) : bool := fst c =? k.

(** A dependency handed to [recordDependency]. *)
Record Edge : Set := mkEdge {
  producer_uid : Z; consumer_uid : Z;
  is_raw : bool; is_war : bool; is_waw : bool
}.

Definition recordEdges (edges : list Edge) (df : DataflowStats) : DataflowStats :=
  fold_left (fun df e => recordDependency (producer_uid e) (consumer_uid e)
                           (is_raw e) (is_war e) (is_waw e) df) edges df.

End Dataflow.

(** ** temp_hw_statistics_enhanced.{hh,cc}: [struct FUUtilizationStats],
       contention and port stalls *)

Module FUUtil.
Import Enums.

(** [static_cast<FUType>(i)] for [0 <= i < FU_TYPE_COUNT]. *)
Definition fu_of_index (i : nat) : FUType :=
  match i with
  | 0 => FU_TYPE_COUNTER | 1 => FU_TYPE_INT_ADD_SUB | 2 => FU_TYPE_INT_MUL_DIV
  | 3 => FU_TYPE_INT_SHIFT | 4 => FU_TYPE_INT_BITWISE
  | 5 => FU_TYPE_FP_FLOAT_ADD_SUB | 6 => FU_TYPE_FP_FLOAT_MUL_DIV
  | 7 => FU_TYPE_FP_DOUBLE_ADD_SUB | 8 => FU_TYPE_FP_DOUBLE_MUL_DIV
  | 9 => FU_TYPE_ZERO_CYCLE | 10 => FU_TYPE_GEP | 11 => FU_TYPE_CONVERSION
  | _ => FU_TYPE_OTHER
  end%nat.

Definition getFUTypeName (t : FUType) : string :=
  match t with
  | FU_TYPE_COUNTER => "counter"
  | FU_TYPE_INT_ADD_SUB => "int_addsub"
  | FU_TYPE_INT_MUL_DIV => "int_muldiv"
  | FU_TYPE_INT_SHIFT => "int_shift"
  | FU_TYPE_INT_BITWISE => "int_bitwise"
  | FU_TYPE_FP_FLOAT_ADD_SUB => "fp_float_addsub"
  | FU_TYPE_FP_FLOAT_MUL_DIV => "fp_float_muldiv"
  | FU_TYPE_FP_DOUBLE_ADD_SUB => "fp_double_addsub"
  | FU_TYPE_FP_DOUBLE_MUL_DIV => "fp_double_muldiv"
  | FU_TYPE_ZERO_CYCLE => "zero_cycle"
  | FU_TYPE_GEP => "gep"
  | FU_TYPE_CONVERSION => "conversion"
  | FU_TYPE_OTHER => "other"
  end%string.

(** [struct FUUtilizationStats]; the per-type entries are those of
    [Enhanced.FUTypeUtilizationStats]. *)
Record FUUtilizationStats : Type := mkFUUtilizationStats {
  by_type : list Enhanced.FUTypeUtilizationStats;  (* [FU_TYPE_COUNT] *)
  total_fu_busy_cycles : Z;                        (* uint64_t *)
  total_fu_idle_cycles : Z;
  total_contention_stalls : Z
}.

(** [reset()] *)
Definition reset : FUUtilizationStats :=
  {| by_type := replicate FU_TYPE_COUNT Enhanced.zeroFUTypeUtilizationStats;
     total_fu_busy_cycles := 0; total_fu_idle_cycles := 0;
     total_contention_stalls := 0 |}.

(** [by_type[i].contention_stalls] *)
Definition contention_at (u : FUUtilizationStats) (i : nat) : Z :=
  Enhanced.contention_stalls
    (default Enhanced.zeroFUTypeUtilizationStats (by_type u !! i)).

(** One iteration of the loop in [getMostContentedFU]. *)
Definition most_contended_step (u : FUUtilizationStats) (acc : FUType * Z)
    (i : nat) : FUType * Z :=
  let '(most_contended, max_contention) := acc in
  if contention_at u i >? max_contention
  then (fu_of_index i, contention_at u i)
  else (most_contended, max_contention).

(** [for (int i = 0; i < FU_TYPE_COUNT; i++)] *)
Definition getMostContentedFU (u : FUUtilizationStats) : FUType :=
  fst (fold_left (most_contended_step u) (seq 0 FU_TYPE_COUNT)
                 (FU_TYPE_OTHER, 0)).

(** [contention_stalls++; contention_requests++] on one entry. *)
Definition contended (f : Enhanced.FUTypeUtilizationStats)
  : Enhanced.FUTypeUtilizationStats :=
  {| Enhanced.instances_available := Enhanced.instances_available f;
     Enhanced.max_concurrent_used := Enhanced.max_concurrent_used f;
     Enhanced.total_busy_cycles := Enhanced.total_busy_cycles f;
     Enhanced.total_operations := Enhanced.total_operations f;
     Enhanced.contention_stalls := u64 (Enhanced.contention_stalls f + 1);
     Enhanced.contention_requests := u64 (Enhanced.contention_requests f + 1) |}.

(** [HWStatistics::recordFUContention], on [summary.fu_utilization] and
    [summary.stall_breakdown]. *)
Definition recordFUContention (type : FUType)
    (s : FUUtilizationStats * Stall.StallBreakdown)
  : FUUtilizationStats * Stall.StallBreakdown :=
  let '(u, b) := s in
  let idx := fu_index type in
  let u' :=
    {| by_type := alter contended idx (by_type u);
       total_fu_busy_cycles := total_fu_busy_cycles u;
       total_fu_idle_cycles := total_fu_idle_cycles u;
       total_contention_stalls := u64 (total_contention_stalls u + 1) |} in
  let b' :=
    {| Stall.by_cause := Stall.incr_at (Stall.by_cause b) (cause_index FU_CONTENTION);
       Stall.memory_read_stalls := Stall.memory_read_stalls b;
       Stall.memory_write_stalls := Stall.memory_write_stalls b;
       Stall.cache_miss_stalls := Stall.cache_miss_stalls b;
       Stall.dma_stalls := Stall.dma_stalls b;
       Stall.raw_stalls := Stall.raw_stalls b;
       Stall.waw_stalls := Stall.waw_stalls b;
       Stall.war_stalls := Stall.war_stalls b;
       Stall.fu_stalls_by_type := Stall.incr_at (Stall.fu_stalls_by_type b) idx;
       Stall.read_port_stalls := Stall.read_port_stalls b;
       Stall.write_port_stalls := Stall.write_port_stalls b;
       Stall.reservation_full_stalls := Stall.reservation_full_stalls b;
       Stall.compute_queue_full_stalls := Stall.compute_queue_full_stalls b;
       Stall.total_stall_cycles := Stall.total_stall_cycles b;
       Stall.max_consecutive_stalls := Stall.max_consecutive_stalls b;
       Stall.current_stall_streak := Stall.current_stall_streak b;
       Stall.stall_events := Stall.stall_events b |} in
  (u', b').

(** [HWStatistics::recordFUStall]: [recordFUContention(type)], then
    [recordStallCause(StallCause::FU_CONTENTION)]. *)
Definition recordFUStall (type : FUType)
    (s : FUUtilizationStats * Stall.StallBreakdown)
  : FUUtilizationStats * Stall.StallBreakdown :=
  let '(u, b) := recordFUContention type s in
  (u, Stall.recordStall FU_CONTENTION b).

(** [HWStatistics::recordPortContention], on [summary.memory_access] and
    [summary.stall_breakdown]. *)
Definition recordPortContention (is_read : bool)
    (s : MemAccess.MemoryAccessStats * Stall.StallBreakdown)
  : MemAccess.MemoryAccessStats * Stall.StallBreakdown :=
  let '(m, b) := s in
  let m' :=
    {| MemAccess.cache_hits := MemAccess.cache_hits m;
       MemAccess.cache_misses := MemAccess.cache_misses m;
       MemAccess.cache_read_hits := MemAccess.cache_read_hits m;
       MemAccess.cache_read_misses := MemAccess.cache_read_misses m;
       MemAccess.cache_write_hits := MemAccess.cache_write_hits m;
       MemAccess.cache_write_misses := MemAccess.cache_write_misses m;
       MemAccess.spm_reads := MemAccess.spm_reads m;
       MemAccess.spm_writes := MemAccess.spm_writes m;
       MemAccess.spm_read_bytes := MemAccess.spm_read_bytes m;
       MemAccess.spm_write_bytes := MemAccess.spm_write_bytes m;
       MemAccess.dma_read_requests := MemAccess.dma_read_requests m;
       MemAccess.dma_write_requests := MemAccess.dma_write_requests m;
       MemAccess.dma_read_bytes := MemAccess.dma_read_bytes m;
       MemAccess.dma_write_bytes := MemAccess.dma_write_bytes m;
       MemAccess.dma_read_latency_total := MemAccess.dma_read_latency_total m;
       MemAccess.dma_write_latency_total := MemAccess.dma_write_latency_total m;
       MemAccess.total_read_latency := MemAccess.total_read_latency m;
       MemAccess.total_write_latency := MemAccess.total_write_latency m;
       MemAccess.min_read_latency := MemAccess.min_read_latency m;
       MemAccess.max_read_latency := MemAccess.max_read_latency m;
       MemAccess.min_write_latency := MemAccess.min_write_latency m;
       MemAccess.max_write_latency := MemAccess.max_write_latency m;
       MemAccess.read_count := MemAccess.read_count m;
       MemAccess.write_count := MemAccess.write_count m;
       MemAccess.total_bytes_read := MemAccess.total_bytes_read m;
       MemAccess.total_bytes_written := MemAccess.total_bytes_written m;
       MemAccess.peak_read_bandwidth_cycle := MemAccess.peak_read_bandwidth_cycle m;
       MemAccess.peak_write_bandwidth_cycle := MemAccess.peak_write_bandwidth_cycle m;
       MemAccess.peak_read_bytes_per_cycle := MemAccess.peak_read_bytes_per_cycle m;
       MemAccess.peak_write_bytes_per_cycle := MemAccess.peak_write_bytes_per_cycle m;
       MemAccess.read_port_stalls := if is_read then u64 (MemAccess.read_port_stalls m + 1)
         else MemAccess.read_port_stalls m;
       MemAccess.write_port_stalls := if is_read then MemAccess.write_port_stalls m
         else u64 (MemAccess.write_port_stalls m + 1);
       MemAccess.queue_full_stalls := MemAccess.queue_full_stalls m;
       MemAccess.address_read_counts := MemAccess.address_read_counts m;
       MemAccess.address_write_counts := MemAccess.address_write_counts m;
       MemAccess.address_granularity := MemAccess.address_granularity m |} in
  let b' :=
    {| Stall.by_cause := Stall.incr_at (Stall.by_cause b) (cause_index PORT_CONTENTION);
       Stall.memory_read_stalls := Stall.memory_read_stalls b;
       Stall.memory_write_stalls := Stall.memory_write_stalls b;
       Stall.cache_miss_stalls := Stall.cache_miss_stalls b;
       Stall.dma_stalls := Stall.dma_stalls b;
       Stall.raw_stalls := Stall.raw_stalls b;
       Stall.waw_stalls := Stall.waw_stalls b;
       Stall.war_stalls := Stall.war_stalls b;
       Stall.fu_stalls_by_type := Stall.fu_stalls_by_type b;
       Stall.read_port_stalls := if is_read then u64 (Stall.read_port_stalls b + 1)
         else Stall.read_port_stalls b;
       Stall.write_port_stalls := if is_read then Stall.write_port_stalls b
         else u64 (Stall.write_port_stalls b + 1);
       Stall.reservation_full_stalls := Stall.reservation_full_stalls b;
       Stall.compute_queue_full_stalls := Stall.compute_queue_full_stalls b;
       Stall.total_stall_cycles := Stall.total_stall_cycles b;
       Stall.max_consecutive_stalls := Stall.max_consecutive_stalls b;
       Stall.current_stall_streak := Stall.current_stall_streak b;
       Stall.stall_events := Stall.stall_events b |} in
  (m', b').

(** What the loop of [getMostContentedFU] has established once the
    indices [0 .. k-1] are done. *)
Definition most_contended_inv (u : FUUtilizationStats) (k : nat)
    (acc : FUType * Z) : Prop :=
  let '(t, m) := acc in
  (forall i, (i < k)%nat -> contention_at u i <= m) /\
  ((m = 0 /\ t = FU_TYPE_OTHER) \/
   (0 < m /\ exists j, (j < k)%nat /\ t = fu_of_index j /\
              contention_at u j = m /\
              forall i, (i < j)%nat -> contention_at u i < m)).

End FUUtil.

(** ** temp_hw_statistics_enhanced.hh: sequences of stall reports *)

Module StallRun.
Import Enums Stall.

(** What the engine is told about one cycle: [recordStall(c)] or
    [recordNoStall()]. *)
Inductive Report : Set :=
| Stalled (c : StallCause)
| Advanced.

Definition record (s : StallBreakdown) (r : Report) : StallBreakdown :=
  match r with
  | Stalled c => recordStall c s
  | Advanced => recordNoStall s
  end.

Definition recordAll (rs : list Report) (s : StallBreakdown) : StallBreakdown :=
  fold_left record rs s.

Definition is_stalled (r : Report) : bool :=
  match r with Stalled _ => true | Advanced => false end.

(** Number of stalled cycles among the reports. *)
Definition stalled_cycles (rs : list Report) : Z :=
  Z.of_nat (length (filter is_stalled rs)).

Definition is_stalled_for (c : StallCause) (r : Report) : bool :=
  match r with
  | Stalled c' => Nat.eqb (cause_index c') (cause_index c)
  | Advanced => false
  end.

(** Number of cycles reported as stalled for cause [c]. *)
Definition stalled_for (c : StallCause) (rs : list Report) : Z :=
  Z.of_nat (length (filter (is_stalled_for c) rs)).

(** Sum of the entries of a counter array. *)
Definition total_of (a : list Z) : Z := foldr Z.add 0 a.

(** What holds of a breakdown that has been told [n] stalled cycles
    since [reset()]. *)
Definition counted (n : Z) (s : StallBreakdown) : Prop :=
  length (by_cause s) = STALL_CAUSE_COUNT /\
  Forall (fun x => 0 <= x) (by_cause s) /\
  total_of (by_cause s) = n /\
  total_stall_cycles s = n /\
  0 <= current_stall_streak s /\
  current_stall_streak s <= max_consecutive_stalls s /\
  max_consecutive_stalls s <= n /\
  0 <= stall_events s /\
  stall_events s + current_stall_streak s <= n.

End StallRun.

(** ** temp_hw_statistics_enhanced.{hh,cc} and temp_hw_statistics.cc:
       [struct AreaStats], [calculateAreaFromConfig], [collectAreaStats],
       [unitCorrections] *)

Module Area.
Import Enums.

Record AreaStats : Type := mkAreaStats {
  fu_area_um2 : float;
  reg_area_um2 : float;
  spm_area_um2 : float;
  cache_area_um2 : float;
  total_area_um2 : float;
  acc_spm_area_um2 : float;
  acc_cache_area_um2 : float;
  fu_area_by_type : list float      (* double [FU_TYPE_COUNT] *)
}.

(** [reset()] *)
Definition reset : AreaStats :=
  {| fu_area_um2 := 0; reg_area_um2 := 0; spm_area_um2 := 0;
     cache_area_um2 := 0; total_area_um2 := 0;
     acc_spm_area_um2 := 0; acc_cache_area_um2 := 0;
     fu_area_by_type := replicate FU_TYPE_COUNT 0%float |}%float.

(** [count * cfg.fu_coeffs[i].area_um2] *)
Definition fu_area (h : Enhanced.HWStatistics) (i : nat) : float :=
  let count := default 0 (Enhanced.static_count (Enhanced.summary h) !! i) in
  let cf := default Coeffs.zeroFUCoeffs
              (Coeffs.fu_coeffs (Enhanced.power_area_config h) !! i) in
  (double_of_Z count * Coeffs.area_um2 cf)%float.

(** One iteration of the loop over the FU types: the pair is
    [(ar.fu_area_by_type, ar.fu_area_um2)]. *)
Definition fu_area_step (h : Enhanced.HWStatistics) (acc : list float * float)
    (i : nat) : list float * float :=
  (<[i := fu_area h i]> (fst acc), (snd acc + fu_area h i)%float).

(** [HWStatistics::calculateAreaFromConfig] of the enhanced engine, on
    [summary.area]. *)
Definition calculateAreaFromConfig (h : Enhanced.HWStatistics) (ar : AreaStats)
  : AreaStats :=
  let s := Enhanced.summary h in
  let cfg := Enhanced.power_area_config h in
  let '(by_type, fu) :=
    fold_left (fu_area_step h) (seq 0 FU_TYPE_COUNT)
      (fu_area_by_type ar, 0%float) in
  let reg :=
    (double_of_Z (i32 (Enhanced.total (Enhanced.registers s) * 32))
     * Coeffs.reg_area_per_bit_um2 cfg)%float in
  let spm :=
    (double_of_Z (Enhanced.spm_size_kb (Enhanced.memory s))
     * Coeffs.spm_area_per_kb_um2 cfg)%float in
  let cache :=
    (double_of_Z (Enhanced.cache_size_kb (Enhanced.memory s))
     * Coeffs.cache_area_per_kb_um2 cfg)%float in
  {| fu_area_um2 := fu; reg_area_um2 := reg; spm_area_um2 := spm;
     cache_area_um2 := cache;
     total_area_um2 := (fu + reg + spm + cache)%float;
     acc_spm_area_um2 := acc_spm_area_um2 ar;
     acc_cache_area_um2 := acc_cache_area_um2 ar;
     fu_area_by_type := by_type |}.

(** [HWStatistics::collectAreaStats] of the enhanced engine. *)
Definition collectAreaStats (fu_area reg_area spm_area cache_area : float)
    (ar : AreaStats) : AreaStats :=
  {| fu_area_um2 := fu_area; reg_area_um2 := reg_area;
     spm_area_um2 := spm_area; cache_area_um2 := cache_area;
     total_area_um2 := (fu_area + reg_area + spm_area + cache_area)%float;
     acc_spm_area_um2 := acc_spm_area_um2 ar;
     acc_cache_area_um2 := acc_cache_area_um2 ar;
     fu_area_by_type := fu_area_by_type ar |}.




End Area.

(** ** temp_hw_statistics_enhanced.{hh,cc}: [struct FunctionalUnitStats]
       and [HWStatistics::collectFUStats] *)

Module FUCollect.
Import Enums.

Record FURuntimeStats : Set := mkFURuntimeStats {
  max_concurrent : Z;           (* int *)
  avg_occupancy : float
}.

Record FunctionalUnitStats : Type := mkFunctionalUnitStats {
  runtime : list FURuntimeStats;     (* [FU_TYPE_COUNT] *)
  static_count : list Z              (* int [FU_TYPE_COUNT] *)
}.

(** [reset()] *)
Definition reset : FunctionalUnitStats :=
  {| runtime := replicate FU_TYPE_COUNT
                  {| max_concurrent := 0; avg_occupancy := 0%float |};
     static_count := replicate FU_TYPE_COUNT 0 |}.









End FUCollect.

(** ** temp_hw_statistics_enhanced.cc: [HWStatistics::clearStats] on the
       ring of windows *)

Module RingCycle.
Import RingWindows.

(** [clearStats]: with tracking on, every element is reset and the
    cursors go back to the first window, whose [begin()] needs that
    window to exist. *)
Definition clearStats (h : HWStatistics) : outcome HWStatistics :=
  if cycle_tracking h then
    match hw_buffer_list h with
    | [] => UndefinedBehaviour
    | _ :: _ =>
        Returns
          {| hw_buffer_list := map (map (fun _ => blank)) (hw_buffer_list h);
             hw_buffer := 0; cycle_buffer := 0; current_buffer_index := 0;
             cycle_tracking := cycle_tracking h;
             stat_buffer_size := stat_buffer_size h |}
    end
  else Returns h.

(** A ring whose two windows hold only snapshots with a non-zero cycle
    number. *)
Definition ring_full (K : nat) (h : HWStatistics) : Prop :=
  (exists c, ring_inv K h c) /\
  Forall (Forall (fun st => cycle st <> 0)) (hw_buffer_list h).

End RingCycle.

(** ** temp_hw_statistics.cc: the cycle protocol of the growing engine *)

Module GrowingCycle.
Import GrowingWindows.

Definition set_current_cycle_stats (st : HW_Cycle_Stats) (h : HWStatistics)
  : HWStatistics :=
  {| current_cycle_stats := st;
     hw_buffer_list := hw_buffer_list h; hw_buffer := hw_buffer h;
     cycle_buffer := cycle_buffer h;
     current_buffer_index := current_buffer_index h;
     cycle_tracking := cycle_tracking h;
     stat_buffer_size := stat_buffer_size h |}.

(** [clearStats]: [current_cycle_stats.reset()] *)
Definition clearStats (h : HWStatistics) : HWStatistics :=
  set_current_cycle_stats blank h.

(** [updateHWStatsCycleStart]: the snapshot of the cycle that ended is
    stored, then cleared. *)
Definition updateHWStatsCycleStart (h : HWStatistics) : outcome HWStatistics :=
  if cycle_tracking h then
    match recordCycleStats (current_cycle_stats h) h with
    | Returns (h', _) => Returns (clearStats h')
    | UndefinedBehaviour => UndefinedBehaviour
    end
  else Returns (clearStats h).

(** [updateHWStatsCycleEnd]: [current_cycle_stats.cycle = curr_cycle] *)
Definition updateHWStatsCycleEnd (curr_cycle : Z) (h : HWStatistics)
  : HWStatistics :=
  let st := current_cycle_stats h in
  let st' :=
    {| cycle := curr_cycle;
       resInFlight := resInFlight st; loadInFlight := loadInFlight st;
       loadInternal := loadInternal st; loadAcitve := loadAcitve st;
       loadRawStall := loadRawStall st; storeInFlight := storeInFlight st;
       storeActive := storeActive st; compInFlight := compInFlight st;
       compLaunched := compLaunched st; compActive := compActive st;
       compFUStall := compFUStall st; compCommited := compCommited st |} in
  set_current_cycle_stats st' h.

(** The cycles of a run: [updateHWStatsCycleStart()] at the start and
    [updateHWStatsCycleEnd(n)] at the end of each. *)
Fixpoint run_cycles (cycles : list Z) (h : HWStatistics) : outcome HWStatistics :=
  match cycles with
  | [] => Returns h
  | n :: rest =>
      match updateHWStatsCycleStart h with
      | Returns h' => run_cycles rest (updateHWStatsCycleEnd n h')
      | UndefinedBehaviour => UndefinedBehaviour
      end
  end.

(** All stored snapshots, oldest first. *)
Definition snapshots (h : HWStatistics) : list HW_Cycle_Stats :=
  concat (hw_buffer_list h).

End GrowingCycle.

(** ** temp_hw_statistics_enhanced.cc: [PowerAreaCoefficients::saveToFile] *)

Module SaveFile.
Import Coeffs.

(** The second line [saveToFile] writes: two blanks, the quoted key, a
    colon and a blank, the quoted [technology_node], a comma. *)
Definition technology_node_line (c : PowerAreaCoefficients) : string :=
  ("  " ++ quoted "technology_node" ++ ": " ++ quoted (technology_node c)
   ++ ",")%string.

(** [ch] does not occur in [s]. *)
Fixpoint free_of (ch : ascii) (s : string) : bool :=
  match s with
  | EmptyString => true
  | String c rest => negb (Ascii.eqb c ch) && free_of ch rest
  end.

(** The line-feed character (code 10), where [std::getline] cuts. *)
Definition newline : ascii := Eval compute in ascii_of_nat 10.

(** Every member but [technology_node], [voltage] and [temperature_c]. *)
Definition coefficients (c : PowerAreaCoefficients) :=
  (fu_coeffs c,
   (reg_area_per_bit_um2 c, reg_leakage_per_bit_mw c,
    reg_dynamic_read_mw c, reg_dynamic_write_mw c),
   (spm_leakage_per_kb_mw c, spm_read_dynamic_per_access_mw c,
    spm_write_dynamic_per_access_mw c, spm_area_per_kb_um2 c),
   (cache_leakage_per_kb_mw c, cache_read_dynamic_per_access_mw c,
    cache_write_dynamic_per_access_mw c, cache_area_per_kb_um2 c)).

End SaveFile.

(** * Properties *)

(** ** Machine integers *)

Lemma u64_small z : is_u64 z -> u64 z = z.
Proof. unfold is_u64, UINT64_MAX, u64. intros H. apply Z.mod_small. lia. Qed.

Lemma u64_range z : is_u64 (u64 z).
Proof.
  unfold is_u64, UINT64_MAX, u64.
  pose proof (Z.mod_pos_bound z (2 ^ 64) ltac:(lia)). lia.
Qed.

Lemma i32_small z : - 2 ^ 31 <= z <= INT_MAX -> i32 z = z.
Proof. unfold i32, INT_MAX. intros H. rewrite Z.mod_small; lia. Qed.

(** ** SimpleMemory *)

Module MemoryProps.
Import Memory.

Lemma slice_all (l : list Byte.byte) : slice l 0 (Z.of_nat (length l)) = l.
Proof. unfold slice. rewrite Nat2Z.id. simpl. rewrite drop_0. by apply take_ge. Qed.

Lemma length_overwrite dst at_ src :
  (Z.to_nat at_ + length src <= length dst)%nat ->
  length (overwrite dst at_ src) = length dst.
Proof.
  intros H. unfold overwrite.
  rewrite !length_app, length_take, length_drop. lia.
Qed.

Lemma slice_overwrite dst at_ src :
  (Z.to_nat at_ <= length dst)%nat ->
  slice (overwrite dst at_ src) at_ (Z.of_nat (length src)) = src.
Proof.
  intros H. unfold slice, overwrite.
  rewrite drop_app_length' by (rewrite length_take; lia).
  rewrite Nat2Z.id. apply take_app_length.
Qed.

(** Without wrap-around the guard is exactly the range test. *)
Lemma guard_rejects_spec m req :
  is_u64 (base m) -> is_u64 (addr req) -> 0 <= size req ->
  addr req + size req <= UINT64_MAX ->
  base m + storage_size m <= UINT64_MAX ->
  guard_rejects m req = true <-> ~ within_range m (addr req) (size req).
Proof.
  intros Hb Ha Hs Hn Hm. unfold guard_rejects, within_range.
  assert (0 <= storage_size m) by (unfold storage_size; lia).
  rewrite !u64_small by (unfold is_u64 in *; lia).
  rewrite orb_true_iff, Z.ltb_lt, Z.gtb_lt. lia.
Qed.

(** [recvFunctional] does refuse an out-of-range request, touching neither
    the storage nor the payload, as long as no sum wraps around. *)
Lemma recvFunctional_out_of_range m req :
  is_u64 (base m) -> is_u64 (addr req) -> 0 <= size req ->
  addr req + size req <= UINT64_MAX ->
  base m + storage_size m <= UINT64_MAX ->
  ~ within_range m (addr req) (size req) ->
  recvFunctional m req = Returns (m, set_success false req).
Proof.
  intros Hb Ha Hs Hn Hm Hout. unfold recvFunctional.
  apply guard_rejects_spec in Hout; try assumption.
  by rewrite Hout.
Qed.

(** Whatever [recvFunctional] decided, [recvTimingRequest] hands the
    request back completed and successful. *)
Lemma recvTimingRequest_always_succeeds m req m' req' b :
  recvTimingRequest m req = Returns (m', req', b) ->
  success req' = true /\ completed req' = true /\ b = true.
Proof.
  unfold recvTimingRequest. destruct (recvFunctional m req) as [[m1 r1]|];
    [|discriminate].
  intros [= <- <- <-]. repeat split.
Qed.

(** claim C1 -- at an out-of-range request [recvTimingRequest] leaves the
    storage and the payload alone but reports [success = true]: for the
    4-byte memory at base 0 and a 1-byte read at address 10 the request
    comes back completed and successful. *)
Theorem recvTimingRequest_out_of_range_reports_success :
  let m := newSimpleMemory 0 4 in
  let req := newMemoryRequest 1 Read 10 1 in
  ~ within_range m (addr req) (size req) /\
  recvFunctional m req = Returns (m, set_success false req) /\
  recvTimingRequest m req
    = Returns (m, set_success true (set_completed true req), true) /\
  success (set_success true (set_completed true req)) = true.
Proof.
  cbv zeta. split; [|split; [|split]].
  - unfold within_range, storage_size. cbn. lia.
  - reflexivity.
  - reflexivity.
  - reflexivity.
Qed.

(** Round trip for a memory whose end address [base + S] is itself a
    64-bit value. *)
Lemma write_read_roundtrip m a (bytes : list Byte.byte) w r :
  is_u64 (base m) -> base m + storage_size m <= UINT64_MAX ->
  within_range m a (Z.of_nat (length bytes)) ->
  isWrite w = true -> addr w = a ->
  size w = Z.of_nat (length bytes) -> data w = bytes ->
  isRead r = true -> addr r = a -> size r = Z.of_nat (length bytes) ->
  exists m' w' r',
    recvFunctional m w = Returns (m', w') /\ success w' = true /\
    recvFunctional m' r = Returns (m', r') /\ success r' = true /\
    data r' = bytes.
Proof.
  intros Hb Hm [Hlo Hhi] Hw Haw Hsw Hdw Hr Har Hsr.
  assert (HS : 0 <= storage_size m) by (unfold storage_size; lia).
  assert (Hoff : u64 (a - base m) = a - base m)
    by (apply u64_small; unfold is_u64 in *; lia).
  assert (Hg : forall q, addr q = a -> size q = Z.of_nat (length bytes) ->
                         forall m0, base m0 = base m -> storage_size m0 = storage_size m ->
                         guard_rejects m0 q = false).
  { intros q Hqa Hqs m0 Hb0 Hs0. unfold guard_rejects.
    rewrite Hqa, Hqs, Hb0, Hs0.
    rewrite !u64_small by (unfold is_u64 in *; lia).
    apply orb_false_iff.
    split; [apply Z.ltb_ge | rewrite Z.gtb_ltb; apply Z.ltb_ge]; lia. }
  assert (Hnr : isRead w = false).
  { unfold isRead, isWrite in *. destruct (type w); congruence. }
  set (st' := overwrite (storage m) (a - base m) bytes).
  assert (Hlen : length st' = length (storage m)).
  { apply length_overwrite. unfold storage_size in *. lia. }
  exists {| base := base m; storage := st' |}, (set_success true w),
         (set_success true (set_data bytes r)).
  split; [|split; [reflexivity|split; [|split; reflexivity]]].
  - unfold recvFunctional. rewrite (Hg w Haw Hsw m eq_refl eq_refl), Hnr, Hw.
    rewrite Haw, Hsw, Hdw, Hoff.
    replace (Z.of_nat (length bytes) <=? Z.of_nat (length bytes)) with true
      by (symmetry; apply Z.leb_le; lia).
    replace (a - base m + Z.of_nat (length bytes) <=? storage_size m) with true
      by (symmetry; apply Z.leb_le; lia).
    cbn [andb]. by rewrite slice_all.
  - unfold recvFunctional.
    rewrite (Hg r Har Hsr) by (done || (unfold storage_size; cbn; lia)).
    rewrite Hr, Har, Hsr. cbn [base storage]. rewrite Hoff.
    replace (storage_size {| base := base m; storage := st' |})
      with (storage_size m) by (unfold storage_size; cbn; lia).
    replace (a - base m + Z.of_nat (length bytes) <=? storage_size m) with true
      by (symmetry; apply Z.leb_le; lia).
    unfold st'. rewrite slice_overwrite; [done|]. unfold storage_size in *. lia.
Qed.

(** claim C6 -- the round trip is lost for a memory that ends at the top
    of the address space: [base + storage.size()] wraps to 0 in the guard,
    so for the 16-byte memory at base [2^64 - 16] the in-range one-byte
    write at [base] and the read that follows are both refused and the
    read buffer never receives the byte. *)
Theorem roundtrip_refused_at_top_of_address_space :
  let m := newSimpleMemory (2 ^ 64 - 16) 16 in
  let bytes := [Byte.x2a] in
  let w := set_data bytes (newMemoryRequest 1 Write (2 ^ 64 - 16) 1) in
  let r := newMemoryRequest 2 Read (2 ^ 64 - 16) 1 in
  is_u64 (base m) /\
  within_range m (addr w) (Z.of_nat (length bytes)) /\
  recvFunctional m w = Returns (m, set_success false w) /\
  recvFunctional m r = Returns (m, set_success false r) /\
  data (set_success false r) = [] /\
  data (set_success false r) <> bytes.
Proof.
  cbv zeta. repeat split; try reflexivity; try discriminate;
    vm_compute; discriminate.
Qed.

(** claim C10 -- the guard of [recvFunctional] adds in wrapping 64-bit
    arithmetic: the 2-byte read at address [2^64 - 1] of the 4-byte
    memory at base 0 has [addr >= base], its end wraps to 1, the guard
    lets it through, and the copy then starts at offset [2^64 - 1], far
    beyond the four stored bytes. *)
Theorem recvFunctional_guard_wraps :
  exists m req,
    m = newSimpleMemory 0 4 /\
    req = newMemoryRequest 7 Read (2 ^ 64 - 1) 2 /\
    base m <= addr req /\
    2 ^ 64 <= addr req + size req /\
    u64 (addr req + size req) = 1 /\
    ~ within_range m (addr req) (size req) /\
    guard_rejects m req = false /\
    storage_size m < u64 (addr req - base m) + size req /\
    recvFunctional m req = UndefinedBehaviour.
Proof.
  eexists _, _. split; [reflexivity|]. split; [reflexivity|].
  repeat split; try reflexivity; try (vm_compute; discriminate).
  intros [_ H]. vm_compute in H. by apply H.
Qed.

End MemoryProps.

(** ** Gem5MemoryPort: the retry queue *)

Module PortProps.
Import Port.

Section AnyDownstream.
Variable D : Type.
Variable port_sendTimingReq : D -> Packet -> bool * D.
Variable curTick : Z.

(** An accepted request leaves the queue as it was. *)
Lemma sendTimingRequest_accepted_queue p d req p' d' :
  sendTimingRequest D port_sendTimingReq curTick p d req = (p', d', true) ->
  retryQueue p' = retryQueue p.
Proof.
  unfold sendTimingRequest. destruct (stalled p); [congruence|].
  cbn. destruct (port_sendTimingReq d _) as [[] d1]; cbn; [|congruence].
  intros [= <- _]. reflexivity.
Qed.

Lemma retry_loop_cons fuel p d req rest :
  retryQueue p = req :: rest ->
  retry_loop D port_sendTimingReq curTick (S fuel) p d =
    let '(p2, d2, ok) :=
      sendTimingRequest D port_sendTimingReq curTick (set_retryQueue rest p) d req in
    if negb ok then (p2, d2)
    else retry_loop D port_sendTimingReq curTick fuel p2 d2.
Proof. intros H. cbn [retry_loop]. rewrite H. reflexivity. Qed.

(** The loop of [handleRetry] leaves by itself: more fuel than the queue
    is long changes nothing. *)
Lemma retry_loop_fuel fuel p d :
  (length (retryQueue p) <= fuel)%nat ->
  retry_loop D port_sendTimingReq curTick fuel p d
  = retry_loop D port_sendTimingReq curTick (length (retryQueue p)) p d.
Proof.
  revert p d. induction fuel as [|fuel IH]; intros p d Hlen.
  - replace (length (retryQueue p)) with 0%nat by lia. reflexivity.
  - destruct (retryQueue p) as [|req rest] eqn:Hq; cbn; rewrite Hq; [done|].
    destruct (sendTimingRequest D port_sendTimingReq curTick
                (set_retryQueue rest p) d req) as [[p2 d2] ok] eqn:Hs.
    destruct ok; cbn; [|done].
    apply sendTimingRequest_accepted_queue in Hs. cbn in Hs.
    cbn in Hlen. rewrite IH by (rewrite Hs; lia).
    rewrite <- Hs. reflexivity.
Qed.

End AnyDownstream.

Lemma send_scripted_accept p d req rest :
  stalled p = false -> answers d = true :: rest ->
  exists p' d',
    send_s p d req = (p', d', true) /\
    stalled p' = false /\ retryQueue p' = retryQueue p /\
    answers d' = rest /\ offered_requests d' = offered_requests d ++ [req].
Proof.
  intros Hs Ha. unfold sendTimingRequest, scripted_sendTimingReq, offered_requests.
  rewrite Hs. cbn. rewrite Ha. cbn.
  eexists _, _. split; [reflexivity|]. cbn.
  rewrite map_app. done.
Qed.

Lemma send_scripted_refuse p d req rest :
  stalled p = false -> answers d = false :: rest ->
  exists p' d',
    send_s p d req = (p', d', false) /\
    stalled p' = true /\ retryQueue p' = retryQueue p ++ [req] /\
    answers d' = rest /\ offered_requests d' = offered_requests d ++ [req].
Proof.
  intros Hs Ha. unfold sendTimingRequest, scripted_sendTimingReq, offered_requests.
  rewrite Hs. cbn. rewrite Ha. cbn.
  eexists _, _. split; [reflexivity|]. cbn.
  rewrite map_app. done.
Qed.

(** Requests are offered in queue order up to and including the first one
    that is refused; that one is pushed behind the requests that were
    never offered. *)
Lemma retry_loop_first_refusal acc r rest more p d :
  stalled p = false -> retryQueue p = acc ++ r :: rest ->
  answers d = replicate (length acc) true ++ false :: more ->
  exists p' d',
    loop_s (length (acc ++ r :: rest)) p d = (p', d') /\
    stalled p' = true /\
    retryQueue p' = rest ++ [r] /\
    answers d' = more /\
    offered_requests d' = offered_requests d ++ acc ++ [r].
Proof.
  revert p d. induction acc as [|a acc IH]; intros p d Hs Hq Ha.
  - cbn in Hq, Ha. cbn [length app].
    rewrite (retry_loop_cons _ _ _ _ _ _ _ _ Hq).
    destruct (send_scripted_refuse (set_retryQueue rest p) d r more Hs Ha)
      as (p' & d' & -> & ? & ? & ? & ?).
    cbn. eauto 10.
  - cbn in Hq, Ha. cbn [length app].
    rewrite (retry_loop_cons _ _ _ _ _ _ _ _ Hq).
    destruct (send_scripted_accept (set_retryQueue (acc ++ r :: rest) p) d a _ Hs Ha)
      as (p1 & d1 & -> & Hs1 & Hq1 & Ha1 & Ho1).
    cbn in Hq1. cbn [negb].
    destruct (IH p1 d1 Hs1 Hq1 Ha1) as (p' & d' & Hl & ? & ? & ? & Ho).
    rewrite Hl.
    exists p', d'. repeat split; try assumption.
    rewrite Ho, Ho1, <- app_assoc. reflexivity.
Qed.

(** When every queued request is accepted the queue drains and the port
    is ready again. *)
Lemma retry_loop_all_accepted q more p d :
  stalled p = false -> retryQueue p = q ->
  answers d = replicate (length q) true ++ more ->
  exists p' d',
    loop_s (length q) p d = (p', d') /\
    stalled p' = false /\ retryQueue p' = [] /\
    answers d' = more /\
    offered_requests d' = offered_requests d ++ q.
Proof.
  revert p d. induction q as [|a q IH]; intros p d Hs Hq Ha.
  - cbn in *. exists p, d. rewrite app_nil_r. done.
  - cbn in Ha. cbn [length].
    rewrite (retry_loop_cons _ _ _ _ _ _ _ _ Hq).
    destruct (send_scripted_accept (set_retryQueue q p) d a _ Hs Ha)
      as (p1 & d1 & -> & Hs1 & Hq1 & Ha1 & Ho1).
    cbn in Hq1. cbn [negb].
    destruct (IH p1 d1 Hs1 Hq1 Ha1) as (p' & d' & Hl & ? & ? & ? & Ho).
    rewrite Hl.
    exists p', d'. repeat split; try assumption.
    rewrite Ho, Ho1, <- app_assoc. reflexivity.
Qed.

(** [handleRetry] on a port whose first refusal comes after the requests
    [acc]: nothing is lost, but the refused request ends up last. *)
Lemma handleRetry_first_refusal acc r rest more p d :
  retryQueue p = acc ++ r :: rest ->
  answers d = replicate (length acc) true ++ false :: more ->
  exists p' d',
    handleRetry_s p d = (p', d') /\
    stalled p' = true /\
    retryQueue p' = rest ++ [r] /\
    offered_requests d' = offered_requests d ++ acc ++ [r] /\
    Permutation (acc ++ retryQueue p') (retryQueue p).
Proof.
  intros Hq Ha. unfold handleRetry. rewrite Hq.
  destruct (retry_loop_first_refusal acc r rest more (set_stalled false p) d
              eq_refl Hq Ha) as (p' & d' & Hl & Hs & Hq' & _ & Ho).
  exists p', d'. repeat split; try assumption.
  rewrite Hq'. apply Permutation_app_head.
  symmetry. apply Permutation_cons_append.
Qed.

(** A submission to a stalled port is refused on the spot and nothing is
    queued. *)
Lemma sendTimingRequest_stalled D peer tick p d req :
  stalled p = true -> sendTimingRequest D peer tick p d req = (p, d, false).
Proof. intros H. unfold sendTimingRequest. by rewrite H. Qed.

Lemma one_request_queued_send D peer tick p d req :
  one_request_queued p ->
  one_request_queued (fst (fst (sendTimingRequest D peer tick p d req))).
Proof.
  intros [[Hs Hq] | [Hs Hq]].
  - unfold sendTimingRequest. rewrite Hs. cbn.
    destruct (peer d _) as [[] d1]; cbn.
    + left. by rewrite Hs, Hq.
    + right. split; [done|]. rewrite Hq. by eexists.
  - rewrite sendTimingRequest_stalled by done. cbn. by right.
Qed.

Lemma one_request_queued_retry D peer tick p d :
  one_request_queued p ->
  one_request_queued (fst (handleRetry D peer tick p d)).
Proof.
  intros [[Hs Hq] | [Hs [r Hq]]]; unfold handleRetry; rewrite Hq.
  - cbn. left. done.
  - cbn [length].
    rewrite (retry_loop_cons D peer tick 0 (set_stalled false p) d r []) by done.
    pose proof (one_request_queued_send D peer tick
                  (set_retryQueue [] (set_stalled false p)) d r) as Hw.
    destruct (sendTimingRequest D peer tick _ d r) as [[p2 d2] ok].
    cbn in Hw. destruct ok; cbn; apply Hw; by left.
Qed.

(** claim C2 (as stated, refuted) -- with A, B, C (0, 1, 2) queued on a
    stalled port and a peer that accepts A and refuses B, one retry
    notification offers A then B and stops; the queue then holds C before
    B, so the two have changed places.  And such a queue does not come
    about: after R (9) was refused, A, B and C submitted to the stalled
    port are turned away without being queued, and the retry notification
    offers R alone. *)
Lemma handleRetry_requeues_refused_request_last :
  let A := 0%nat in let B := 1%nat in let C := 2%nat in let R := 9%nat in
  (let p := set_retryQueue [A; B; C] (set_stalled true newPort) in
   let d := {| answers := [true; false]; offered := [] |} in
   let '(p', d') := handleRetry_s p d in
   offered_requests d' = [A; B] /\
   stalled p' = true /\
   retryQueue p' = [C; B] /\
   retryQueue p' <> [B; C]) /\
  (let d0 := {| answers := [false]; offered := [] |} in
   let '(p1, d1, okR) := send_s newPort d0 R in
   let '(p2, d2, okA) := send_s p1 d1 A in
   let '(p3, d3, okB) := send_s p2 d2 B in
   let '(p4, d4, okC) := send_s p3 d3 C in
   let '(p5, d5) := handleRetry_s p4 d4 in
   [okR; okA; okB; okC] = [false; false; false; false] /\
   stalled p4 = true /\ retryQueue p4 = [R] /\
   offered_requests d5 = [R; R] /\ retryQueue p5 = []).
Proof. vm_compute. repeat split; discriminate. Qed.

(** claim C2 (amended) -- a request submitted to a stalled port is
    refused and not queued, so a port driven by [sendTimingRequest] and
    retry notifications is either ready with an empty queue or stalled
    with exactly one request queued.  A retry notification resubmits the
    queued requests from the front of the queue, in order, and stops at
    the first one that is refused again; none is dropped: the requests
    accepted together with the requests still queued are the requests
    that were queued. *)
Theorem retry_keeps_order_and_drops_nothing :
  (forall D peer tick,
     one_request_queued newPort /\
     (forall p d req, stalled p = true ->
        sendTimingRequest D peer tick p d req = (p, d, false)) /\
     (forall p d req, one_request_queued p ->
        one_request_queued (fst (fst (sendTimingRequest D peer tick p d req)))) /\
     (forall p d, one_request_queued p ->
        one_request_queued (fst (handleRetry D peer tick p d)))) /\
  (forall acc r rest more p d,
     retryQueue p = acc ++ r :: rest ->
     answers d = replicate (length acc) true ++ false :: more ->
     exists p' d',
       handleRetry_s p d = (p', d') /\
       stalled p' = true /\
       offered_requests d' = offered_requests d ++ acc ++ [r] /\
       Permutation (acc ++ retryQueue p') (retryQueue p)) /\
  (forall q more p d,
     retryQueue p = q ->
     answers d = replicate (length q) true ++ more ->
     exists p' d',
       handleRetry_s p d = (p', d') /\
       stalled p' = false /\ retryQueue p' = [] /\
       offered_requests d' = offered_requests d ++ q).
Proof.
  split; [|split].
  - intros D peer tick. split; [by left|]. split; [|split].
    + intros. by apply sendTimingRequest_stalled.
    + intros. by apply one_request_queued_send.
    + intros. by apply one_request_queued_retry.
  - intros acc r rest more p d Hq Ha.
    destruct (handleRetry_first_refusal acc r rest more p d Hq Ha)
      as (p' & d' & H1 & H2 & _ & H3 & H4).
    exists p', d'. done.
  - intros q more p d Hq Ha. unfold handleRetry. rewrite Hq.
    destruct (retry_loop_all_accepted q more (set_stalled false p) d eq_refl Hq Ha)
      as (p' & d' & H1 & H2 & H3 & _ & H4).
    exists p', d'. done.
Qed.

(** The theorem used on the queue A, B, C with B refused, and on a port
    that has one request queued. *)
Lemma retry_keeps_order_and_drops_nothing_witness :
  let p := set_retryQueue [0; 1; 2]%nat (set_stalled true newPort) in
  let d := {| answers := [true; false]; offered := [] |} in
  let q1 := set_retryQueue [9%nat] (set_stalled true newPort) in
  (retryQueue p = [0%nat] ++ 1%nat :: [2%nat] /\
   answers d = replicate (length [0%nat]) true ++ false :: [] /\
   exists p' d',
     handleRetry_s p d = (p', d') /\
     stalled p' = true /\
     offered_requests d' = offered_requests d ++ [0%nat] ++ [1%nat] /\
     Permutation ([0%nat] ++ retryQueue p') (retryQueue p)) /\
  (one_request_queued q1 /\
   one_request_queued (fst (handleRetry_s q1 d))).
Proof.
  cbv zeta.
  destruct retry_keeps_order_and_drops_nothing as (Hany & Hrefuse & _).
  split.
  - split; [reflexivity|]. split; [reflexivity|].
    apply (Hrefuse [0%nat] 1%nat [2%nat] []); reflexivity.
  - assert (Hq : one_request_queued (set_retryQueue [9%nat] (set_stalled true newPort)))
      by (right; split; [reflexivity | by eexists]).
    split; [exact Hq|].
    destruct (Hany Scripted scripted_sendTimingReq 0) as (_ & _ & _ & Hretry).
    apply Hretry. exact Hq.
Defined.

End PortProps.

(** ** StallBreakdown: streaks and the dominant cause *)

Module StallProps.
Import Enums Stall.

Lemma cause_of_index_index c : cause_of_index (cause_index c) = c.
Proof. by destruct c. Qed.

Lemma cause_index_bound c : (cause_index c < STALL_CAUSE_COUNT)%nat.
Proof. unfold STALL_CAUSE_COUNT. destruct c; cbn; lia. Qed.

Lemma cause_index_of_index i :
  (i < STALL_CAUSE_COUNT)%nat -> cause_index (cause_of_index i) = i.
Proof.
  unfold STALL_CAUSE_COUNT. intros H.
  do 10 (destruct i as [|i]; [reflexivity|]). lia.
Qed.

Lemma cause_index_NONE c : c <> NONE <-> (1 <= cause_index c)%nat.
Proof. destruct c; cbn; split; intros; try congruence; try lia. Qed.

Lemma dominant_step_inv a k acc :
  (1 <= k)%nat ->
  dominant_inv a k acc -> dominant_inv a (S k) (dominant_step a acc k).
Proof.
  destruct acc as [d m]. unfold dominant_inv, dominant_step.
  intros Hk [Hle Hcase].
  assert (Hm : 0 <= m) by (destruct Hcase as [[-> _]|[? _]]; lia).
  destruct (Z.gtb_spec (at_index a k) m) as [Hgt|Hngt].
  - split.
    + intros i Hi. destruct (decide (i = k)) as [->|]; [lia|].
      specialize (Hle i ltac:(lia)). lia.
    + right. split; [lia|].
      exists k. split; [lia|]. split; [reflexivity|]. split; [reflexivity|].
      intros i Hi. specialize (Hle i ltac:(lia)). lia.
  - split.
    + intros i Hi. destruct (decide (i = k)) as [->|]; [lia|].
      apply Hle. lia.
    + destruct Hcase as [?|(Hpos & j & Hj & -> & Hj' & Hlt)]; [by left|].
      right. split; [done|].
      exists j. split; [lia|]. split; [reflexivity|]. split; assumption.
Qed.

Lemma dominant_fold_inv a n lo acc :
  (1 <= lo)%nat ->
  dominant_inv a lo acc ->
  dominant_inv a (lo + n) (fold_left (dominant_step a) (seq lo n) acc).
Proof.
  revert lo acc. induction n as [|n IH]; intros lo acc Hlo H.
  - by rewrite Nat.add_0_r.
  - cbn [seq fold_left]. replace (lo + S n)%nat with (S lo + n)%nat by lia.
    apply IH; [lia|]. by apply dominant_step_inv.
Qed.

Lemma getDominantCause_inv s :
  exists m, dominant_inv (by_cause s) STALL_CAUSE_COUNT (getDominantCause s, m).
Proof.
  unfold getDominantCause.
  pose proof (dominant_fold_inv (by_cause s) (STALL_CAUSE_COUNT - 1) 1 (NONE, 0)) as H.
  destruct (fold_left _ _ _) as [d m]. exists m. cbn [fst].
  apply H; [lia|]. cbn. split; [intros; lia | by left].
Qed.

(** A run of [recordStallCause] calls extends the streak by its length,
    raises the maximum to at least the new streak and leaves the event
    counter alone, as long as the streak counter does not wrap. *)
Lemma recordStallCauses_streak causes h :
  0 <= current_stall_streak (Enhanced.sb h) ->
  current_stall_streak (Enhanced.sb h) + Z.of_nat (length causes) <= UINT64_MAX ->
  let h' := Enhanced.recordStallCauses causes h in
  current_stall_streak (Enhanced.sb h')
    = current_stall_streak (Enhanced.sb h) + Z.of_nat (length causes) /\
  stall_events (Enhanced.sb h') = stall_events (Enhanced.sb h) /\
  max_consecutive_stalls (Enhanced.sb h) <= max_consecutive_stalls (Enhanced.sb h') /\
  (causes <> [] ->
   current_stall_streak (Enhanced.sb h') <= max_consecutive_stalls (Enhanced.sb h')).
Proof.
  revert h. induction causes as [|c causes IH]; intros h H0 Hmax; cbn zeta.
  - cbn. repeat split; try lia. congruence.
  - cbn [Enhanced.recordStallCauses fold_left].
    fold (Enhanced.recordStallCauses causes (Enhanced.recordStallCause c h)).
    cbn [length] in Hmax.
    assert (Hs : current_stall_streak (Enhanced.sb (Enhanced.recordStallCause c h))
                 = current_stall_streak (Enhanced.sb h) + 1).
    { cbn. apply u64_small. unfold is_u64. lia. }
    assert (Hm : max_consecutive_stalls (Enhanced.sb (Enhanced.recordStallCause c h))
                 = Z.max (max_consecutive_stalls (Enhanced.sb h))
                         (current_stall_streak (Enhanced.sb h) + 1)).
    { cbn. f_equal. apply u64_small. unfold is_u64. lia. }
    destruct (IH (Enhanced.recordStallCause c h)) as (IH1 & IH2 & IH3 & IH4);
      [lia | lia |].
    rewrite IH1, IH2, Hs. cbn [length]. repeat split; try lia.
    + intros _. destruct causes as [|c' causes'].
      * cbn in *. lia.
      * specialize (IH4 ltac:(discriminate)). lia.
Qed.

(** claim C7 -- from a zero streak, [N >= 1] calls of [recordStallCause]
    (with [N] in the range of the 64-bit counters) followed by
    [recordNoStall] leave [max_consecutive_stalls >= N] and increment
    [stall_events] once; [recordNoStall] on a zero streak leaves
    [stall_events] unchanged. *)
Theorem stall_streak_counts_one_event (h : Enhanced.HWStatistics)
    (causes : list StallCause) :
  current_stall_streak (Enhanced.sb h) = 0 ->
  (1 <= length causes)%nat ->
  Z.of_nat (length causes) <= UINT64_MAX ->
  let h' := Enhanced.recordNoStall (Enhanced.recordStallCauses causes h) in
  Z.of_nat (length causes) <= max_consecutive_stalls (Enhanced.sb h') /\
  stall_events (Enhanced.sb h') = u64 (stall_events (Enhanced.sb h) + 1) /\
  (0 <= stall_events (Enhanced.sb h) < UINT64_MAX ->
   stall_events (Enhanced.sb h') = stall_events (Enhanced.sb h) + 1) /\
  current_stall_streak (Enhanced.sb h') = 0 /\
  stall_events (Enhanced.sb (Enhanced.recordNoStall h)) = stall_events (Enhanced.sb h).
Proof.
  intros Hz Hn Hmax. cbn zeta.
  destruct (recordStallCauses_streak causes h) as (H1 & H2 & H3 & H4);
    [lia | lia |].
  cbv zeta in *. rewrite Hz in H1.
  assert (Hne : causes <> []) by (destruct causes; [cbn in Hn; lia | discriminate]).
  specialize (H4 Hne).
  assert (Hev : stall_events (Enhanced.sb (Enhanced.recordNoStall
                                    (Enhanced.recordStallCauses causes h)))
                = u64 (stall_events (Enhanced.sb h) + 1)).
  { cbn. rewrite H1.
    replace (0 + Z.of_nat (length causes) >? 0) with true
      by (symmetry; apply Z.gtb_lt; lia).
    by rewrite H2. }
  split; [cbn; lia|]. split; [exact Hev|]. split; [|split].
  - intros Hr. rewrite Hev. apply u64_small. unfold is_u64. lia.
  - reflexivity.
  - cbn. by rewrite Hz.
Qed.

(** The theorem used on three stalls recorded on a fresh engine. *)
Lemma stall_streak_counts_one_event_witness :
  let h := Enhanced.newHWStatistics in
  let causes := [MEMORY_LATENCY; RAW_HAZARD; RAW_HAZARD] in
  let h' := Enhanced.recordNoStall (Enhanced.recordStallCauses causes h) in
  current_stall_streak (Enhanced.sb h) = 0 /\
  3 <= max_consecutive_stalls (Enhanced.sb h') /\
  stall_events (Enhanced.sb h') = u64 (stall_events (Enhanced.sb h) + 1).
Proof.
  cbv zeta. split; [reflexivity|].
  destruct (stall_streak_counts_one_event Enhanced.newHWStatistics
              [MEMORY_LATENCY; RAW_HAZARD; RAW_HAZARD])
    as (H1 & H2 & _).
  - reflexivity.
  - cbn. lia.
  - cbn. unfold UINT64_MAX. lia.
  - split; [exact H1 | exact H2].
Defined.

(** The scenario of the specification: ten memory-latency stalls and three
    FU-contention stalls recorded on a fresh engine. *)
Lemma ten_memory_three_fu :
  let h := Enhanced.recordStallCauses
             (replicate 10 MEMORY_LATENCY ++ replicate 3 FU_CONTENTION)
             Enhanced.newHWStatistics in
  let s := Enhanced.stall_breakdown (Enhanced.summary h) in
  count_of s MEMORY_LATENCY = 10 /\ count_of s FU_CONTENTION = 3 /\
  getDominantCause s = MEMORY_LATENCY /\
  getDominantBottleneck s = "memory_latency"%string.
Proof. vm_compute. repeat split. Qed.

(** claim C8 (as stated, refuted) -- on a breakdown without any recorded
    stall [getDominantCause] answers [NONE], not a cause other than
    [NONE], and the bottleneck reads "none". *)
Lemma getDominantCause_without_stalls_is_NONE :
  getDominantCause reset = NONE /\
  getDominantBottleneck reset = "none"%string /\
  ~ (getDominantCause reset <> NONE).
Proof. vm_compute. repeat split. intros H. by apply H. Qed.

(** claim C8 (amended) -- if no cause other than [NONE] has a positive
    count the answer is [NONE]; otherwise the answer is a cause other than
    [NONE] whose count is the highest among those causes, and the
    lowest-valued one among the causes that reach it; in the first case
    the bottleneck reads "none".  Ten memory-latency
    and three FU-contention stalls give [MEMORY_LATENCY] and
    "memory_latency". *)
Theorem getDominantCause_spec (s : StallBreakdown) :
  ((forall c, c <> NONE -> count_of s c <= 0) ->
   getDominantCause s = NONE /\ getDominantBottleneck s = "none"%string) /\
  ((exists c, c <> NONE /\ 0 < count_of s c) ->
     getDominantCause s <> NONE /\
     (forall c, c <> NONE -> count_of s c <= count_of s (getDominantCause s)) /\
     (forall c, c <> NONE -> count_of s c = count_of s (getDominantCause s) ->
                (cause_index (getDominantCause s) <= cause_index c)%nat)) /\
  (let h := Enhanced.recordStallCauses
              (replicate 10 MEMORY_LATENCY ++ replicate 3 FU_CONTENTION)
              Enhanced.newHWStatistics in
   let s10 := Enhanced.stall_breakdown (Enhanced.summary h) in
   getDominantCause s10 = MEMORY_LATENCY /\
   getDominantBottleneck s10 = "memory_latency"%string).
Proof.
  destruct (getDominantCause_inv s) as [m [Hle Hcase]].
  unfold count_of. split; [|split].
  - intros Hzero. unfold getDominantBottleneck.
    destruct Hcase as [[_ ->]|(Hpos & j & Hj & _ & Hjm & _)]; [done|].
    exfalso. specialize (Hzero (cause_of_index j)).
    rewrite cause_index_of_index in Hzero by (unfold STALL_CAUSE_COUNT in *; lia).
    assert (cause_of_index j <> NONE)
      by (apply cause_index_NONE; rewrite cause_index_of_index;
          unfold STALL_CAUSE_COUNT in *; lia).
    specialize (Hzero ltac:(assumption)). lia.
  - intros (c & Hc & Hpos).
    assert (Hcb := cause_index_bound c). apply cause_index_NONE in Hc.
    pose proof (Hle (cause_index c) ltac:(lia)) as Hcm.
    destruct Hcase as [[-> _]|(_ & j & Hj & Hd & Hjm & Hlt)]; [lia|].
    assert (Hij : cause_index (getDominantCause s) = j)
      by (rewrite Hd; apply cause_index_of_index; lia).
    rewrite Hij, Hjm. split; [|split].
    + apply cause_index_NONE. lia.
    + intros c' Hc'. apply cause_index_NONE in Hc'.
      apply Hle. pose proof (cause_index_bound c'). lia.
    + intros c' Hc' Heq. apply cause_index_NONE in Hc'.
      destruct (decide (cause_index c' < j)%nat) as [Hlt'|]; [|lia].
      specialize (Hlt (cause_index c') ltac:(lia)). lia.
  - pose proof ten_memory_three_fu as H. cbv zeta in *. tauto.
Qed.

(** The theorem used on a fresh breakdown and on the scenario of the
    specification. *)
Lemma getDominantCause_spec_witness :
  let h := Enhanced.recordStallCauses
             (replicate 10 MEMORY_LATENCY ++ replicate 3 FU_CONTENTION)
             Enhanced.newHWStatistics in
  let s := Enhanced.stall_breakdown (Enhanced.summary h) in
  ((forall c, c <> NONE -> count_of reset c <= 0) /\
   getDominantCause reset = NONE) /\
  ((exists c, c <> NONE /\ 0 < count_of s c) /\
   getDominantCause s <> NONE /\
   (forall c, c <> NONE -> count_of s c <= count_of s (getDominantCause s))).
Proof.
  cbv zeta. split.
  - assert (H0 : forall c, c <> NONE -> count_of reset c <= 0)
      by (intros c _; destruct c; cbn; lia).
    split; [exact H0|].
    destruct (getDominantCause_spec reset) as (Hnone & _).
    exact (proj1 (Hnone H0)).
  - assert (H : exists c, c <> NONE /\
       0 < count_of (Enhanced.stall_breakdown (Enhanced.summary
             (Enhanced.recordStallCauses
                (replicate 10 MEMORY_LATENCY ++ replicate 3 FU_CONTENTION)
                Enhanced.newHWStatistics))) c).
    { exists MEMORY_LATENCY. split; [discriminate|]. vm_compute. reflexivity. }
    split; [exact H|].
    destruct (getDominantCause_spec
                (Enhanced.stall_breakdown (Enhanced.summary
                   (Enhanced.recordStallCauses
                      (replicate 10 MEMORY_LATENCY ++ replicate 3 FU_CONTENTION)
                      Enhanced.newHWStatistics)))) as (_ & Hsome & _).
    destruct (Hsome H) as (Hne & Hmax & _). split; assumption.
Defined.

End StallProps.

(** ** PowerAreaCoefficients::loadFromFile *)

Module CoeffsProps.
Import Coeffs.

(** A file that cannot be opened: the defaults are installed and [false]
    is returned, whatever [std::stod] does. *)
Lemma loadFromFile_missing stod c :
  loadFromFile stod None c = Normal (setDefaults c, false).
Proof. reflexivity. Qed.

(** A line without a colon, or with a key the parser does not know, is
    skipped. *)
Lemma parse_line_no_colon stod line c :
  find_colon line = None -> parse_line stod line c = Normal c.
Proof. intros H. unfold parse_line. by rewrite H. Qed.

Lemma find_char_append ch k v :
  find_char ch k = None ->
  find_char ch (k ++ String ch v) = Some (String.length k).
Proof.
  induction k as [|c k IH]; cbn.
  - by rewrite Ascii.eqb_refl.
  - destruct (Ascii.eqb c ch); [discriminate|].
    destruct (find_char ch k); [discriminate|].
    intros _. by rewrite IH.
Qed.

Lemma substring_whole v : String.substring 0 (String.length v) v = v.
Proof. induction v as [|c v IH]; cbn; [reflexivity | by rewrite IH]. Qed.

Lemma substring_prefix k v : String.substring 0 (String.length k) (k ++ v) = k.
Proof. induction k as [|c k IH]; cbn; [by destruct v | by rewrite IH]. Qed.

Lemma substring_skip k c v m :
  String.substring (S (String.length k)) m (k ++ String c v)
  = String.substring 0 m v.
Proof. induction k as [|a k IH]; cbn; [reflexivity | exact IH]. Qed.

Lemma length_append_string k v :
  String.length (k ++ v) = (String.length k + String.length v)%nat.
Proof. induction k as [|c k IH]; cbn; [reflexivity | by rewrite IH]. Qed.

Lemma substr_from_suffix k c v :
  substr_from (S (String.length k)) (k ++ String c v) = v.
Proof.
  unfold substr_from. rewrite substring_skip, length_append_string. cbn.
  replace (String.length k + S (String.length v) - S (String.length k))%nat
    with (String.length v) by lia.
  apply substring_whole.
Qed.

(** A [voltage] or [temperature_c] entry whose value [std::stod] cannot
    convert ends [loadFromFile] with the exception, whatever came before
    in the file having been applied. *)
Lemma loadFromFile_unconvertible stod key value c :
  find_colon key = None ->
  (remove_char " " (remove_char dquote key) = "voltage"
   \/ remove_char " " (remove_char dquote key) = "temperature_c")%string ->
  stod (remove_char "," (remove_char dquote value)) = None ->
  loadFromFile stod (Some [(key ++ String ":" value)%string]) c = Uncaught c.
Proof.
  intros Hk Hkey Hv. unfold loadFromFile, parse_lines, parse_line, find_colon.
  rewrite (find_char_append _ _ _ Hk), substring_prefix, substr_from_suffix.
  destruct Hkey as [-> | ->]; cbn [String.eqb Ascii.eqb Bool.eqb]; by rewrite Hv.
Qed.

(** claim C9 -- a file that opens but holds a non-numeric [voltage] makes
    [std::stod] throw, and [loadFromFile] has no handler: the call ends
    with the exception instead of returning with the defaults.  Content
    that is merely not understood is skipped, [true] is returned and the
    coefficients loaded earlier stay in place; the defaults are installed
    only when the file cannot be opened. *)
Theorem loadFromFile_malformed_number_throws :
  let bad := (String.append "  " (quoted "voltage")
               ++ ": " ++ quoted "high" ++ ",")%string in
  let fresh := setDefaults initial in
  let tuned := set_voltage 3 fresh in
  loadFromFile stod_integers (Some ["{"; bad; "}"]%string) fresh = Uncaught fresh /\
  loadFromFile stod_integers (Some ["not a coefficient file"]%string) tuned
    = Normal (tuned, true) /\
  tuned <> setDefaults tuned /\
  loadFromFile stod_integers None tuned = Normal (fresh, false).
Proof.
  cbv zeta. split; [|split; [|split]].
  - vm_compute. reflexivity.
  - vm_compute. reflexivity.
  - intros H. apply (f_equal (fun c => PrimFloat.eqb (voltage c) 1)) in H.
    vm_compute in H. discriminate.
  - vm_compute. reflexivity.
Qed.

End CoeffsProps.

(** ** Power totals and energy *)

Module PowerProps.

(** The FU loop reads nothing that [calculatePowerWithActivity] writes. *)
Lemma fu_power_step_set_power p h :
  Enhanced.fu_power_step (Enhanced.set_power p h) = Enhanced.fu_power_step h.
Proof. reflexivity. Qed.

Lemma calculatePowerWithActivity_totals h :
  let p := Enhanced.power (Enhanced.summary (Enhanced.calculatePowerWithActivity h)) in
  Enhanced.fu_total p = (Enhanced.fu_leakage p + Enhanced.fu_dynamic p)%float /\
  Enhanced.total_power p
    = (Enhanced.fu_total p + Enhanced.reg_total p + Enhanced.spm_total p
       + Enhanced.cache_total p)%float.
Proof.
  unfold Enhanced.calculatePowerWithActivity.
  destruct (fold_left _ _ _) as [fu_leak fu_dyn]. cbn. split; reflexivity.
Qed.

Lemma calculatePowerWithActivity_idempotent h :
  Enhanced.calculatePowerWithActivity (Enhanced.calculatePowerWithActivity h)
  = Enhanced.calculatePowerWithActivity h.
Proof.
  unfold Enhanced.calculatePowerWithActivity at 1 3.
  set (h1 := Enhanced.calculatePowerWithActivity h).
  assert (Hsame : Enhanced.fu_power_step h1 = Enhanced.fu_power_step h).
  { unfold h1, Enhanced.calculatePowerWithActivity.
    destruct (fold_left _ _ _). apply fu_power_step_set_power. }
  rewrite Hsame.
  unfold h1, Enhanced.calculatePowerWithActivity.
  destruct (fold_left _ _ _) as [fu_leak fu_dyn]. reflexivity.
Qed.

(** The energy figure the code stores: power times run time over [1e6]. *)
Lemma calculatePowerWithActivity_energy h :
  let p := Enhanced.power (Enhanced.summary (Enhanced.calculatePowerWithActivity h)) in
  Enhanced.total_energy_nj p
  = (Enhanced.total_power p * Enhanced.runtime_ns h / 1e6)%float.
Proof.
  unfold Enhanced.calculatePowerWithActivity.
  destruct (fold_left _ _ _) as [fu_leak fu_dyn]. reflexivity.
Qed.

(** claim C4 (as stated, refuted) -- [collectPowerStats] of
    temp_hw_statistics.cc adds only the FU and register totals: with 1 mW
    of scratchpad leakage and nothing else, [total_power] is 0 while the
    four block totals add up to 1. *)
Lemma base_collectPowerStats_total_excludes_memory :
  let p := Base.collectPowerStats 0 0 0 0 1 0 0 0 0 0 in
  Base.total_power p = 0%float /\
  (Base.fu_total p + Base.reg_total p + Base.spm_total p + Base.cache_total p
   = 1)%float /\
  Base.total_power p
  <> (Base.fu_total p + Base.reg_total p + Base.spm_total p + Base.cache_total p)%float.
Proof.
  cbv zeta. split; [|split].
  - vm_compute. reflexivity.
  - vm_compute. reflexivity.
  - intros H. apply (f_equal (fun x => PrimFloat.eqb x 0)) in H.
    vm_compute in H. discriminate.
Qed.

(** claim C4 (amended) -- [calculatePowerWithActivity] and the
    [collectPowerStats] of the enhanced engine give
    [fu_total = fu_leakage + fu_dynamic] and
    [total_power = fu_total + reg_total + spm_total + cache_total], and a
    second [calculatePowerWithActivity] changes nothing; the
    [collectPowerStats] of temp_hw_statistics.cc gives the same [fu_total]
    but [total_power = fu_total + reg_total], the memory blocks being added
    in [acc_spm_total] and [acc_cache_total]. *)
Theorem power_totals_consistent
    (h : Enhanced.HWStatistics)
    (fu_leak fu_dyn reg_leak reg_dyn spm_leak spm_read spm_write
     cache_leak cache_read cache_write : float) :
  (let p := Enhanced.power (Enhanced.summary (Enhanced.calculatePowerWithActivity h)) in
   Enhanced.fu_total p = (Enhanced.fu_leakage p + Enhanced.fu_dynamic p)%float /\
   Enhanced.total_power p
     = (Enhanced.fu_total p + Enhanced.reg_total p + Enhanced.spm_total p
        + Enhanced.cache_total p)%float) /\
  Enhanced.calculatePowerWithActivity (Enhanced.calculatePowerWithActivity h)
    = Enhanced.calculatePowerWithActivity h /\
  (let p := Enhanced.power (Enhanced.summary
              (Enhanced.collectPowerStats fu_leak fu_dyn reg_leak reg_dyn
                 spm_leak spm_read spm_write cache_leak cache_read cache_write h)) in
   Enhanced.fu_leakage p = fu_leak /\ Enhanced.fu_dynamic p = fu_dyn /\
   Enhanced.fu_total p = (Enhanced.fu_leakage p + Enhanced.fu_dynamic p)%float /\
   Enhanced.total_power p
     = (Enhanced.fu_total p + Enhanced.reg_total p + Enhanced.spm_total p
        + Enhanced.cache_total p)%float) /\
  (let p := Base.collectPowerStats fu_leak fu_dyn reg_leak reg_dyn
              spm_leak spm_read spm_write cache_leak cache_read cache_write in
   Base.fu_leakage p = fu_leak /\ Base.fu_dynamic p = fu_dyn /\
   Base.fu_total p = (Base.fu_leakage p + Base.fu_dynamic p)%float /\
   Base.total_power p = (Base.fu_total p + Base.reg_total p)%float /\
   Base.acc_spm_total p = (Base.total_power p + Base.spm_total p)%float /\
   Base.acc_cache_total p = (Base.total_power p + Base.cache_total p)%float).
Proof.
  split; [apply calculatePowerWithActivity_totals|].
  split; [apply calculatePowerWithActivity_idempotent|].
  split; cbn; repeat split; reflexivity.
Qed.

(** claim C5 -- the energy is scaled by [1e6], not by [1e3]: with 2 KB of
    scratchpad at the default 0.5 mW/KB (1 mW in total) and 1000 cycles of
    1 ns, the stored [total_energy_nj] is 0.001, where 1 mW for 1000 ns is
    1 nJ. *)
Theorem total_energy_scaled_by_1e6 :
  let h := Enhanced.collectMemoryStats 0 0 2 0 0 0 0 0 0
             (Enhanced.collectPerformanceStats 0 0 1 1000 0
                Enhanced.newHWStatistics) in
  let p := Enhanced.power (Enhanced.summary (Enhanced.calculatePowerWithActivity h)) in
  Enhanced.total_power p = 1%float /\
  Enhanced.runtime_ns h = 1000%float /\
  Enhanced.total_energy_nj p = 0.001%float /\
  (Enhanced.total_power p * Enhanced.runtime_ns h / 1e3 = 1)%float /\
  Enhanced.total_energy_nj p
  <> (Enhanced.total_power p * Enhanced.runtime_ns h / 1e3)%float.
Proof.
  cbv zeta. split; [|split; [|split; [|split]]].
  - vm_compute. reflexivity.
  - vm_compute. reflexivity.
  - vm_compute. reflexivity.
  - vm_compute. reflexivity.
  - intros H. apply (f_equal (fun x => PrimFloat.eqb x 1)) in H.
    vm_compute in H. discriminate.
Qed.

End PowerProps.

(** ** Cycle windows of temp_hw_statistics.cc (growing list) *)

Module GrowingProps.
Import GrowingWindows.

Lemma fold_windows (l : list (list HW_Cycle_Stats)) a :
  fold_left (fun a window => fold_left accumulate window a) l a
  = fold_left accumulate (concat l) a.
Proof.
  revert a. induction l as [|w l IH]; intros a; cbn; [reflexivity|].
  by rewrite fold_left_app, IH.
Qed.

(** The sample counter follows the number of elements while it fits an
    [int]. *)
Lemma total_samples_fold xs a :
  0 <= total_samples (result a) ->
  total_samples (result a) + Z.of_nat (length xs) <= INT_MAX ->
  total_samples (result (fold_left accumulate xs a))
  = total_samples (result a) + Z.of_nat (length xs).
Proof.
  revert a. induction xs as [|x xs IH]; intros a H0 Hmax; cbn [fold_left length].
  - lia.
  - cbn [length] in Hmax.
    assert (Hs : total_samples (result (accumulate a x)) = total_samples (result a) + 1).
    { cbn. apply i32_small. unfold INT_MAX in *. lia. }
    rewrite IH; rewrite Hs; lia.
Qed.

Lemma summarizeCycleStats_stored h :
  cycle_tracking h = true -> Z.of_nat (stored h) <= INT_MAX ->
  total_samples (summarizeCycleStats h) = Z.of_nat (stored h).
Proof.
  intros Ht Hmax. unfold summarizeCycleStats, stored in *. rewrite Ht. cbn.
  rewrite fold_windows, total_samples_fold; cbn; lia.
Qed.

Lemma windows_inv_new K : windows_inv K (newHWStatistics true K) [] [] 1.
Proof. unfold windows_inv. cbn. repeat split; auto. Qed.

Lemma stored_shape {A} (pre : list (list A)) cur post :
  length (concat (pre ++ cur :: post))
  = (length (concat pre) + length cur + length (concat post))%nat.
Proof. rewrite concat_app. cbn. rewrite !length_app. lia. Qed.

Lemma concat_replicate_nil {A} e : concat (replicate e (@nil A)) = [].
Proof. induction e; cbn; auto. Qed.

(** One [recordCycleStats]: the snapshot lands in the current window, and
    the engine rotates exactly when that fills it. *)
Lemma recordCycleStats_step K h pre cur e st :
  1 <= K <= INT_MAX ->
  windows_inv K h pre cur e ->
  Z.of_nat (length cur) < K ->
  Z.of_nat (length pre) + 1 <= INT_MAX ->
  exists h',
    stored h' = S (stored h) /\
    ((Z.of_nat (length cur) + 1 < K /\
      recordCycleStats st h = Returns (h', 0%nat) /\
      windows_inv K h' pre (cur ++ [st]) e)
     \/
     (Z.of_nat (length cur) + 1 = K /\
      recordCycleStats st h = Returns (h', 1%nat) /\
      windows_inv K h' (pre ++ [cur ++ [st]]) [] (pred e))).
Proof.
  intros HK (Ht & HKs & Hl & Hi & He) Hc Hidx.
  assert (Hlen : Z.of_nat (length pre) + 1 + Z.of_nat e <= INT_MAX).
  { destruct He as [->|[-> ->]]; cbn; [lia | unfold INT_MAX; lia]. }
  unfold recordCycleStats. rewrite Ht, Hi. cbn [negb].
  replace (Z.of_nat (length pre) <? 0) with false by (symmetry; apply Z.ltb_ge; lia).
  rewrite Nat2Z.id, Hl, list_lookup_middle by reflexivity.
  replace (<[length pre := cur ++ [st]]> (pre ++ cur :: replicate e []))
    with (pre ++ (cur ++ [st]) :: replicate e [])
    by (replace (length pre) with (length pre + 0)%nat at 1 by lia;
        by rewrite insert_app_r).
  rewrite HKs, (u64_small K) by (unfold is_u64, INT_MAX, UINT64_MAX in *; lia).
  rewrite length_app. cbn [length].
  assert (Hst : forall post,
            length (concat (pre ++ (cur ++ [st]) :: post))
            = S (length (concat (pre ++ cur :: post)))).
  { intros post. rewrite !stored_shape, length_app. cbn. lia. }
  destruct (Z.geb_spec (Z.of_nat (length cur + 1)) K) as [Hfull|Hroom].
  - eexists. split; [|right; split; [lia|split; [reflexivity|]]].
    + unfold stored, updateBuffer. cbn. rewrite Hl.
      destruct (_ >=? _); [rewrite concat_app; cbn; rewrite app_nil_r|];
        rewrite !stored_shape, length_app; cbn; lia.
    + unfold windows_inv, updateBuffer. cbn.
      rewrite (i32_small (Z.of_nat (length pre) + 1)) by (unfold INT_MAX in *; lia).
      rewrite length_app. cbn [length]. rewrite length_replicate.
      rewrite i32_small by (unfold INT_MAX in *; lia).
      repeat split; try lia.
      * destruct He as [->|[-> _]]; cbn.
        -- replace (Z.of_nat (length pre) + 1 >=? Z.of_nat (length pre + 1)) with true
             by (symmetry; apply Z.geb_le; lia).
           by rewrite <- app_assoc.
        -- replace (Z.of_nat (length pre) + 1 >=? Z.of_nat (length pre + 2)) with false
             by (symmetry; rewrite Z.geb_leb; apply Z.leb_gt; lia).
           by rewrite <- app_assoc.
      * rewrite length_app. cbn. lia.
  - eexists. split; [|left; split; [lia|split; [reflexivity|]]].
    + unfold stored. cbn. rewrite Hl. apply Hst.
    + unfold windows_inv. cbn. repeat split; try assumption.
Qed.

(** Recording [n] snapshots into a window that holds [c < K]: all are
    stored and the engine rotates [(c + n) / K] times. *)
Lemma recordAll_growing K snaps : forall h pre cur e,
  1 <= K <= INT_MAX ->
  windows_inv K h pre cur e ->
  Z.of_nat (length cur) < K ->
  Z.of_nat (length pre) + Z.of_nat (length snaps) <= INT_MAX ->
  exists h' r,
    recordAll snaps h = Returns (h', r) /\
    cycle_tracking h' = true /\
    stored h' = (stored h + length snaps)%nat /\
    Z.of_nat r = (Z.of_nat (length cur) + Z.of_nat (length snaps)) / K.
Proof.
  induction snaps as [|st snaps IH]; intros h pre cur e HK Hinv Hc Hmax.
  - exists h, 0%nat. cbn. repeat split.
    + apply Hinv.
    + lia.
    + rewrite Z.add_0_r, Z.div_small; lia.
  - cbn [length] in Hmax. cbn [recordAll].
    destruct (recordCycleStats_step K h pre cur e st HK Hinv Hc) as (h1 & Hst & Hcase).
    { lia. }
    destruct Hcase as [(Hroom & -> & Hinv1) | (Hfull & -> & Hinv1)].
    + destruct (IH h1 pre (cur ++ [st]) e HK Hinv1) as (h' & r & -> & Ht & Hs & Hr).
      { rewrite length_app. cbn. lia. }
      { lia. }
      exists h', r. repeat split; try assumption.
      * rewrite Hs, Hst. cbn. lia.
      * rewrite Hr, length_app. cbn [length]. f_equal. lia.
    + destruct (IH h1 (pre ++ [cur ++ [st]]) [] (pred e) HK Hinv1) as (h' & r & -> & Ht & Hs & Hr).
      { cbn. lia. }
      { rewrite length_app. cbn. lia. }
      exists h', (S r). repeat split; try assumption.
      * rewrite Hs, Hst. cbn. lia.
      * rewrite Nat2Z.inj_succ, Hr. cbn [length].
        replace (Z.of_nat (length cur) + Z.of_nat (S (length snaps)))
          with (Z.of_nat (length snaps) + 1 * K) by lia.
        rewrite Z.div_add by lia. change (Z.of_nat 0) with 0.
        rewrite Z.add_0_l. lia.
Qed.

End GrowingProps.

(** ** Cycle windows of temp_hw_statistics_enhanced.cc (ring of two) *)

Module RingProps.
Import RingWindows.

Lemma ring_inv_new K :
  (1 <= K)%nat -> ring_inv K (newHWStatistics true (Z.of_nat K)) 0.
Proof.
  intros HK. unfold ring_inv. cbn. rewrite Nat2Z.id.
  repeat split; try lia. eexists _, _. split; [reflexivity|].
  by rewrite length_replicate.
Qed.

(** One [recordCycleStats] on the ring: the write position advances, and
    the engine rotates exactly when it reaches the end of the window. *)
Lemma recordCycleStats_ring K h c st :
  ring_inv K h c ->
  exists h',
    ((S c < K)%nat /\ recordCycleStats st h = Returns (h', 0%nat) /\
     ring_inv K h' (S c))
    \/ (S c = K /\ recordCycleStats st h = Returns (h', 1%nat) /\
        ring_inv K h' 0).
Proof.
  intros (Ht & (b0 & b1 & Hl & H0 & H1) & Hw & Hc & HcK).
  unfold recordCycleStats. rewrite Ht, Hl, Hc. cbn [negb].
  assert (Hwin : exists window, [b0; b1] !! hw_buffer h = Some window /\
                                length window = K).
  { destruct (hw_buffer h) as [|[|w]]; [by exists b0|by exists b1|lia]. }
  destruct Hwin as (window & -> & Hlen). rewrite Hlen.
  replace (c <? K)%nat with true by (symmetry; apply Nat.ltb_lt; lia).
  assert (Hshape : exists b0' b1',
            <[hw_buffer h := <[c := st]> window]> [b0; b1] = [b0'; b1'] /\
            length b0' = K /\ length b1' = K).
  { destruct (hw_buffer h) as [|[|w]]; cbn; [| |lia].
    - eexists _, _. split; [reflexivity|]. by rewrite length_insert.
    - eexists _, _. split; [reflexivity|]. by rewrite length_insert. }
  destruct Hshape as (b0' & b1' & Hins & H0' & H1').
  destruct (Nat.eqb_spec (S c) K) as [Hfull|Hroom].
  - assert (Hlt : (hw_buffer h <? 2)%nat = true) by (apply Nat.ltb_lt; lia).
    unfold updateBuffer. cbn [hw_buffer_list hw_buffer]. rewrite Hins.
    cbn [length]. rewrite Hlt.
    eexists. right. split; [done|]. split; [reflexivity|].
    unfold ring_inv. cbn. split; [done|]. split; [eauto|].
    split; [|split; [reflexivity|lia]].
    destruct (Nat.eqb_spec (hw_buffer h) 1); lia.
  - eexists. left. split; [lia|]. split; [reflexivity|].
    unfold ring_inv. cbn. rewrite Hins. split; [done|]. split; [eauto|].
    split; [done|]. split; [reflexivity|lia].
Qed.

(** Recording [n] snapshots from write position [c]: the ring never
    fails and rotates [(c + n) / K] times. *)
Lemma recordAll_ring K snaps : forall h c,
  ring_inv K h c ->
  exists h' r,
    recordAll snaps h = Returns (h', r) /\
    r = ((c + length snaps) / K)%nat.
Proof.
  induction snaps as [|st snaps IH]; intros h c Hinv.
  - exists h, 0%nat. split; [reflexivity|].
    destruct Hinv as (_ & _ & _ & _ & HcK).
    rewrite Nat.add_0_r. symmetry. by apply Nat.div_small.
  - cbn [recordAll length].
    destruct (recordCycleStats_ring K h c st Hinv)
      as (h1 & [(Hroom & -> & Hinv1) | (Hfull & -> & Hinv1)]).
    + destruct (IH h1 (S c) Hinv1) as (h' & r & -> & Hr).
      exists h', r. split; [reflexivity|]. rewrite Hr. f_equal. lia.
    + destruct (IH h1 0%nat Hinv1) as (h' & r & -> & Hr).
      exists h', (S r). split; [reflexivity|]. rewrite Hr.
      replace (c + S (length snaps))%nat with (0 + length snaps + 1 * K)%nat by lia.
      rewrite Nat.div_add by lia. lia.
Qed.

Lemma ring_fill_new K :
  (1 <= K)%nat -> ring_fill K (newHWStatistics true (Z.of_nat K)) [] [].
Proof.
  intros HK. unfold ring_fill. cbn. rewrite Nat2Z.id, Nat.sub_0_r.
  split; [done|]. split; [done|]. left. done.
Qed.

(** Writing just behind the recorded part of a window. *)
Lemma insert_behind (d : list HW_Cycle_Stats) K st :
  (length d < K)%nat ->
  <[length d := st]> (d ++ replicate (K - length d) blank)
  = (d ++ [st]) ++ replicate (K - length (d ++ [st])) blank.
Proof.
  intros H. replace (length d) with (length d + 0)%nat at 1 by lia.
  rewrite insert_app_r, length_app. cbn [length].
  replace (K - length d)%nat with (S (K - (length d + 1))) by lia.
  cbn. by rewrite <- app_assoc.
Qed.

(** One [recordCycleStats] while the ring still has a blank element. *)
Lemma recordCycleStats_fill K h d0 d1 st :
  ring_fill K h d0 d1 -> (length d0 + length d1 < 2 * K)%nat ->
  exists h' r d0' d1',
    recordCycleStats st h = Returns (h', r) /\
    ring_fill K h' d0' d1' /\ d0' ++ d1' = (d0 ++ d1) ++ [st].
Proof.
  intros (Ht & Hl & Hpos) Hroom. unfold recordCycleStats. rewrite Ht, Hl.
  cbn [negb].
  destruct Hpos as [(H0 & -> & Hw & Hc) | [(H0 & H1 & Hw & Hc) | (H0 & H1)]];
    [| |lia].
  - rewrite Hw, Hc. cbn [lookup list_lookup].
    rewrite length_app, length_replicate.
    replace (length d0 <? length d0 + (K - length d0))%nat with true
      by (symmetry; apply Nat.ltb_lt; lia).
    cbn [insert list_insert]. rewrite insert_behind by assumption.
    destruct (Nat.eqb_spec (S (length d0)) (length d0 + (K - length d0))) as [Hfull|Hmore].
    + unfold updateBuffer. cbn.
      eexists _, 1%nat, (d0 ++ [st]), []. split; [reflexivity|].
      split; [|by rewrite !app_nil_r].
      unfold ring_fill. cbn. split; [done|]. split; [done|].
      right. left. rewrite length_app. cbn. repeat split; lia.
    + eexists _, 0%nat, (d0 ++ [st]), []. split; [reflexivity|].
      split; [|by rewrite !app_nil_r].
      unfold ring_fill. cbn. split; [done|]. split; [done|].
      left. rewrite length_app. cbn. repeat split; lia.
  - rewrite Hw, Hc. cbn [lookup list_lookup].
    rewrite length_app, length_replicate.
    replace (length d1 <? length d1 + (K - length d1))%nat with true
      by (symmetry; apply Nat.ltb_lt; lia).
    cbn [insert list_insert]. rewrite insert_behind by assumption.
    destruct (Nat.eqb_spec (S (length d1)) (length d1 + (K - length d1))) as [Hfull|Hmore].
    + unfold updateBuffer. cbn.
      eexists _, 1%nat, d0, (d1 ++ [st]). split; [reflexivity|].
      split; [|by rewrite app_assoc].
      unfold ring_fill. cbn. split; [done|]. split; [done|].
      right. right. rewrite length_app. cbn. lia.
    + eexists _, 0%nat, d0, (d1 ++ [st]). split; [reflexivity|].
      split; [|by rewrite app_assoc].
      unfold ring_fill. cbn. split; [done|]. split; [done|].
      right. left. rewrite length_app. cbn. repeat split; lia.
Qed.

(** Up to [2 * K] snapshots recorded on a fresh ring are all in place. *)
Lemma recordAll_fill K snaps : forall h d0 d1,
  ring_fill K h d0 d1 -> (length d0 + length d1 + length snaps <= 2 * K)%nat ->
  exists h' r d0' d1',
    recordAll snaps h = Returns (h', r) /\
    ring_fill K h' d0' d1' /\ d0' ++ d1' = (d0 ++ d1) ++ snaps.
Proof.
  induction snaps as [|st snaps IH]; intros h d0 d1 Hfill Hroom.
  - exists h, 0%nat, d0, d1. by rewrite app_nil_r.
  - cbn [length] in Hroom. cbn [recordAll].
    destruct (recordCycleStats_fill K h d0 d1 st Hfill ltac:(lia))
      as (h1 & r1 & e0 & e1 & -> & Hfill1 & He).
    assert (Hlen : (length e0 + length e1 = length d0 + length d1 + 1)%nat).
    { rewrite <- !length_app, He, length_app. cbn. lia. }
    destruct (IH h1 e0 e1 Hfill1 ltac:(lia)) as (h' & r & f0 & f1 & -> & Hfill' & Hf).
    exists h', (r1 + r)%nat, f0, f1. split; [reflexivity|]. split; [assumption|].
    rewrite Hf, He, <- app_assoc. reflexivity.
Qed.

(** The inner loop of [summarizeCycleStats] counts a run of snapshots
    with non-zero cycle number in full. *)
Lemma summarize_window_counted xs rest a :
  Forall (fun st => cycle st <> 0) xs ->
  0 <= count a -> count a + Z.of_nat (length xs) <= INT_MAX ->
  exists a', summarize_window (xs ++ rest) a = summarize_window rest a' /\
             count a' = count a + Z.of_nat (length xs).
Proof.
  revert a. induction xs as [|x xs IH]; intros a Hnz H0 Hmax.
  - exists a. cbn. split; [reflexivity|lia].
  - inversion Hnz as [|? ? Hx Hxs]; subst. cbn [length] in Hmax.
    cbn [app summarize_window].
    replace (cycle x =? 0) with false by (symmetry; apply Z.eqb_neq; assumption).
    cbn [andb].
    destruct (IH (accumulate x a) Hxs) as (a' & -> & Hc).
    + cbn. rewrite i32_small; unfold INT_MAX in *; lia.
    + cbn. rewrite i32_small; unfold INT_MAX in *; lia.
    + exists a'. split; [reflexivity|]. rewrite Hc. cbn.
      rewrite i32_small; unfold INT_MAX in *; lia.
Qed.

(** ... and stops at the first blank once something has been counted. *)
Lemma summarize_window_blanks n a :
  0 < count a -> summarize_window (replicate n blank) a = a.
Proof.
  intros H. destruct n; cbn; [reflexivity|].
  replace (count a >? 0) with true by (symmetry; apply Z.gtb_lt; lia).
  reflexivity.
Qed.

Lemma summarizeCycleStats_fill K h d0 d1 :
  ring_fill K h d0 d1 -> (1 <= K)%nat ->
  Forall (fun st => cycle st <> 0) (d0 ++ d1) ->
  (1 <= length (d0 ++ d1))%nat -> Z.of_nat (length (d0 ++ d1)) <= INT_MAX ->
  total_samples (summarizeCycleStats h) = Z.of_nat (length (d0 ++ d1)).
Proof.
  intros (Ht & Hl & Hpos) HK Hnz Hne Hmax.
  apply Forall_app in Hnz as [Hnz0 Hnz1]. rewrite length_app in Hne, Hmax.
  assert (Hd0 : (1 <= length d0)%nat).
  { destruct Hpos as [(_ & -> & _) | [(? & _) | (? & _)]]; cbn in *; lia. }
  unfold summarizeCycleStats. rewrite Ht, Hl. cbn [negb fold_left total_samples].
  set (a0 := {| total_res := 0; total_load := 0; total_store := 0;
                total_comp := 0; count := 0; sum := emptySummary |}).
  destruct (summarize_window_counted d0 (replicate (K - length d0) blank) a0 Hnz0)
    as (a1 & -> & Hc1); [cbn; lia | cbn; lia |].
  cbn [count a0] in Hc1.
  rewrite summarize_window_blanks by lia.
  destruct (summarize_window_counted d1 (replicate (K - length d1) blank) a1 Hnz1)
    as (a2 & -> & Hc2); [lia | lia |].
  rewrite summarize_window_blanks by lia.
  rewrite Hc2, Hc1, length_app. lia.
Qed.

End RingProps.

(** ** Window rotation and sample counts, both engines *)

Module WindowProps.

(** claim C3 (as stated, refuted) -- with [stat_buffer_size = 1] the two
    snapshots [K + 1] rotate twice in either engine, because every
    snapshot fills its window; and the ring of the enhanced engine keeps
    [2 * K] snapshots at most: with [K = 2], five recorded snapshots are
    summarised as four samples. *)
Lemma window_claim_fails_for_K1_and_on_the_ring :
  (snd <$> returned
     (GrowingWindows.recordAll
        [GrowingWindows.at_cycle 1; GrowingWindows.at_cycle 2]
        (GrowingWindows.newHWStatistics true 1)) = Some 2%nat) /\
  (snd <$> returned
     (RingWindows.recordAll
        [RingWindows.at_cycle 1; RingWindows.at_cycle 2]
        (RingWindows.newHWStatistics true 1)) = Some 2%nat) /\
  (RingWindows.total_samples <$>
     (RingWindows.summarizeCycleStats <$>
        (fst <$> returned
           (RingWindows.recordAll
              (map RingWindows.at_cycle [1; 2; 3; 4; 5])
              (RingWindows.newHWStatistics true 2)))) = Some 4) /\
  (RingWindows.total_samples <$>
     (RingWindows.summarizeCycleStats <$>
        (fst <$> returned
           (RingWindows.recordAll
              (map RingWindows.at_cycle [1; 2; 3; 4; 5])
              (RingWindows.newHWStatistics true 2)))) <> Some 5).
Proof. vm_compute. repeat split; discriminate. Qed.

Lemma div_succ_self K : 2 <= K -> (0 + (K + 1)) / K = 1.
Proof.
  intros H. replace (0 + (K + 1)) with (1 + 1 * K) by lia.
  rewrite Z.div_add by lia. rewrite Z.div_small; lia.
Qed.

Lemma div_succ_self_nat K : (2 <= K)%nat -> ((0 + (K + 1)) / K = 1)%nat.
Proof.
  intros H. replace (0 + (K + 1))%nat with (1 + 1 * K)%nat by lia.
  rewrite Nat.div_add by lia. rewrite Nat.div_small; lia.
Qed.

(** claim C3 (amended) -- with cycle tracking on and a capacity
    [K >= 2], recording [K + 1] snapshots enters [updateBuffer] exactly
    once in both engines.  In the growing-list engine
    (temp_hw_statistics.cc), for [K >= 1], [total_samples] after [M]
    snapshots is [M] for every [M] an [int] can hold.  In the ring engine
    (temp_hw_statistics_enhanced.cc), for [K >= 1], [total_samples] after
    [M] snapshots with non-zero cycle numbers is [M] when
    [1 <= M <= 2 * K]. *)
Theorem window_rotation_and_samples (K : Z) :
  (2 <= K < INT_MAX ->
   forall snaps : list GrowingWindows.HW_Cycle_Stats,
     Z.of_nat (length snaps) = K + 1 ->
     exists h, GrowingWindows.recordAll snaps (GrowingWindows.newHWStatistics true K)
               = Returns (h, 1%nat)) /\
  (2 <= K ->
   forall snaps : list RingWindows.HW_Cycle_Stats,
     Z.of_nat (length snaps) = K + 1 ->
     exists h, RingWindows.recordAll snaps (RingWindows.newHWStatistics true K)
               = Returns (h, 1%nat)) /\
  (1 <= K <= INT_MAX ->
   forall snaps : list GrowingWindows.HW_Cycle_Stats,
     Z.of_nat (length snaps) <= INT_MAX ->
     exists h r,
       GrowingWindows.recordAll snaps (GrowingWindows.newHWStatistics true K)
         = Returns (h, r) /\
       GrowingWindows.total_samples (GrowingWindows.summarizeCycleStats h)
         = Z.of_nat (length snaps)) /\
  (1 <= K ->
   forall snaps : list RingWindows.HW_Cycle_Stats,
     1 <= Z.of_nat (length snaps) <= 2 * K ->
     Z.of_nat (length snaps) <= INT_MAX ->
     Forall (fun st => RingWindows.cycle st <> 0) snaps ->
     exists h r,
       RingWindows.recordAll snaps (RingWindows.newHWStatistics true K)
         = Returns (h, r) /\
       RingWindows.total_samples (RingWindows.summarizeCycleStats h)
         = Z.of_nat (length snaps)).
Proof.
  split; [|split; [|split]].
  - intros HK snaps Hlen.
    destruct (GrowingProps.recordAll_growing K snaps
                (GrowingWindows.newHWStatistics true K) [] [] 1)
      as (h & r & Hrun & _ & _ & Hr).
    + lia.
    + apply GrowingProps.windows_inv_new.
    + cbn. lia.
    + cbn. lia.
    + exists h. rewrite Hrun. do 2 f_equal.
      cbn [length] in Hr. rewrite Hlen in Hr.
      change (Z.of_nat 0) with 0 in Hr. rewrite div_succ_self in Hr; lia.
  - intros HK snaps Hlen.
    assert (HKn : K = Z.of_nat (Z.to_nat K)) by lia. rewrite HKn.
    destruct (RingProps.recordAll_ring (Z.to_nat K) snaps
                (RingWindows.newHWStatistics true (Z.of_nat (Z.to_nat K))) 0)
      as (h & r & Hrun & Hr).
    + apply RingProps.ring_inv_new. lia.
    + exists h. rewrite Hrun. do 2 f_equal. rewrite Hr.
      replace (length snaps) with (Z.to_nat K + 1)%nat by lia.
      apply div_succ_self_nat. lia.
  - intros HK snaps Hlen.
    destruct (GrowingProps.recordAll_growing K snaps
                (GrowingWindows.newHWStatistics true K) [] [] 1)
      as (h & r & Hrun & Ht & Hs & _).
    + lia.
    + apply GrowingProps.windows_inv_new.
    + cbn. lia.
    + cbn. lia.
    + exists h, r. split; [exact Hrun|].
      rewrite GrowingProps.summarizeCycleStats_stored; rewrite ?Hs; cbn; try lia.
      assumption.
  - intros HK snaps Hlen Hmax Hnz.
    assert (HKn : K = Z.of_nat (Z.to_nat K)) by lia. rewrite HKn.
    destruct (RingProps.recordAll_fill (Z.to_nat K) snaps
                (RingWindows.newHWStatistics true (Z.of_nat (Z.to_nat K))) [] [])
      as (h & r & d0 & d1 & Hrun & Hfill & Hd).
    + apply RingProps.ring_fill_new. lia.
    + cbn. lia.
    + exists h, r. split; [exact Hrun|]. cbn in Hd. rewrite <- Hd.
      apply (RingProps.summarizeCycleStats_fill (Z.to_nat K)); rewrite ?Hd;
        try assumption; lia.
Qed.

(** The theorem used with a capacity of three on four snapshots, in both
    engines. *)
Lemma window_rotation_and_samples_witness :
  let gs := map GrowingWindows.at_cycle [1; 2; 3; 4] in
  let rs := map RingWindows.at_cycle [1; 2; 3; 4] in
  (2 <= 3 < INT_MAX /\ Z.of_nat (length gs) = 3 + 1 /\
   exists h, GrowingWindows.recordAll gs (GrowingWindows.newHWStatistics true 3)
             = Returns (h, 1%nat)) /\
  (Z.of_nat (length rs) = 3 + 1 /\
   exists h, RingWindows.recordAll rs (RingWindows.newHWStatistics true 3)
             = Returns (h, 1%nat)) /\
  (Z.of_nat (length gs) <= INT_MAX /\
   exists h r,
     GrowingWindows.recordAll gs (GrowingWindows.newHWStatistics true 3)
       = Returns (h, r) /\
     GrowingWindows.total_samples (GrowingWindows.summarizeCycleStats h) = 4) /\
  (1 <= Z.of_nat (length rs) <= 2 * 3 /\
   Forall (fun st => RingWindows.cycle st <> 0) rs /\
   exists h r,
     RingWindows.recordAll rs (RingWindows.newHWStatistics true 3)
       = Returns (h, r) /\
     RingWindows.total_samples (RingWindows.summarizeCycleStats h) = 4).
Proof.
  cbv zeta.
  destruct (window_rotation_and_samples 3) as (Hg & Hr & Hgs & Hrs).
  assert (Hnz : Forall (fun st => RingWindows.cycle st <> 0)
                  (map RingWindows.at_cycle [1; 2; 3; 4]))
    by (repeat constructor; discriminate).
  split; [|split; [|split]].
  - split; [unfold INT_MAX; lia|]. split; [reflexivity|].
    apply Hg; [unfold INT_MAX; lia | reflexivity].
  - split; [reflexivity|]. apply Hr; [lia | reflexivity].
  - split; [unfold INT_MAX; cbn; lia|].
    apply Hgs; [unfold INT_MAX; lia | unfold INT_MAX; cbn; lia].
  - split; [cbn; lia|]. split; [exact Hnz|].
    apply Hrs; [lia | cbn; lia | unfold INT_MAX; cbn; lia | exact Hnz].
Defined.

End WindowProps.

(** ** Counting and folds *)

Lemma count_if_cons {A} (f : A -> bool) x l :
  count_if f (x :: l) = (if f x then 1 else 0) + count_if f l.
Proof.
  unfold count_if. destruct (f x) eqn:E.
  - rewrite filter_cons_True by (by rewrite E). cbn [length]. lia.
  - rewrite filter_cons_False by (rewrite E; cbn; tauto). lia.
Qed.

Lemma count_if_bounds {A} (f : A -> bool) l :
  0 <= count_if f l <= Z.of_nat (length l).
Proof.
  induction l as [|x l IH]; [unfold count_if; cbn; lia|].
  rewrite count_if_cons. cbn [length]. destruct (f x); lia.
Qed.

Lemma fold_min_spec xs : forall a,
  fold_left Z.min xs a <= a /\
  Forall (fun x => fold_left Z.min xs a <= x) xs /\
  (fold_left Z.min xs a = a \/ In (fold_left Z.min xs a) xs).
Proof.
  induction xs as [|x xs IH]; intros a; cbn [fold_left].
  - split; [lia|]. split; [constructor|]. by left.
  - destruct (IH (Z.min a x)) as (Hle & Hall & Hin).
    split; [lia|]. split.
    + constructor; [lia|assumption].
    + destruct Hin as [Heq|Hin]; [|right; by right].
      destruct (Z.min_spec a x) as [[_ Hm]|[_ Hm]]; rewrite Hm in *.
      * by left.
      * right. left. by symmetry.
Qed.

Lemma fold_max_spec xs : forall a,
  a <= fold_left Z.max xs a /\
  Forall (fun x => x <= fold_left Z.max xs a) xs /\
  (fold_left Z.max xs a = a \/ In (fold_left Z.max xs a) xs).
Proof.
  induction xs as [|x xs IH]; intros a; cbn [fold_left].
  - split; [lia|]. split; [constructor|]. by left.
  - destruct (IH (Z.max a x)) as (Hle & Hall & Hin).
    split; [lia|]. split.
    + constructor; [lia|assumption].
    + destruct Hin as [Heq|Hin]; [|right; by right].
      destruct (Z.max_spec a x) as [[_ Hm]|[_ Hm]]; rewrite Hm in *.
      * right. left. by symmetry.
      * by left.
Qed.

(** ** SimpleMemory: what an access changes and what it leaves alone *)

Module MemoryFrameProps.
Import Memory.

(** A request inside the range passes the guard, as long as the end of
    the memory is a 64-bit value. *)
Lemma guard_accepts m req :
  is_u64 (base m) -> base m + storage_size m <= UINT64_MAX ->
  0 <= size req -> within_range m (addr req) (size req) ->
  guard_rejects m req = false.
Proof.
  intros Hb Hm Hs Hin.
  destruct (guard_rejects m req) eqn:Hg; [|reflexivity].
  apply MemoryProps.guard_rejects_spec in Hg; try assumption.
  - contradiction.
  - unfold within_range, is_u64 in *. lia.
  - unfold within_range in *. lia.
Qed.

Lemma offset_small m req :
  is_u64 (base m) -> base m + storage_size m <= UINT64_MAX ->
  0 <= size req -> within_range m (addr req) (size req) ->
  u64 (addr req - base m) = addr req - base m.
Proof.
  intros Hb Hm Hs [Hlo Hhi]. apply u64_small. unfold is_u64 in *. lia.
Qed.

Lemma length_slice_prefix (l : list Byte.byte) n :
  0 <= n <= Z.of_nat (length l) -> length (slice l 0 n) = Z.to_nat n.
Proof.
  intros H. unfold slice. cbn. rewrite drop_0, length_take. lia.
Qed.

(** An element of [overwrite dst at_ src]: inside the copied range it is
    the element of [src], outside it is the one of [dst]. *)
Lemma lookup_overwrite (dst src : list Byte.byte) at_ (i : nat) :
  (Z.to_nat at_ + length src <= length dst)%nat ->
  overwrite dst at_ src !! i =
    if (Z.to_nat at_ <=? i)%nat && (i <? Z.to_nat at_ + length src)%nat
    then src !! (i - Z.to_nat at_)%nat
    else dst !! i.
Proof.
  intros Hfit. unfold overwrite.
  destruct (Nat.leb_spec (Z.to_nat at_) i) as [Hlo|Hlo]; cbn [andb].
  - rewrite lookup_app_r by (rewrite length_take; lia).
    rewrite length_take, Nat.min_l by lia.
    destruct (Nat.ltb_spec i (Z.to_nat at_ + length src)) as [Hhi|Hhi].
    + rewrite lookup_app_l by lia. reflexivity.
    + rewrite lookup_app_r by lia. rewrite lookup_drop. f_equal. lia.
  - rewrite lookup_app_l by (rewrite length_take; lia).
    by rewrite lookup_take_lt.
Qed.

(** extra X1 -- an accepted write copies [size] payload bytes to offset
    [addr - base] and changes nothing else: the storage keeps its
    length, every byte inside the written range is the payload byte and
    every byte outside it is what it was. *)
Theorem write_changes_exactly_its_range m w :
  is_u64 (base m) -> base m + storage_size m <= UINT64_MAX ->
  0 <= size w -> within_range m (addr w) (size w) ->
  isWrite w = true -> size w <= Z.of_nat (length (data w)) ->
  exists st',
    recvFunctional m w
      = Returns ({| base := base m; storage := st' |}, set_success true w) /\
    length st' = length (storage m) /\
    forall i : nat,
      st' !! i =
        if (Z.to_nat (addr w - base m) <=? i)%nat
           && (i <? Z.to_nat (addr w - base m + size w))%nat
        then data w !! (i - Z.to_nat (addr w - base m))%nat
        else storage m !! i.
Proof.
  intros Hb Hm Hs Hin Hw Hd.
  pose proof (guard_accepts m w Hb Hm Hs Hin) as Hg.
  pose proof (offset_small m w Hb Hm Hs Hin) as Hoff.
  destruct Hin as [Hlo Hhi].
  assert (Hnr : isRead w = false).
  { unfold isRead, isWrite in *. destruct (type w); congruence. }
  assert (Hlen : length (slice (data w) 0 (size w)) = Z.to_nat (size w))
    by (apply length_slice_prefix; lia).
  assert (Hfit : (Z.to_nat (addr w - base m) + length (slice (data w) 0 (size w))
                  <= length (storage m))%nat).
  { rewrite Hlen. unfold storage_size in *. lia. }
  eexists. split; [|split].
  - unfold recvFunctional. rewrite Hg, Hnr, Hw, Hoff.
    replace (size w <=? Z.of_nat (length (data w))) with true
      by (symmetry; apply Z.leb_le; lia).
    replace (addr w - base m + size w <=? storage_size m) with true
      by (symmetry; apply Z.leb_le; lia).
    reflexivity.
  - by apply MemoryProps.length_overwrite.
  - intros i. rewrite lookup_overwrite by assumption. rewrite Hlen.
    replace (Z.to_nat (addr w - base m) + Z.to_nat (size w))%nat
      with (Z.to_nat (addr w - base m + size w)) by lia.
    destruct (_ && _) eqn:Hrange; [|reflexivity].
    apply andb_true_iff in Hrange as [H1 H2].
    apply Nat.leb_le in H1. apply Nat.ltb_lt in H2.
    unfold slice. cbn. rewrite drop_0. apply lookup_take_lt. lia.
Qed.

Lemma write_changes_exactly_its_range_witness :
  let m := newSimpleMemory 16 8 in
  let w := set_data [Byte.x2a; Byte.x2b] (newMemoryRequest 1 Write 18 2) in
  exists st',
    recvFunctional m w
      = Returns ({| base := base m; storage := st' |}, set_success true w) /\
    length st' = length (storage m) /\
    forall i : nat,
      st' !! i =
        if (Z.to_nat (addr w - base m) <=? i)%nat
           && (i <? Z.to_nat (addr w - base m + size w))%nat
        then data w !! (i - Z.to_nat (addr w - base m))%nat
        else storage m !! i.
Proof.
  apply (write_changes_exactly_its_range
           (newSimpleMemory 16 8)
           (set_data [Byte.x2a; Byte.x2b] (newMemoryRequest 1 Write 18 2)));
    unfold is_u64, within_range, storage_size, UINT64_MAX; simpl;
    (lia || reflexivity).
Defined.

(** extra X2 -- whatever the request, a functional access that returns
    keeps the base address and the size of the memory; only a write can
    change a byte, only a read can change the payload, a refused request
    changes neither, and the identity, kind, address, size and
    [completed] flag of the request are never touched. *)
Theorem recvFunctional_preserves m req m' req' :
  0 <= size req ->
  recvFunctional m req = Returns (m', req') ->
  base m' = base m /\
  length (storage m') = length (storage m) /\
  (isWrite req = false -> m' = m) /\
  (isRead req = false -> data req' = data req) /\
  (isRead req = true -> success req' = true ->
   Z.of_nat (length (data req')) = size req) /\
  (success req' = false -> m' = m /\ data req' = data req) /\
  id req' = id req /\ type req' = type req /\ addr req' = addr req /\
  size req' = size req /\ completed req' = completed req.
Proof.
  intros Hs. unfold recvFunctional.
  destruct (guard_rejects m req).
  { intros [= <- <-]. cbn. repeat split; done. }
  destruct (isRead req) eqn:Hr.
  { destruct (_ <=? _) eqn:Hfit; [|discriminate].
    intros [= <- <-]. cbn. apply Z.leb_le in Hfit.
    repeat split; try done.
    intros _ _. unfold slice. rewrite length_take, length_drop.
    unfold storage_size in Hfit.
    assert (0 <= u64 (addr req - base m)) by apply u64_range. lia. }
  destruct (isWrite req) eqn:Hw.
  { destruct (_ && _) eqn:Hfit; [|discriminate].
    intros [= <- <-]. cbn. apply andb_true_iff in Hfit as [Hd Hfit].
    apply Z.leb_le in Hd. apply Z.leb_le in Hfit.
    assert (0 <= u64 (addr req - base m)) by apply u64_range.
    repeat split; try done.
    apply MemoryProps.length_overwrite.
    rewrite length_slice_prefix by lia. unfold storage_size in Hfit. lia. }
  intros [= <- <-]. cbn. repeat split; try done.
Qed.

Lemma recvFunctional_preserves_witness :
  let m := newSimpleMemory 16 8 in
  let r := newMemoryRequest 2 Read 18 4 in
  exists m' req',
    recvFunctional m r = Returns (m', req') /\
    base m' = base m /\ length (storage m') = length (storage m) /\
    m' = m /\ Z.of_nat (length (data req')) = size r.
Proof.
  eexists _, _. split; [reflexivity|].
  pose proof (recvFunctional_preserves
                (newSimpleMemory 16 8) (newMemoryRequest 2 Read 18 4) _ _
                ltac:(simpl; lia) eq_refl)
    as (Hb & Hl & Hm & _ & Hd & _).
  split; [exact Hb|]. split; [exact Hl|]. split; [exact (Hm eq_refl)|].
  exact (Hd eq_refl eq_refl).
Defined.

(** extra X3 -- the constructor sizes the payload for [Write] only.  A
    freshly constructed [Write] request inside the range zero-fills its
    range; a freshly constructed [WriteInvalidate] request of one byte
    or more, which [isWrite()] accepts as well, makes [recvFunctional]
    copy from an empty payload, which has no defined result. *)
Theorem fresh_write_requests m reqId a n :
  is_u64 (base m) -> base m + storage_size m <= UINT64_MAX ->
  0 < n -> within_range m a n ->
  (exists st',
     recvFunctional m (newMemoryRequest reqId Write a n)
       = Returns ({| base := base m; storage := st' |},
                  set_success true (newMemoryRequest reqId Write a n)) /\
     forall i : nat,
       (Z.to_nat (a - base m) <= i < Z.to_nat (a - base m + n))%nat ->
       st' !! i = Some Byte.x00) /\
  isWrite (newMemoryRequest reqId WriteInvalidate a n) = true /\
  data (newMemoryRequest reqId WriteInvalidate a n) = [] /\
  recvFunctional m (newMemoryRequest reqId WriteInvalidate a n)
    = UndefinedBehaviour.
Proof.
  intros Hb Hm Hn Hin. split; [|split; [reflexivity|split; [reflexivity|]]].
  - set (w := newMemoryRequest reqId Write a n).
    assert (Hd : size w <= Z.of_nat (length (data w))).
    { unfold w. cbn. rewrite length_replicate. lia. }
    destruct (write_changes_exactly_its_range m w Hb Hm) as (st' & Hrun & _ & Hst);
      [unfold w; cbn; lia | exact Hin | reflexivity | exact Hd |].
    exists st'. split; [exact Hrun|].
    intros i Hi. rewrite Hst. unfold w. cbn [addr size data newMemoryRequest].
    replace (Z.to_nat (a - base m) <=? i)%nat with true
      by (symmetry; apply Nat.leb_le; lia).
    replace (i <? Z.to_nat (a - base m + n))%nat with true
      by (symmetry; apply Nat.ltb_lt; lia).
    cbn [andb]. apply lookup_replicate_2. lia.
  - set (w := newMemoryRequest reqId WriteInvalidate a n).
    pose proof (guard_accepts m w Hb Hm ltac:(unfold w; cbn; lia) Hin) as Hg.
    unfold recvFunctional. rewrite Hg. unfold w. cbn.
    replace (n <=? Z.of_nat 0) with false by (symmetry; apply Z.leb_gt; lia).
    reflexivity.
Qed.

Lemma fresh_write_requests_witness :
  let m := newSimpleMemory 16 8 in
  recvFunctional m (newMemoryRequest 3 WriteInvalidate 18 2) = UndefinedBehaviour.
Proof.
  apply (fresh_write_requests (newSimpleMemory 16 8) 3 18 2);
    unfold is_u64, within_range, storage_size, UINT64_MAX; simpl; lia.
Defined.

(** extra X4 -- the range [getAddressRange] reports is the range the
    guard accepts: when the end of the memory is a 64-bit value, a
    request that is not a write comes back successful exactly when
    [start <= addr] and [addr + size <= end], and [end - start] is the
    storage size. *)
Theorem getAddressRange_is_the_accepted_range m req :
  is_u64 (base m) -> base m + storage_size m <= UINT64_MAX ->
  is_u64 (addr req) -> 0 <= size req -> addr req + size req <= UINT64_MAX ->
  isWrite req = false ->
  let '(start, end_) := getAddressRange m in
  end_ - start = storage_size m /\
  exists m' req',
    recvFunctional m req = Returns (m', req') /\
    (success req' = true <-> start <= addr req /\ addr req + size req <= end_).
Proof.
  intros Hb Hm Ha Hs Hn Hw. unfold getAddressRange.
  assert (HS : 0 <= storage_size m) by (unfold storage_size; lia).
  rewrite u64_small by (unfold is_u64 in *; lia).
  split; [lia|].
  destruct (guard_rejects m req) eqn:Hg.
  - pose proof Hg as Hout.
    apply MemoryProps.guard_rejects_spec in Hout; try assumption.
    eexists _, _. unfold recvFunctional. rewrite Hg. split; [reflexivity|].
    cbn. unfold within_range in Hout. split; [discriminate|tauto].
  - assert (Hin : within_range m (addr req) (size req)).
    { destruct (Z.lt_ge_cases (addr req) (base m)) as [Hlt|Hge].
      - exfalso. assert (Ht : guard_rejects m req = true); [|congruence].
        apply MemoryProps.guard_rejects_spec; try assumption.
        unfold within_range. lia.
      - destruct (Z.le_gt_cases (addr req + size req) (base m + storage_size m))
          as [Hle|Hgt]; [split; assumption|].
        exfalso. assert (Ht : guard_rejects m req = true); [|congruence].
        apply MemoryProps.guard_rejects_spec; try assumption.
        unfold within_range. lia. }
    pose proof (offset_small m req Hb Hm Hs Hin) as Hoff.
    unfold recvFunctional. rewrite Hg, Hw, Hoff.
    destruct Hin as [Hlo Hhi].
    replace (addr req - base m + size req <=? storage_size m) with true
      by (symmetry; apply Z.leb_le; lia).
    destruct (isRead req); eexists _, _; (split; [reflexivity|]); cbn;
      (split; [intros _; split; assumption | reflexivity]).
Qed.

Lemma getAddressRange_is_the_accepted_range_witness :
  let m := newSimpleMemory 16 8 in
  let req := newMemoryRequest 4 Read 20 8 in
  let '(start, end_) := getAddressRange m in
  end_ - start = storage_size m /\
  exists m' req',
    recvFunctional m req = Returns (m', req') /\
    (success req' = true <-> start <= addr req /\ addr req + size req <= end_).
Proof.
  apply (getAddressRange_is_the_accepted_range
           (newSimpleMemory 16 8) (newMemoryRequest 4 Read 20 8));
    unfold is_u64, storage_size, UINT64_MAX; simpl; (lia || reflexivity).
Defined.

End MemoryFrameProps.

(** ** Gem5MemoryPort: the pending map, responses and retries *)

Module PortResponseProps.
Import Memory Port PortResponse.

Lemma erase_other k (m : list (nat * ReqPtr)) :
  Forall (fun kv => fst kv <> k) m -> erase k m = m.
Proof.
  unfold erase. induction m as [|[k' r] m IH]; intros H; [reflexivity|].
  inversion H as [|? ? Hk Hm]; subst. cbn in Hk.
  rewrite filter_cons_True.
  - by rewrite IH.
  - cbn. apply negb_prop_intro. intros Heq. apply Is_true_true in Heq.
    apply Nat.eqb_eq in Heq. done.
Qed.

Lemma erase_last k r (m : list (nat * ReqPtr)) :
  Forall (fun kv => fst kv <> k) m -> erase k (m ++ [(k, r)]) = m.
Proof.
  intros H. unfold erase. rewrite filter_app. fold (erase k m).
  rewrite erase_other by assumption.
  rewrite filter_cons_False, filter_nil, app_nil_r; [reflexivity|].
  cbn. rewrite Nat.eqb_refl. cbn. tauto.
Qed.

Lemma find_last k r (m : list (nat * ReqPtr)) :
  Forall (fun kv => fst kv <> k) m -> find k (m ++ [(k, r)]) = Some r.
Proof.
  induction m as [|[k' r'] m IH]; intros H; cbn.
  - by rewrite Nat.eqb_refl.
  - inversion H as [|? ? Hk Hm]; subst. cbn in Hk.
    destruct (Nat.eqb_spec k' k); [done|]. by apply IH.
Qed.

Lemma fresh_other p :
  pending_fresh p ->
  Forall (fun kv => fst kv <> next_packet p) (pendingRequests p).
Proof.
  unfold pending_fresh. intros H. eapply Forall_impl; [exact H|].
  cbn. intros kv Hkv. lia.
Qed.

Lemma pending_fresh_new (q : list ReqPtr) (b : bool) :
  pending_fresh (set_retryQueue q (set_stalled b newPort)).
Proof. constructor. Qed.

Section AnyDownstream.
Variable D : Type.
Variable port_sendTimingReq : D -> Packet -> bool * D.
Variable curTick : Z.

(** What one [sendTimingRequest] does to the pending map. *)
Lemma send_pending p d req p' d' ok :
  pending_fresh p ->
  sendTimingRequest D port_sendTimingReq curTick p d req = (p', d', ok) ->
  pending_fresh p' /\
  ok = negb (stalled p') /\
  pendingRequests p'
    = (if ok then pendingRequests p ++ [(next_packet p, req)]
       else pendingRequests p).
Proof.
  intros Hf. unfold sendTimingRequest.
  destruct (stalled p) eqn:Hs.
  { intros [= <- <- <-]. by rewrite Hs. }
  cbn. destruct (port_sendTimingReq d _) as [[] d1]; cbn; intros [= <- <- <-]; cbn.
  - split; [|by rewrite Hs].
    unfold pending_fresh. cbn. apply Forall_app. split.
    + eapply Forall_impl; [exact Hf|]. cbn. intros. lia.
    + constructor; [cbn; lia | constructor].
  - pose proof (erase_last (next_packet p) req (pendingRequests p)
                  (fresh_other p Hf)) as He.
    unfold erase in He. unfold pending_fresh. cbn. rewrite He.
    split; [|done].
    eapply Forall_impl; [exact Hf|]. cbn. intros. lia.
Qed.

(** The loop of [handleRetry], entered with the port ready: it leaves
    the port ready with an empty queue, or stalled with the refused
    request queued last. *)
Lemma retry_loop_outcome fuel : forall p d,
  stalled p = false -> (length (retryQueue p) <= fuel)%nat ->
  pending_fresh p ->
  let '(p', d') := retry_loop D port_sendTimingReq curTick fuel p d in
  pending_fresh p' /\
  (length (retryQueue p') <= length (retryQueue p))%nat /\
  ((stalled p' = false /\ retryQueue p' = [])
   \/ (stalled p' = true /\
       exists tried r, retryQueue p = tried ++ r :: removelast (retryQueue p')
                       /\ retryQueue p' = removelast (retryQueue p') ++ [r])).
Proof.
  induction fuel as [|fuel IH]; intros p d Hs Hlen Hf.
  - cbn. destruct (retryQueue p) eqn:Hq; [|cbn in Hlen; lia].
    split; [done|]. split; [cbn; lia|]. by left.
  - destruct (retryQueue p) as [|req rest] eqn:Hq.
    { cbn. rewrite Hq. split; [done|]. split; [rewrite Hq; cbn; lia|]. by left. }
    rewrite (PortProps.retry_loop_cons D port_sendTimingReq curTick fuel p d req rest Hq).
    destruct (sendTimingRequest D port_sendTimingReq curTick
                (set_retryQueue rest p) d req) as [[p2 d2] ok] eqn:Hsend.
    pose proof (send_pending (set_retryQueue rest p) d req p2 d2 ok Hf Hsend)
      as (Hf2 & Hok & _).
    destruct ok; cbn [negb].
    + pose proof (PortProps.sendTimingRequest_accepted_queue
                    D port_sendTimingReq curTick _ _ _ _ _ Hsend) as Hq2.
      cbn in Hq2.
      specialize (IH p2 d2).
      destruct (retry_loop D port_sendTimingReq curTick fuel p2 d2) as [p' d'].
      destruct IH as (Hf' & Hl' & Hcase).
      * destruct (stalled p2); [discriminate|reflexivity].
      * rewrite Hq2. cbn in Hlen. lia.
      * assumption.
      * split; [assumption|]. split; [rewrite Hq2 in Hl'; cbn; lia|].
        destruct Hcase as [Hready | (Hst & tried & r & Htried & Hlast)]; [by left|].
        right. split; [assumption|]. exists (req :: tried), r.
        split; [|assumption]. rewrite Hq2 in Htried. cbn. by rewrite Htried.
    + split; [assumption|].
      unfold sendTimingRequest in Hsend. cbn in Hsend. rewrite Hs in Hsend.
      destruct (port_sendTimingReq d _) as [[] d1]; cbn in Hsend; [discriminate|].
      injection Hsend as <- <-. cbn.
      split; [rewrite length_app; cbn; lia|].
      right. split; [reflexivity|]. exists [], req.
      rewrite removelast_last. done.
Qed.

End AnyDownstream.

(** extra X5 -- for every peer, [sendTimingRequest] returns true exactly
    when it leaves the port ready; an accepted request adds one entry
    (its packet and itself) to the pending map, and a refused request
    leaves the pending map exactly as it was, with no packet of a later
    [new] in it. *)
Theorem sendTimingRequest_bookkeeping (D : Type) (peer : D -> Packet -> bool * D)
    (tick : Z) p d req :
  pending_fresh p ->
  let '(p', d', ok) := sendTimingRequest D peer tick p d req in
  pending_fresh p' /\
  ok = isReady p' /\
  (ok = true ->
   pendingRequests p' = pendingRequests p ++ [(next_packet p, req)] /\
   find (next_packet p) (pendingRequests p') = Some req) /\
  (ok = false -> pendingRequests p' = pendingRequests p).
Proof.
  intros Hf.
  destruct (sendTimingRequest D peer tick p d req) as [[p' d'] ok] eqn:Hsend.
  destruct (send_pending D peer tick p d req p' d' ok Hf Hsend) as (Hf' & Hok & Hp).
  split; [assumption|]. split; [assumption|]. split.
  - intros ->. split; [assumption|]. rewrite Hp. apply find_last.
    by apply fresh_other.
  - intros ->. assumption.
Qed.

Lemma sendTimingRequest_bookkeeping_witness :
  let '(p', d', ok) := send_s newPort {| answers := [false]; offered := [] |} 7%nat in
  pending_fresh p' /\ ok = isReady p' /\
  (ok = false -> pendingRequests p' = pendingRequests newPort).
Proof.
  pose proof (sendTimingRequest_bookkeeping Scripted scripted_sendTimingReq 0
                newPort {| answers := [false]; offered := [] |} 7%nat
                (pending_fresh_new [] false)) as H.
  cbn in H. cbn. destruct H as (H1 & H2 & _ & H4). auto.
Defined.

(** extra X6 -- for every peer and every port state, a retry
    notification ends with the port either ready with an empty retry
    queue, or stalled with the request the peer refused queued last
    behind the requests that were never offered; the queue never grows,
    and more loop iterations than the queue is long change nothing. *)
Theorem handleRetry_outcome (D : Type) (peer : D -> Packet -> bool * D)
    (tick : Z) p d :
  pending_fresh p ->
  (forall fuel, (length (retryQueue p) <= fuel)%nat ->
     retry_loop D peer tick fuel (set_stalled false p) d
     = handleRetry D peer tick p d) /\
  let '(p', d') := handleRetry D peer tick p d in
  pending_fresh p' /\
  isReady p' = match retryQueue p' with [] => true | _ => false end /\
  (length (retryQueue p') <= length (retryQueue p))%nat /\
  (isStalled p' = true ->
   exists tried r unoffered,
     retryQueue p = tried ++ r :: unoffered /\
     retryQueue p' = unoffered ++ [r]).
Proof.
  intros Hf. split.
  - intros fuel Hfuel. unfold handleRetry.
    by rewrite PortProps.retry_loop_fuel.
  - unfold handleRetry.
    pose proof (retry_loop_outcome D peer tick (length (retryQueue p))
                  (set_stalled false p) d eq_refl (Nat.le_refl _) Hf) as H.
    destruct (retry_loop D peer tick _ _ d) as [p' d'].
    destruct H as (Hf' & Hl & Hcase). cbn in Hl, Hcase.
    split; [assumption|]. unfold isReady, isStalled.
    destruct Hcase as [[Hs Hq] | (Hs & tried & r & Htried & Hlast)].
    + rewrite Hs, Hq. cbn. split; [done|]. split; [lia|]. discriminate.
    + rewrite Hs. split.
      * rewrite Hlast. by destruct (removelast (retryQueue p')).
      * split; [assumption|]. intros _. eauto.
Qed.

Lemma handleRetry_outcome_witness :
  let p := set_retryQueue [3%nat] (set_stalled true newPort) in
  let '(p', d') := handleRetry_s p {| answers := [false]; offered := [] |} in
  pending_fresh p' /\
  isReady p' = match retryQueue p' with [] => true | _ => false end.
Proof.
  pose proof (handleRetry_outcome Scripted scripted_sendTimingReq 0
                (set_retryQueue [3%nat] (set_stalled true newPort))
                {| answers := [false]; offered := [] |}
                (pending_fresh_new [3%nat] true))
    as [_ H].
  cbn in H. cbn. destruct H as (H1 & H2 & _). auto.
Defined.




End PortResponseProps.

(** ** StallBreakdown: the counters over a run *)

Module StallRunProps.
Import Enums Stall StallRun.

Lemma at_index_incr_at a i j :
  (i < length a)%nat ->
  at_index (incr_at a i) j
  = if Nat.eqb i j then u64 (at_index a i + 1) else at_index a j.
Proof.
  intros Hi. unfold incr_at, at_index at 1.
  destruct (Nat.eqb_spec i j) as [->|Hne].
  - by rewrite list_lookup_insert_eq.
  - by rewrite list_lookup_insert_ne.
Qed.

Lemma total_of_insert a : forall i x,
  (i < length a)%nat ->
  total_of (<[i := x]> a) = total_of a - at_index a i + x.
Proof.
  induction a as [|y a IH]; intros i x Hi; [cbn in Hi; lia|].
  destruct i as [|i].
  - change (x + total_of a = y + total_of a - y + x). lia.
  - change (y + total_of (<[i := x]> a) = y + total_of a - at_index a i + x).
    rewrite IH by (cbn in Hi; lia). lia.
Qed.

Lemma at_index_le_total a i :
  Forall (fun x => 0 <= x) a -> 0 <= at_index a i <= total_of a.
Proof.
  intros H. revert i. induction H as [|y a Hy Ha IH]; intros i.
  - unfold at_index. by destruct i.
  - destruct i as [|i].
    + change (0 <= y <= y + total_of a). pose proof (IH 0%nat). lia.
    + change (0 <= at_index a i <= y + total_of a). pose proof (IH i). lia.
Qed.

Lemma counted_reset : counted 0 reset.
Proof.
  unfold counted. cbn. repeat split; try lia.
  repeat (constructor; [lia|]). constructor.
Qed.

Lemma counted_recordStall n s c :
  counted n s -> n < UINT64_MAX -> counted (n + 1) (recordStall c s).
Proof.
  intros (Hlen & Hpos & Htot & Hcyc & Hs0 & Hsm & Hmn & He0 & Hes) Hn.
  pose proof (StallProps.cause_index_bound c) as Hc.
  pose proof (at_index_le_total (by_cause s) (cause_index c) Hpos) as Hle.
  assert (Hu : u64 (at_index (by_cause s) (cause_index c) + 1)
               = at_index (by_cause s) (cause_index c) + 1).
  { apply u64_small. unfold is_u64. lia. }
  assert (Hstreak : u64 (current_stall_streak s + 1) = current_stall_streak s + 1).
  { apply u64_small. unfold is_u64. lia. }
  unfold counted. cbn. rewrite Hstreak.
  split; [unfold incr_at; by rewrite length_insert|].
  split.
  { unfold incr_at. apply Forall_insert; [assumption|]. rewrite Hu. lia. }
  split.
  { unfold incr_at. rewrite total_of_insert by (rewrite Hlen; exact Hc).
    rewrite Hu. lia. }
  split; [rewrite u64_small; unfold is_u64; lia|].
  repeat split; lia.
Qed.

Lemma counted_recordNoStall n s :
  counted n s -> n <= UINT64_MAX -> counted n (recordNoStall s).
Proof.
  intros (Hlen & Hpos & Htot & Hcyc & Hs0 & Hsm & Hmn & He0 & Hes) Hn.
  unfold counted. cbn.
  repeat split; try assumption; try lia.
  - destruct (Z.gtb_spec (current_stall_streak s) 0); [|assumption].
    rewrite u64_small; unfold is_u64; lia.
  - destruct (Z.gtb_spec (current_stall_streak s) 0); [|lia].
    rewrite u64_small; unfold is_u64; lia.
Qed.

Lemma stalled_cycles_cons r rs :
  stalled_cycles (r :: rs)
  = (if is_stalled r then 1 else 0) + stalled_cycles rs.
Proof.
  unfold stalled_cycles. destruct r; cbn [is_stalled].
  - rewrite filter_cons_True by done. cbn [length]. lia.
  - rewrite filter_cons_False by (cbn; tauto). lia.
Qed.

Lemma stalled_cycles_nonneg rs : 0 <= stalled_cycles rs.
Proof. unfold stalled_cycles. lia. Qed.

Lemma counted_recordAll rs : forall n s,
  counted n s -> n + stalled_cycles rs <= UINT64_MAX ->
  counted (n + stalled_cycles rs) (recordAll rs s).
Proof.
  induction rs as [|r rs IH]; intros n s Hc Hn.
  - cbn. unfold stalled_cycles. cbn. by rewrite Z.add_0_r.
  - rewrite stalled_cycles_cons in *.
    pose proof (stalled_cycles_nonneg rs).
    cbn [recordAll fold_left]. fold (recordAll rs (record s r)).
    destruct r as [c|]; cbn [is_stalled record] in *.
    + rewrite Z.add_assoc. apply IH; [|lia].
      apply counted_recordStall; [assumption|lia].
    + rewrite Z.add_0_l in *. apply IH; [|lia].
      apply counted_recordNoStall; [assumption|lia].
Qed.

Lemma stalled_for_cons c r rs :
  stalled_for c (r :: rs)
  = (if is_stalled_for c r then 1 else 0) + stalled_for c rs.
Proof.
  unfold stalled_for. destruct (is_stalled_for c r) eqn:E.
  - rewrite filter_cons_True by (by rewrite E). cbn [length]. lia.
  - rewrite filter_cons_False by (rewrite E; cbn; tauto). lia.
Qed.

(** The counter of one cause follows the reports for that cause. *)
Lemma count_of_recordAll c rs : forall s,
  length (by_cause s) = STALL_CAUSE_COUNT ->
  0 <= count_of s c -> count_of s c + stalled_for c rs <= UINT64_MAX ->
  count_of (recordAll rs s) c = count_of s c + stalled_for c rs.
Proof.
  induction rs as [|r rs IH]; intros s Hlen H0 Hmax.
  - unfold stalled_for. cbn. lia.
  - cbn [recordAll fold_left]. fold (recordAll rs (record s r)).
    rewrite stalled_for_cons in *.
    assert (0 <= stalled_for c rs) by (unfold stalled_for; lia).
    destruct r as [c'|]; cbn [record is_stalled_for] in *.
    + assert (Hstep : count_of (recordStall c' s) c
                      = count_of s c
                        + (if Nat.eqb (cause_index c') (cause_index c) then 1 else 0)).
      { unfold count_of. cbn [by_cause recordStall].
        rewrite at_index_incr_at by (rewrite Hlen; apply StallProps.cause_index_bound).
        destruct (Nat.eqb_spec (cause_index c') (cause_index c)) as [->|]; [|lia].
        unfold count_of in *. apply u64_small. unfold is_u64. lia. }
      rewrite IH; rewrite ?Hstep.
      * lia.
      * cbn. unfold incr_at. by rewrite length_insert.
      * destruct (Nat.eqb _ _); lia.
      * destruct (Nat.eqb _ _); lia.
    + assert (Hstep : count_of (recordNoStall s) c = count_of s c) by reflexivity.
      rewrite IH; rewrite ?Hstep; try assumption; lia.
Qed.

Lemma stalled_for_le c rs : stalled_for c rs <= stalled_cycles rs.
Proof.
  induction rs as [|r rs IH]; [done|].
  rewrite stalled_for_cons, stalled_cycles_cons.
  destruct r as [c'|]; cbn [is_stalled_for is_stalled]; [|lia].
  destruct (Nat.eqb _ _); lia.
Qed.

(** extra X9 -- from [reset()], whatever stalled and non-stalled cycles
    are reported (fewer than 2^64 stalled ones), [total_stall_cycles] is
    the number of stalled cycles, the per-cause counters add up to it,
    each is the number of cycles reported for its cause, the current
    streak is at most the longest one, which is at most the total, and
    every finished stall episode and the running streak are accounted
    for in the total. *)
Theorem stall_counters_agree (rs : list Report) :
  stalled_cycles rs <= UINT64_MAX ->
  let s := recordAll rs reset in
  total_stall_cycles s = stalled_cycles rs /\
  total_of (by_cause s) = total_stall_cycles s /\
  (forall c, count_of s c = stalled_for c rs) /\
  0 <= current_stall_streak s <= max_consecutive_stalls s /\
  max_consecutive_stalls s <= total_stall_cycles s /\
  0 <= stall_events s /\
  stall_events s + current_stall_streak s <= total_stall_cycles s.
Proof.
  intros Hmax s.
  pose proof (counted_recordAll rs 0 reset counted_reset ltac:(lia)) as Hc.
  rewrite Z.add_0_l in Hc. fold s in Hc.
  destruct Hc as (Hlen & Hpos & Htot & Hcyc & Hs0 & Hsm & Hmn & He0 & Hes).
  repeat split; try lia.
  intros c. unfold s.
  pose proof (stalled_for_le c rs) as Hle.
  assert (Hz : count_of reset c = 0) by (by destruct c).
  assert (0 <= stalled_for c rs) by (unfold stalled_for; lia).
  rewrite count_of_recordAll; rewrite ?Hz; try lia. reflexivity.
Qed.

Lemma stall_counters_agree_witness :
  let rs := [Stalled RAW_HAZARD; Stalled RAW_HAZARD; Advanced;
             Stalled MEMORY_LATENCY] in
  let s := recordAll rs reset in
  total_stall_cycles s = 3 /\ total_of (by_cause s) = 3 /\
  count_of s RAW_HAZARD = 2 /\ stall_events s + current_stall_streak s <= 3.
Proof.
  pose proof (stall_counters_agree
                [Stalled RAW_HAZARD; Stalled RAW_HAZARD; Advanced;
                 Stalled MEMORY_LATENCY]
                ltac:(vm_compute; discriminate)) as H.
  cbv zeta in H. destruct H as (H1 & H2 & H3 & _ & _ & _ & H7).
  cbv zeta. rewrite H2, H1. split; [reflexivity|]. split; [reflexivity|].
  split; [exact (H3 RAW_HAZARD)|].
  rewrite H1 in H7. exact H7.
Defined.

End StallRunProps.

(** ** StallBreakdown: what the bottleneck string can tell *)

Module BottleneckProps.
Import Enums Stall StallRun.

(** A cause whose counter is strictly above every other one is the
    dominant cause. *)
Lemma strict_maximum_is_dominant s c :
  c <> NONE -> 0 < count_of s c ->
  (forall c', c' <> NONE -> c' <> c -> count_of s c' < count_of s c) ->
  getDominantCause s = c.
Proof.
  intros Hc Hpos Hmax.
  destruct (StallProps.getDominantCause_inv s) as (m & Hle & Hcase).
  pose proof (StallProps.cause_index_bound c) as Hcb.
  apply StallProps.cause_index_NONE in Hc.
  assert (Hcm : count_of s c <= m) by (apply Hle; lia).
  destruct Hcase as [[-> _] | (Hm & j & Hj & -> & Hat & _)]; [lia|].
  destruct (Nat.eq_dec j (cause_index c)) as [->|Hne].
  - apply StallProps.cause_of_index_index.
  - exfalso.
    assert (Hlt : count_of s (cause_of_index j) < count_of s c).
    { apply Hmax.
      - apply StallProps.cause_index_NONE.
        rewrite StallProps.cause_index_of_index; lia.
      - intros Heq. apply Hne. rewrite <- Heq.
        rewrite StallProps.cause_index_of_index; lia. }
    unfold count_of in Hlt at 1.
    rewrite StallProps.cause_index_of_index in Hlt by lia. lia.
Qed.

(** extra X10 -- [getDominantBottleneck] answers "none" exactly when the
    dominant cause is [NONE], [WAW_HAZARD] or [WAR_HAZARD]: a breakdown
    whose highest counter is that of write-after-write or
    write-after-read hazards reports the bottleneck "none" although
    cycles were stalled. *)
Theorem bottleneck_none_hides_hazards (s : StallBreakdown) :
  (getDominantBottleneck s = "none"%string <->
   getDominantCause s = NONE \/ getDominantCause s = WAW_HAZARD
   \/ getDominantCause s = WAR_HAZARD) /\
  (forall c, c = WAW_HAZARD \/ c = WAR_HAZARD ->
     0 < count_of s c ->
     (forall c', c' <> NONE -> c' <> c -> count_of s c' < count_of s c) ->
     getDominantCause s = c /\ getDominantBottleneck s = "none"%string).
Proof.
  split.
  - unfold getDominantBottleneck.
    destruct (getDominantCause s); split; intros H; try reflexivity;
      try discriminate; try tauto;
      destruct H as [H|[H|H]]; discriminate.
  - intros c Hc Hpos Hmax.
    assert (Hd : getDominantCause s = c).
    { apply strict_maximum_is_dominant; try assumption.
      destruct Hc as [-> | ->]; discriminate. }
    split; [assumption|]. unfold getDominantBottleneck. rewrite Hd.
    by destruct Hc as [-> | ->].
Qed.

Lemma bottleneck_none_hides_hazards_witness :
  let s := recordAll [Stalled WAW_HAZARD; Stalled WAW_HAZARD; Stalled RAW_HAZARD]
             reset in
  total_stall_cycles s = 3 /\
  getDominantCause s = WAW_HAZARD /\ getDominantBottleneck s = "none"%string.
Proof.
  split; [reflexivity|].
  apply (bottleneck_none_hides_hazards
           (recordAll [Stalled WAW_HAZARD; Stalled WAW_HAZARD; Stalled RAW_HAZARD]
              reset)).
  - left. reflexivity.
  - vm_compute. reflexivity.
  - intros c' Hn Hc. destruct c'; vm_compute; congruence.
Defined.

(** extra X11 -- the name tables are injective: two stall causes, two
    functional-unit types or two memory access types never share a
    name, so the JSON objects keyed by these names have no duplicate
    key. *)
Theorem names_are_distinct :
  (forall a b, getStallCauseName a = getStallCauseName b -> a = b) /\
  (forall a b, FUUtil.getFUTypeName a = FUUtil.getFUTypeName b -> a = b) /\
  (forall a b, MemAccess.getMemAccessTypeName a = MemAccess.getMemAccessTypeName b
               -> a = b).
Proof.
  split; [|split]; intros a b; destruct a, b; cbn; intros H;
    first [reflexivity | discriminate H].
Qed.

End BottleneckProps.

(** ** Functional-unit contention *)

Module FUUtilProps.
Import Enums Stall StallRun FUUtil.

Lemma fu_of_index_index t : fu_of_index (fu_index t) = t.
Proof. by destruct t. Qed.

Lemma fu_index_bound t : (fu_index t < FU_TYPE_COUNT)%nat.
Proof. unfold FU_TYPE_COUNT. destruct t; cbn; lia. Qed.

Lemma fu_index_of_index i :
  (i < FU_TYPE_COUNT)%nat -> fu_index (fu_of_index i) = i.
Proof.
  unfold FU_TYPE_COUNT. intros H.
  do 13 (destruct i as [|i]; [reflexivity|]). lia.
Qed.

Lemma most_contended_step_inv u k acc :
  most_contended_inv u k acc ->
  most_contended_inv u (S k) (most_contended_step u acc k).
Proof.
  destruct acc as [t m]. intros (Hle & Hcase). unfold most_contended_step.
  destruct (Z.gtb_spec (contention_at u k) m) as [Hgt|Hngt].
  - split.
    + intros i Hi. destruct (Nat.eq_dec i k) as [->|]; [lia|].
      specialize (Hle i). lia.
    + right. split.
      * destruct Hcase as [[-> _]|[? _]]; lia.
      * exists k. split; [lia|]. split; [reflexivity|]. split; [reflexivity|].
        intros i Hi. specialize (Hle i). lia.
  - split.
    + intros i Hi. destruct (Nat.eq_dec i k) as [->|]; [lia|].
      apply Hle. lia.
    + destruct Hcase as [Hz | (Hm & j & Hj & Ht & Hat & Hlow)]; [by left|].
      right. split; [assumption|]. exists j. repeat split; try assumption. lia.
Qed.

Lemma most_contended_fold_inv u n : forall lo acc,
  most_contended_inv u lo acc ->
  most_contended_inv u (lo + n) (fold_left (most_contended_step u) (seq lo n) acc).
Proof.
  induction n as [|n IH]; intros lo acc H; cbn.
  - by rewrite Nat.add_0_r.
  - replace (lo + S n)%nat with (S lo + n)%nat by lia.
    apply IH. by apply most_contended_step_inv.
Qed.

Lemma getMostContentedFU_inv u :
  exists m, most_contended_inv u FU_TYPE_COUNT (getMostContentedFU u, m).
Proof.
  unfold getMostContentedFU.
  pose proof (most_contended_fold_inv u FU_TYPE_COUNT 0 (FU_TYPE_OTHER, 0)) as H.
  destruct (fold_left _ _ _) as [t m]. exists m. apply H.
  split; [intros i Hi; lia|]. by left.
Qed.

(** extra X12 -- [getMostContentedFU] answers [FU_TYPE_OTHER] when no
    type has a contention stall; otherwise it answers a type whose
    [contention_stalls] is the maximum, the one declared first among
    equals.  So the answer [FU_TYPE_OTHER] (printed "other") does not
    tell an engine without contention from one whose OTHER units are the
    most contended. *)
Theorem getMostContentedFU_spec (u : FUUtilizationStats) :
  ((forall t, contention_at u (fu_index t) <= 0) ->
   getMostContentedFU u = FU_TYPE_OTHER) /\
  ((exists t, 0 < contention_at u (fu_index t)) ->
   0 < contention_at u (fu_index (getMostContentedFU u)) /\
   (forall t, contention_at u (fu_index t)
              <= contention_at u (fu_index (getMostContentedFU u))) /\
   (forall t, contention_at u (fu_index t)
              = contention_at u (fu_index (getMostContentedFU u)) ->
              (fu_index (getMostContentedFU u) <= fu_index t)%nat)).
Proof.
  destruct (getMostContentedFU_inv u) as (m & Hle & Hcase).
  split.
  - intros Hnone.
    destruct Hcase as [[_ ->] | (Hm & j & Hj & _ & Hat & _)]; [reflexivity|].
    exfalso. specialize (Hnone (fu_of_index j)).
    rewrite fu_index_of_index in Hnone by assumption. lia.
  - intros (t & Ht).
    pose proof (fu_index_bound t) as Hb.
    destruct Hcase as [[-> _] | (Hm & j & Hj & -> & Hat & Hlow)].
    { specialize (Hle (fu_index t) Hb). lia. }
    rewrite fu_index_of_index by assumption. rewrite Hat.
    split; [assumption|]. split.
    + intros t'. apply Hle. apply fu_index_bound.
    + intros t' Heq.
      destruct (Nat.le_gt_cases j (fu_index t')) as [|Hlt]; [assumption|].
      specialize (Hlow (fu_index t') Hlt). lia.
Qed.

Lemma getMostContentedFU_spec_witness :
  let u := fst (recordFUContention FU_TYPE_GEP (FUUtil.reset, Stall.reset)) in
  getMostContentedFU FUUtil.reset = FU_TYPE_OTHER /\
  0 < contention_at u (fu_index (getMostContentedFU u)) /\
  getMostContentedFU u = FU_TYPE_GEP.
Proof.
  split; [|split].
  - apply (getMostContentedFU_spec FUUtil.reset).
    intros t. destruct t; vm_compute; discriminate.
  - apply (getMostContentedFU_spec
             (fst (recordFUContention FU_TYPE_GEP (FUUtil.reset, Stall.reset)))).
    exists FU_TYPE_GEP. vm_compute. reflexivity.
  - reflexivity.
Defined.

(** [a[i]++] away from the top of the range: the array keeps its
    length, the entry and the sum go up by one. *)
Lemma incr_at_spec a i :
  (i < length a)%nat -> 0 <= at_index a i < UINT64_MAX ->
  length (incr_at a i) = length a /\
  at_index (incr_at a i) i = at_index a i + 1 /\
  total_of (incr_at a i) = total_of a + 1.
Proof.
  intros Hi Hr.
  assert (Hu : u64 (at_index a i + 1) = at_index a i + 1)
    by (apply u64_small; unfold is_u64; lia).
  split; [unfold incr_at; by rewrite length_insert|]. split.
  - rewrite StallRunProps.at_index_incr_at by assumption.
    by rewrite Nat.eqb_refl.
  - unfold incr_at. rewrite StallRunProps.total_of_insert by assumption.
    rewrite Hu. lia.
Qed.

(** extra X13 -- a stall reported through [recordFUStall] is counted
    twice under [FU_CONTENTION] but once in [total_stall_cycles], and a
    port stall reported through [recordPortContention] is counted under
    [PORT_CONTENTION] but not in [total_stall_cycles] nor in the streak:
    after either call on a breakdown whose per-cause counters added up
    to [total_stall_cycles], they are one above it. *)
Theorem contention_reports_outrun_the_total n (b : StallBreakdown)
    (u : FUUtilizationStats) (m : MemAccess.MemoryAccessStats)
    (type : FUType) (is_read : bool) :
  counted n b -> n + 2 <= UINT64_MAX ->
  (let b' := snd (recordFUStall type (u, b)) in
   count_of b' FU_CONTENTION = count_of b FU_CONTENTION + 2 /\
   total_stall_cycles b' = total_stall_cycles b + 1 /\
   total_of (by_cause b') = total_stall_cycles b' + 1) /\
  (let b' := snd (recordPortContention is_read (m, b)) in
   count_of b' PORT_CONTENTION = count_of b PORT_CONTENTION + 1 /\
   total_stall_cycles b' = total_stall_cycles b /\
   current_stall_streak b' = current_stall_streak b /\
   total_of (by_cause b') = total_stall_cycles b' + 1).
Proof.
  intros (Hlen & Hpos & Htot & Hcyc & Hs0 & Hsm & Hmn & He0 & Hes) Hn.
  assert (Hb1 : by_cause (snd (recordFUStall type (u, b)))
                = incr_at (incr_at (by_cause b) 5) 5) by reflexivity.
  assert (Ht1 : total_stall_cycles (snd (recordFUStall type (u, b)))
                = u64 (total_stall_cycles b + 1)) by reflexivity.
  assert (Hb2 : by_cause (snd (recordPortContention is_read (m, b)))
                = incr_at (by_cause b) 6) by reflexivity.
  assert (Ht2 : total_stall_cycles (snd (recordPortContention is_read (m, b)))
                = total_stall_cycles b) by reflexivity.
  assert (Hs2 : current_stall_streak (snd (recordPortContention is_read (m, b)))
                = current_stall_streak b) by reflexivity.
  cbv zeta. unfold count_of. rewrite Hb1, Ht1, Hb2, Ht2, Hs2.
  change (cause_index FU_CONTENTION) with 5%nat.
  change (cause_index PORT_CONTENTION) with 6%nat.
  assert (H5 : (5 < length (by_cause b))%nat)
    by (rewrite Hlen; unfold STALL_CAUSE_COUNT; lia).
  assert (H6 : (6 < length (by_cause b))%nat)
    by (rewrite Hlen; unfold STALL_CAUSE_COUNT; lia).
  pose proof (StallRunProps.at_index_le_total (by_cause b) 5 Hpos) as Hb5.
  pose proof (StallRunProps.at_index_le_total (by_cause b) 6 Hpos) as Hb6.
  rewrite (u64_small (total_stall_cycles b + 1)) by (unfold is_u64; lia).
  destruct (incr_at_spec (by_cause b) 5 H5 ltac:(lia)) as (Hl1 & Ha1 & Hs1).
  destruct (incr_at_spec (incr_at (by_cause b) 5) 5 ltac:(lia) ltac:(lia))
    as (_ & Ha1' & Hs1').
  destruct (incr_at_spec (by_cause b) 6 H6 ltac:(lia)) as (_ & Ha2 & Hs2').
  rewrite Ha1', Hs1', Ha1, Hs1, Ha2, Hs2'.
  repeat split; lia.
Qed.

Lemma contention_reports_outrun_the_total_witness :
  let b' := snd (recordFUStall FU_TYPE_GEP (FUUtil.reset, Stall.reset)) in
  count_of b' FU_CONTENTION = 2 /\ total_stall_cycles b' = 1 /\
  total_of (by_cause b') = total_stall_cycles b' + 1.
Proof.
  pose proof (contention_reports_outrun_the_total 0 Stall.reset FUUtil.reset
                MemAccess.initial FU_TYPE_GEP true StallRunProps.counted_reset
                ltac:(vm_compute; discriminate)) as [H _].
  exact H.
Defined.

End FUUtilProps.

(** ** MemoryAccessStats: cache counters, latencies and the heat map *)

Module MemAccessProps.
Import MemAccess.

Lemma u64_add_l a b : u64 (u64 a + b) = u64 (a + b).
Proof. unfold u64. apply Zplus_mod_idemp_l. Qed.

Lemma u64_add_r a b : u64 (a + u64 b) = u64 (a + b).
Proof. unfold u64. apply Zplus_mod_idemp_r. Qed.

Lemma u64_idem a : u64 (u64 a) = u64 a.
Proof. unfold u64. apply Zmod_mod. Qed.

Lemma cache_access_agree is_write cache_hit m :
  cache_counters_agree m -> cache_counters_agree (cache_access is_write cache_hit m).
Proof.
  intros [Hh Hm]. unfold cache_counters_agree.
  destruct is_write, cache_hit; cbn; rewrite ?Hh, ?Hm, ?u64_add_l, ?u64_add_r;
    split; try reflexivity; f_equal; lia.
Qed.

Lemma cache_access_total is_write cache_hit m :
  u64 (cache_hits (cache_access is_write cache_hit m)
       + cache_misses (cache_access is_write cache_hit m))
  = u64 (cache_hits m + cache_misses m + 1).
Proof.
  destruct is_write, cache_hit; cbn; rewrite ?u64_add_l, ?u64_add_r; f_equal; lia.
Qed.

Lemma record_moved a m :
  address_granularity m <> 0 -> cache_counters_agree m ->
  exists m', record a m = Returns m' /\
    moved m m' (if is_memory_read a then 1 else 0)
               (if is_memory_write a then 1 else 0)
               (if is_cache_access a then 1 else 0).
Proof.
  intros Hg Hagree. apply Z.eqb_neq in Hg.
  destruct a as [addr bytes latency hit type | addr bytes latency hit type
                | is_read bytes latency].
  - unfold record, recordMemoryRead, recordAddressAccess.
    cbn [address_granularity recordReadLatency add_bytes]. rewrite Hg.
    eexists. split; [reflexivity|].
    destruct type; unfold moved; cbn [is_memory_read is_memory_write is_cache_access];
      try (rewrite cache_access_total);
      (split; [reflexivity|]);
      (split; [try apply cache_access_agree; exact Hagree|]);
      cbn; rewrite ?Z.add_0_r, ?u64_idem;
      repeat split; try reflexivity; try lia.
  - unfold record, recordMemoryWrite, recordAddressAccess.
    cbn [address_granularity recordWriteLatency add_bytes]. rewrite Hg.
    eexists. split; [reflexivity|].
    destruct type; unfold moved; cbn [is_memory_read is_memory_write is_cache_access];
      try (rewrite cache_access_total);
      (split; [reflexivity|]);
      (split; [try apply cache_access_agree; exact Hagree|]);
      cbn; rewrite ?Z.add_0_r, ?u64_idem;
      repeat split; try reflexivity; try lia.
  - eexists. split; [reflexivity|]. unfold moved. cbn.
    rewrite ?Z.add_0_r.
    destruct Hagree as [Hh Hm].
    split; [reflexivity|]. split; [split; assumption|].
    repeat split; try lia.
Qed.

Lemma moved_refl m : cache_counters_agree m -> moved m m 0 0 0.
Proof.
  intros H. unfold moved. rewrite !Z.add_0_r. repeat split; try apply H; lia.
Qed.

Lemma moved_trans m m1 m2 r1 w1 c1 r2 w2 c2 :
  moved m m1 r1 w1 c1 -> moved m1 m2 r2 w2 c2 ->
  moved m m2 (r1 + r2) (w1 + w2) (c1 + c2).
Proof.
  intros (Hg1 & Ha1 & Hr1 & Hw1 & Hc1 & Hn1 & Hx1)
         (Hg2 & Ha2 & Hr2 & Hw2 & Hc2 & Hn2 & Hx2).
  unfold moved. split; [congruence|]. split; [assumption|].
  split; [|split; [|split; [|split; lia]]].
  - rewrite Hr2, <- u64_add_l, Hr1, u64_add_l. f_equal. lia.
  - rewrite Hw2, <- u64_add_l, Hw1, u64_add_l. f_equal. lia.
  - rewrite Hc2, <- u64_add_l, Hc1, u64_add_l. f_equal. lia.
Qed.

Lemma recordAll_moved l : forall m,
  address_granularity m <> 0 -> cache_counters_agree m ->
  exists m', recordAll l m = Returns m' /\
    moved m m' (count_if is_memory_read l) (count_if is_memory_write l)
               (count_if is_cache_access l).
Proof.
  induction l as [|a l IH]; intros m Hg Hagree.
  - exists m. split; [reflexivity|]. by apply moved_refl.
  - destruct (record_moved a m Hg Hagree) as (m1 & Hrec & Hm1).
    pose proof Hm1 as (Hg1 & Ha1 & _).
    destruct (IH m1) as (m' & Hall & Hm'); [congruence|assumption|].
    exists m'. cbn [recordAll]. rewrite Hrec. split; [assumption|].
    rewrite !count_if_cons. eapply moved_trans; eassumption.
Qed.

(** extra X14 -- whatever reads, writes and DMA transfers are recorded
    (with a non-zero granularity, so that every call returns), the
    cache totals stay the sums of the per-direction counters, as 64-bit
    values: [cache_hits = cache_read_hits + cache_write_hits] and
    [cache_misses = cache_read_misses + cache_write_misses]; their sum
    moves by the number of calls tagged [CACHE_READ] or [CACHE_WRITE]
    in the matching method, and [read_count] and [write_count] by the
    number of calls of [recordMemoryRead] and [recordMemoryWrite]. *)
Theorem cache_totals_agree (l : list Access) (m : MemoryAccessStats) :
  address_granularity m <> 0 -> cache_counters_agree m ->
  exists m', recordAll l m = Returns m' /\
    cache_hits m' = u64 (cache_read_hits m' + cache_write_hits m') /\
    cache_misses m' = u64 (cache_read_misses m' + cache_write_misses m') /\
    u64 (cache_hits m' + cache_misses m')
      = u64 (cache_hits m + cache_misses m + count_if is_cache_access l) /\
    u64 (read_count m') = u64 (read_count m + count_if is_memory_read l) /\
    u64 (write_count m') = u64 (write_count m + count_if is_memory_write l).
Proof.
  intros Hg Hagree.
  destruct (recordAll_moved l m Hg Hagree)
    as (m' & Hall & _ & [Hh Hm] & Hr & Hw & Hc & _).
  exists m'. repeat split; assumption.
Qed.

Lemma cache_totals_agree_witness :
  let l := [MemoryRead 128 4 10 true CACHE_READ;
            MemoryWrite 64 4 12 false CACHE_WRITE;
            MemoryRead 0 8 3 true CACHE_WRITE] in
  exists m', recordAll l initial = Returns m' /\
    cache_hits m' = u64 (cache_read_hits m' + cache_write_hits m') /\
    u64 (cache_hits m' + cache_misses m') = 2.
Proof.
  destruct (cache_totals_agree
              [MemoryRead 128 4 10 true CACHE_READ;
               MemoryWrite 64 4 12 false CACHE_WRITE;
               MemoryRead 0 8 3 true CACHE_WRITE] initial
              ltac:(simpl; lia) ltac:(split; reflexivity))
    as (m' & Hall & Hh & _ & Hc & _).
  exists m'. split; [exact Hall|]. split; [exact Hh|]. exact Hc.
Defined.

(** One call moves the read latency bounds only if it is a
    [recordMemoryRead]. *)
Lemma record_read_latency a m m' :
  record a m = Returns m' ->
  min_read_latency m'
    = fold_left Z.min (read_latencies [a]) (min_read_latency m) /\
  max_read_latency m'
    = fold_left Z.max (read_latencies [a]) (max_read_latency m).
Proof.
  destruct a as [addr bytes latency hit type | addr bytes latency hit type
                | is_read bytes latency];
    unfold record, recordMemoryRead, recordMemoryWrite, recordAddressAccess;
    cbn [address_granularity recordReadLatency recordWriteLatency add_bytes].
  - destruct (_ =? 0); [discriminate|]. intros [= <-].
    destruct type; split; reflexivity.
  - destruct (_ =? 0); [discriminate|]. intros [= <-].
    destruct type; split; reflexivity.
  - intros [= <-]. split; reflexivity.
Qed.

Lemma read_latencies_cons a l :
  read_latencies (a :: l) = read_latencies [a] ++ read_latencies l.
Proof. by destruct a. Qed.

Lemma recordAll_read_latency l : forall m m',
  recordAll l m = Returns m' ->
  min_read_latency m' = fold_left Z.min (read_latencies l) (min_read_latency m) /\
  max_read_latency m' = fold_left Z.max (read_latencies l) (max_read_latency m).
Proof.
  induction l as [|a l IH]; intros m m' Hall.
  - injection Hall as <-. split; reflexivity.
  - cbn [recordAll] in Hall. destruct (record a m) as [m1|] eqn:Hrec; [|discriminate].
    destruct (record_read_latency a m m1 Hrec) as [Hn Hx].
    destruct (IH m1 m' Hall) as [Hn' Hx'].
    rewrite read_latencies_cons, !fold_left_app, <- Hn, <- Hx. by split.
Qed.

(** extra X15 -- from the initial state, after any recorded accesses
    whose read latencies are 64-bit values: [min_read_latency] and
    [max_read_latency] bound every latency handed to
    [recordMemoryRead] and are each one of them; DMA transfers and
    writes do not move them; and while no read has been recorded they
    are still [UINT64_MAX] and 0, so the minimum is above the
    maximum. *)
Theorem read_latency_bounds (l : list Access) :
  Forall is_u64 (read_latencies l) ->
  exists m', recordAll l initial = Returns m' /\
    Forall (fun x => min_read_latency m' <= x <= max_read_latency m')
           (read_latencies l) /\
    (read_latencies l <> [] ->
     In (min_read_latency m') (read_latencies l) /\
     In (max_read_latency m') (read_latencies l)) /\
    (read_latencies l = [] ->
     min_read_latency m' = UINT64_MAX /\ max_read_latency m' = 0).
Proof.
  intros Hu.
  destruct (recordAll_moved l initial) as (m' & Hall & _);
    [cbn; lia | split; reflexivity |].
  destruct (recordAll_read_latency l initial m' Hall) as [Hn Hx].
  cbn [min_read_latency max_read_latency initial] in Hn, Hx.
  destruct (fold_min_spec (read_latencies l) UINT64_MAX) as (_ & Hmin & Hmin_in).
  destruct (fold_max_spec (read_latencies l) 0) as (_ & Hmax & Hmax_in).
  rewrite <- Hn in Hmin, Hmin_in. rewrite <- Hx in Hmax, Hmax_in.
  exists m'. split; [assumption|]. split; [|split].
  - rewrite Forall_forall in *. intros x Hin.
    split; [apply Hmin | apply Hmax]; assumption.
  - intros Hne. destruct (read_latencies l) as [|x xs] eqn:E; [done|].
    inversion Hu as [|? ? Hx0 Hxs]; subst.
    inversion Hmin as [|? ? Hmx _]; subst. inversion Hmax as [|? ? Hxm _]; subst.
    unfold is_u64 in Hx0. split.
    + destruct Hmin_in as [Heq|Hin]; [|assumption].
      left. lia.
    + destruct Hmax_in as [Heq|Hin]; [|assumption].
      left. lia.
  - intros E. rewrite E in Hn, Hx. cbn in Hn, Hx. by split.
Qed.

Lemma read_latency_bounds_witness :
  let l := [MemoryRead 128 4 10 true CACHE_READ; DMATransfer true 64 500;
            MemoryRead 0 8 3 false SPM_READ] in
  exists m', recordAll l initial = Returns m' /\
    Forall (fun x => min_read_latency m' <= x <= max_read_latency m') [10; 3].
Proof.
  destruct (read_latency_bounds
              [MemoryRead 128 4 10 true CACHE_READ; DMATransfer true 64 500;
               MemoryRead 0 8 3 false SPM_READ]
              ltac:(repeat constructor; vm_compute; discriminate))
    as (m' & Hall & Hb & _).
  exists m'. split; [exact Hall|exact Hb].
Defined.

(** extra X16 -- [recordAddressAccess] files an address under the
    multiple of the granularity at or below it: the bucket divides by
    the granularity, lies within one granule below the address, two
    addresses share a bucket exactly when they have the same quotient,
    the count of that bucket in the map of the access kind goes up by
    one (from 0 for a new bucket) and nothing else in either map
    changes; with granularity 0 the call has no defined result. *)
Theorem recordAddressAccess_bucket (addr : Z) (is_write : bool)
    (m : MemoryAccessStats) :
  0 < address_granularity m -> is_u64 addr ->
  let g := address_granularity m in
  let b := bucket_of g addr in
  b mod g = 0 /\ b <= addr < b + g /\
  (forall addr', is_u64 addr' ->
     (bucket_of g addr' = b <-> addr' / g = addr / g)) /\
  (exists m', recordAddressAccess addr is_write m = Returns m' /\
     let counts x := if is_write then address_write_counts x
                     else address_read_counts x in
     let others x := if is_write then address_read_counts x
                     else address_write_counts x in
     counts m' !! b = Some (u64 (default 0 (counts m !! b) + 1)) /\
     (forall k, k <> b -> counts m' !! k = counts m !! k) /\
     others m' = others m) /\
  (forall m0, address_granularity m0 = 0 ->
     recordAddressAccess addr is_write m0 = UndefinedBehaviour).
Proof.
  intros Hg Ha g b. subst g b.
  set (g := address_granularity m) in *.
  assert (Hsmall : forall a, is_u64 a -> bucket_of g a = a / g * g).
  { intros a Hau. unfold bucket_of. apply u64_small. unfold is_u64 in *.
    pose proof (Z.mul_div_le a g Hg).
    assert (0 <= a / g) by (apply Z.div_pos; lia). nia. }
  rewrite (Hsmall addr Ha).
  split; [by apply Z_mod_mult|].
  split.
  { pose proof (Z.mul_div_le addr g Hg).
    pose proof (Z.mul_succ_div_gt addr g Hg). lia. }
  split.
  { intros addr' Ha'. rewrite (Hsmall addr' Ha'). split.
    - intros H. eapply Z.mul_cancel_r; [|exact H]. lia.
    - intros ->. reflexivity. }
  split.
  - unfold recordAddressAccess. fold g.
    replace (g =? 0) with false by (symmetry; apply Z.eqb_neq; lia).
    rewrite (Hsmall addr Ha).
    eexists. split; [reflexivity|]. unfold bump.
    destruct is_write; cbn [address_write_counts address_read_counts].
    + split; [apply lookup_insert_eq|]. split; [|reflexivity].
      intros k Hk. by apply lookup_insert_ne.
    + split; [apply lookup_insert_eq|]. split; [|reflexivity].
      intros k Hk. by apply lookup_insert_ne.
  - intros m0 H0. unfold recordAddressAccess. by rewrite H0.
Qed.

Lemma recordAddressAccess_bucket_witness :
  bucket_of 64 200 mod 64 = 0 /\ bucket_of 64 200 <= 200 < bucket_of 64 200 + 64.
Proof.
  pose proof (recordAddressAccess_bucket 200 false initial
                ltac:(simpl; lia) ltac:(unfold is_u64, UINT64_MAX; lia))
    as (H1 & H2 & _).
  split; [exact H1|exact H2].
Defined.

End MemAccessProps.

(** ** DataflowStats: critical path, dependencies and parallelism *)

Module DataflowProps.
Import Dataflow.

Lemma recordNodes_cons n nodes df :
  recordNodes (n :: nodes) df
  = recordNodes nodes (recordCriticalPathNode (uid n) (opcode n)
                         (is_load n) (is_store n) df).
Proof. reflexivity. Qed.

(** The counters of the critical path follow the nodes while they fit
    an [int]. *)
Lemma recordNodes_counters nodes : forall df,
  0 <= critical_path_instructions df ->
  0 <= critical_path_loads df <= critical_path_instructions df ->
  0 <= critical_path_stores df <= critical_path_instructions df ->
  0 <= critical_path_computes df <= critical_path_instructions df ->
  critical_path_instructions df + Z.of_nat (length nodes) <= INT_MAX ->
  let df' := recordNodes nodes df in
  critical_path_instructions df'
    = critical_path_instructions df + Z.of_nat (length nodes) /\
  critical_path_loads df' = critical_path_loads df + count_if is_load nodes /\
  critical_path_stores df' = critical_path_stores df + count_if is_store nodes /\
  critical_path_computes df'
    = critical_path_computes df + count_if is_compute nodes.
Proof.
  induction nodes as [|n nodes IH]; intros df Hi Hl Hs Hc Hmax.
  - cbn. unfold count_if. cbn. lia.
  - cbn [length] in Hmax. cbv zeta. rewrite recordNodes_cons, !count_if_cons.
    set (df1 := recordCriticalPathNode (uid n) (opcode n) (is_load n) (is_store n) df).
    assert (Hi1 : critical_path_instructions df1 = critical_path_instructions df + 1).
    { cbn. apply i32_small. unfold INT_MAX in *. lia. }
    assert (Hl1 : critical_path_loads df1
                  = critical_path_loads df + (if is_load n then 1 else 0)).
    { cbn. destruct (is_load n); [|lia]. apply i32_small. unfold INT_MAX in *. lia. }
    assert (Hs1 : critical_path_stores df1
                  = critical_path_stores df + (if is_store n then 1 else 0)).
    { cbn. destruct (is_store n); [|lia]. apply i32_small. unfold INT_MAX in *. lia. }
    assert (Hc1 : critical_path_computes df1
                  = critical_path_computes df + (if is_compute n then 1 else 0)).
    { cbn. unfold is_compute. destruct (negb (is_load n) && negb (is_store n)); [|lia].
      apply i32_small. unfold INT_MAX in *. lia. }
    assert (Hb : 0 <= (if is_load n then 1 else 0) <= 1
                 /\ 0 <= (if is_store n then 1 else 0) <= 1
                 /\ 0 <= (if is_compute n then 1 else 0) <= 1).
    { destruct (is_load n), (is_store n), (is_compute n); lia. }
    destruct (IH df1 ltac:(lia) ltac:(lia) ltac:(lia) ltac:(lia) ltac:(lia))
      as (Hi' & Hl' & Hs' & Hc').
    rewrite Hi', Hl', Hs', Hc', Hi1, Hl1, Hs1, Hc1. cbn [length].
    repeat split; lia.
Qed.

(** The per-opcode map counts the nodes of each opcode. *)
Lemma recordNodes_by_opcode op nodes : forall df,
  0 <= default 0 (critical_path_by_opcode df !! op) ->
  default 0 (critical_path_by_opcode df !! op) + Z.of_nat (length nodes) <= INT_MAX ->
  default 0 (critical_path_by_opcode (recordNodes nodes df) !! op)
  = default 0 (critical_path_by_opcode df !! op) + count_if (has_opcode op) nodes.
Proof.
  induction nodes as [|n nodes IH]; intros df H0 Hmax.
  - unfold count_if. cbn. lia.
  - cbn [length] in Hmax. rewrite recordNodes_cons, count_if_cons.
    pose proof (count_if_bounds (has_opcode op) nodes).
    set (df1 := recordCriticalPathNode (uid n) (opcode n) (is_load n) (is_store n) df).
    assert (H1 : default 0 (critical_path_by_opcode df1 !! op)
                 = default 0 (critical_path_by_opcode df !! op)
                   + (if has_opcode op n then 1 else 0)).
    { unfold df1, has_opcode. cbn [critical_path_by_opcode recordCriticalPathNode].
      destruct (Z.eqb_spec (opcode n) op) as [->|Hne].
      - rewrite lookup_insert_eq. cbn. apply i32_small. unfold INT_MAX in *. lia.
      - rewrite lookup_insert_ne by assumption. lia. }
    rewrite IH; rewrite H1; destruct (has_opcode op n); lia.
Qed.

(** extra X17 -- from [reset()], after the nodes of a critical path
    (at most [INT_MAX] of them): [critical_path_instructions] is their
    number; the load, store and compute counters are the numbers of
    nodes flagged as load, as store and as neither; the per-opcode map
    holds for each opcode the number of nodes with it; and the three
    kind counters add up to between once and twice the instruction
    count, because a node flagged both load and store is counted in
    both. *)
Theorem critical_path_counters (nodes : list Node) :
  Z.of_nat (length nodes) <= INT_MAX ->
  let df := recordNodes nodes reset in
  critical_path_instructions df = Z.of_nat (length nodes) /\
  critical_path_loads df = count_if is_load nodes /\
  critical_path_stores df = count_if is_store nodes /\
  critical_path_computes df = count_if is_compute nodes /\
  (forall op, default 0 (critical_path_by_opcode df !! op)
              = count_if (has_opcode op) nodes) /\
  critical_path_instructions df
    <= critical_path_loads df + critical_path_stores df
       + critical_path_computes df
    <= 2 * critical_path_instructions df.
Proof.
  intros Hmax df.
  destruct (recordNodes_counters nodes reset) as (Hi & Hl & Hs & Hc);
    try (cbn; lia).
  fold df in Hi, Hl, Hs, Hc. cbn in Hi, Hl, Hs, Hc.
  split; [assumption|]. split; [assumption|]. split; [assumption|].
  split; [assumption|]. split.
  - intros op. unfold df.
    rewrite recordNodes_by_opcode;
      cbn [critical_path_by_opcode reset]; rewrite ?lookup_empty; cbn; lia.
  - rewrite Hi, Hl, Hs, Hc. clear.
    induction nodes as [|n nodes IH].
    + unfold count_if. cbn. lia.
    + rewrite !count_if_cons. cbn [length]. unfold is_compute at 1 3.
      destruct (is_load n), (is_store n); cbn; lia.
Qed.

Lemma critical_path_counters_witness :
  let nodes := [mkNode 1 32 true false; mkNode 2 13 false false;
                mkNode 3 47 true true] in
  let df := recordNodes nodes reset in
  critical_path_instructions df = 3 /\
  critical_path_instructions df
    <= critical_path_loads df + critical_path_stores df
       + critical_path_computes df
    <= 2 * critical_path_instructions df.
Proof.
  pose proof (critical_path_counters
                [mkNode 1 32 true false; mkNode 2 13 false false;
                 mkNode 3 47 true true]
                ltac:(vm_compute; discriminate)) as H.
  cbv zeta in H. destruct H as (H1 & _ & _ & _ & _ & H6).
  split; [exact H1|exact H6].
Defined.

Lemma recordEdges_cons e edges df :
  recordEdges (e :: edges) df
  = recordEdges edges (recordDependency (producer_uid e) (consumer_uid e)
                         (is_raw e) (is_war e) (is_waw e) df).
Proof. reflexivity. Qed.

Lemma recordEdges_counters edges : forall df,
  0 <= total_dependency_edges df ->
  total_dependency_edges df + Z.of_nat (length edges) <= INT_MAX ->
  0 <= true_dependencies df <= total_dependency_edges df ->
  0 <= anti_dependencies df <= total_dependency_edges df ->
  0 <= output_dependencies df <= total_dependency_edges df ->
  let df' := recordEdges edges df in
  total_dependency_edges df'
    = total_dependency_edges df + Z.of_nat (length edges) /\
  true_dependencies df' = true_dependencies df + count_if is_raw edges /\
  anti_dependencies df' = anti_dependencies df + count_if is_war edges /\
  output_dependencies df' = output_dependencies df + count_if is_waw edges /\
  control_dependencies df' = control_dependencies df /\
  memory_dependencies df' = memory_dependencies df.
Proof.
  induction edges as [|e edges IH]; intros df H0 Hmax Ht Ha Ho.
  - cbn. unfold count_if. cbn. lia.
  - cbn [length] in Hmax. cbv zeta. rewrite recordEdges_cons, !count_if_cons.
    set (df1 := recordDependency (producer_uid e) (consumer_uid e)
                  (is_raw e) (is_war e) (is_waw e) df).
    assert (He1 : total_dependency_edges df1 = total_dependency_edges df + 1).
    { cbn. apply i32_small. unfold INT_MAX in *. lia. }
    assert (Hsmall : forall x, 0 <= x <= total_dependency_edges df -> u64 (x + 1) = x + 1).
    { intros x Hx. apply u64_small. unfold is_u64, INT_MAX, UINT64_MAX in *. lia. }
    assert (Ht1 : true_dependencies df1
                  = true_dependencies df + (if is_raw e then 1 else 0)).
    { cbn. destruct (is_raw e); [by apply Hsmall|lia]. }
    assert (Ha1 : anti_dependencies df1
                  = anti_dependencies df + (if is_war e then 1 else 0)).
    { cbn. destruct (is_war e); [by apply Hsmall|lia]. }
    assert (Ho1 : output_dependencies df1
                  = output_dependencies df + (if is_waw e then 1 else 0)).
    { cbn. destruct (is_waw e); [by apply Hsmall|lia]. }
    assert (Hb : 0 <= (if is_raw e then 1 else 0) <= 1
                 /\ 0 <= (if is_war e then 1 else 0) <= 1
                 /\ 0 <= (if is_waw e then 1 else 0) <= 1).
    { destruct (is_raw e), (is_war e), (is_waw e); lia. }
    destruct (IH df1 ltac:(lia) ltac:(lia) ltac:(lia) ltac:(lia) ltac:(lia))
      as (He' & Ht' & Ha' & Ho' & Hc' & Hm').
    rewrite He', Ht', Ha', Ho', Hc', Hm', He1, Ht1, Ha1, Ho1. cbn [length].
    repeat split; lia.
Qed.

(** extra X18 -- from [reset()], after at most [INT_MAX] recorded
    dependencies: [total_dependency_edges] is their number, the true,
    anti and output counters are the numbers of edges flagged RAW, WAR
    and WAW, so none exceeds the edge count, and [control_dependencies]
    and [memory_dependencies] are still 0: no call counts them. *)
Theorem dependency_counters (edges : list Edge) :
  Z.of_nat (length edges) <= INT_MAX ->
  let df := recordEdges edges reset in
  total_dependency_edges df = Z.of_nat (length edges) /\
  true_dependencies df = count_if is_raw edges /\
  anti_dependencies df = count_if is_war edges /\
  output_dependencies df = count_if is_waw edges /\
  true_dependencies df <= total_dependency_edges df /\
  anti_dependencies df <= total_dependency_edges df /\
  output_dependencies df <= total_dependency_edges df /\
  control_dependencies df = 0 /\ memory_dependencies df = 0.
Proof.
  intros Hmax df.
  destruct (recordEdges_counters edges reset) as (He & Ht & Ha & Ho & Hc & Hm);
    try (cbn; lia).
  fold df in He, Ht, Ha, Ho, Hc, Hm. cbn in He, Ht, Ha, Ho, Hc, Hm.
  pose proof (count_if_bounds is_raw edges).
  pose proof (count_if_bounds is_war edges).
  pose proof (count_if_bounds is_waw edges).
  repeat split; try assumption; lia.
Qed.

Lemma dependency_counters_witness :
  let edges := [mkEdge 1 2 true false false; mkEdge 2 3 false false false] in
  let df := recordEdges edges reset in
  total_dependency_edges df = 2 /\ true_dependencies df = 1 /\
  control_dependencies df = 0.
Proof.
  pose proof (dependency_counters
                [mkEdge 1 2 true false false; mkEdge 2 3 false false false]
                ltac:(vm_compute; discriminate)) as H.
  cbv zeta in H. destruct H as (H1 & H2 & _ & _ & _ & _ & _ & H8 & _).
  split; [exact H1|]. split; [exact H2|exact H8].
Defined.

Lemma recordCycles_cons c cycles df :
  recordCycles (c :: cycles) df
  = recordCycles cycles (recordParallelism (fst c) (snd c) df).
Proof. reflexivity. Qed.

Lemma recordCycles_shape cycles : forall df,
  let df' := recordCycles cycles df in
  max_parallel_ops df' = fold_left Z.max (map fst cycles) (max_parallel_ops df) /\
  (forall k, is_Some (parallelism_histogram df' !! k)
             <-> is_Some (parallelism_histogram df !! k) \/ In k (map fst cycles)).
Proof.
  induction cycles as [|c cycles IH]; intros df.
  - cbn. split; [reflexivity|]. intros k. tauto.
  - cbv zeta. rewrite recordCycles_cons.
    destruct (IH (recordParallelism (fst c) (snd c) df)) as [Hmax Hkeys].
    split; [exact Hmax|].
    intros k. rewrite Hkeys. cbn [parallelism_histogram recordParallelism map In].
    rewrite lookup_insert_is_Some. destruct (Z.eq_dec (fst c) k); tauto.
Qed.

Lemma recordCycles_count k cycles : forall df,
  0 <= default 0 (parallelism_histogram df !! k) ->
  default 0 (parallelism_histogram df !! k) + Z.of_nat (length cycles) <= UINT64_MAX ->
  default 0 (parallelism_histogram (recordCycles cycles df) !! k)
  = default 0 (parallelism_histogram df !! k) + count_if (has_ready_count k) cycles.
Proof.
  induction cycles as [|c cycles IH]; intros df H0 Hmax.
  - unfold count_if. cbn. lia.
  - cbn [length] in Hmax. rewrite recordCycles_cons, count_if_cons.
    pose proof (count_if_bounds (has_ready_count k) cycles).
    set (df1 := recordParallelism (fst c) (snd c) df).
    assert (H1 : default 0 (parallelism_histogram df1 !! k)
                 = default 0 (parallelism_histogram df !! k)
                   + (if has_ready_count k c then 1 else 0)).
    { unfold df1, has_ready_count. cbn [parallelism_histogram recordParallelism].
      destruct (Z.eqb_spec (fst c) k) as [->|Hne].
      - rewrite lookup_insert_eq. cbn. apply u64_small. unfold is_u64. lia.
      - rewrite lookup_insert_ne by assumption. lia. }
    rewrite IH; rewrite H1; destruct (has_ready_count k c); lia.
Qed.

(** extra X19 -- from [reset()], after any recorded cycles: the
    histogram has an entry exactly for the ready counts that occurred,
    holding the number of cycles with that count (fewer than 2^64
    cycles); [max_parallel_ops] is at least every ready count and never
    below 0, and it is 0 or one of the ready counts. *)
Theorem parallelism_histogram_spec (cycles : list (Z * Z)) :
  let df := recordCycles cycles reset in
  (forall k, is_Some (parallelism_histogram df !! k) <-> In k (map fst cycles)) /\
  (Z.of_nat (length cycles) <= UINT64_MAX ->
   forall k, default 0 (parallelism_histogram df !! k)
             = count_if (has_ready_count k) cycles) /\
  (forall k, In k (map fst cycles) -> k <= max_parallel_ops df) /\
  0 <= max_parallel_ops df /\
  (max_parallel_ops df = 0 \/ In (max_parallel_ops df) (map fst cycles)).
Proof.
  intros df.
  destruct (recordCycles_shape cycles reset) as [Hmax Hkeys]. fold df in Hmax, Hkeys.
  cbn [max_parallel_ops reset] in Hmax.
  destruct (fold_max_spec (map fst cycles) 0) as (Hge & Hall & Hin).
  rewrite <- Hmax in Hge, Hall, Hin.
  split; [|split; [|split; [|split]]].
  - intros k. rewrite Hkeys. cbn [parallelism_histogram reset].
    rewrite lookup_empty. split; [|tauto].
    intros [Hsome|H]; [|assumption]. by apply is_Some_None in Hsome.
  - intros Hlen k. unfold df.
    rewrite recordCycles_count;
      cbn [parallelism_histogram reset]; rewrite ?lookup_empty; cbn; lia.
  - intros k Hk. rewrite Forall_forall in Hall. apply Hall.
    by apply list_elem_of_In.
  - assumption.
  - assumption.
Qed.

End DataflowProps.

(** ** The growing list of windows: what is kept, and in which order *)

Module GrowingOrderProps.
Import GrowingWindows GrowingCycle.

Lemma snapshots_shape K h pre cur e :
  windows_inv K h pre cur e -> snapshots h = concat pre ++ cur.
Proof.
  intros (_ & _ & Hl & _). unfold snapshots. rewrite Hl, concat_app. cbn.
  by rewrite GrowingProps.concat_replicate_nil, app_nil_r.
Qed.

(** One [recordCycleStats]: the snapshot is appended behind everything
    stored so far, and the windows before the current one stay full. *)
Lemma recordCycleStats_appends K h pre cur e st :
  1 <= K <= INT_MAX ->
  windows_inv K h pre cur e ->
  Z.of_nat (length cur) < K ->
  Z.of_nat (length pre) + 1 <= INT_MAX ->
  Forall (fun w => Z.of_nat (length w) = K) pre ->
  exists h' r pre' cur' e',
    recordCycleStats st h = Returns (h', r) /\
    windows_inv K h' pre' cur' e' /\
    Z.of_nat (length cur') < K /\
    Forall (fun w => Z.of_nat (length w) = K) pre' /\
    length pre' = (length pre + r)%nat /\ (r <= 1)%nat /\
    Z.of_nat (length cur) + 1 = Z.of_nat r * K + Z.of_nat (length cur') /\
    snapshots h' = snapshots h ++ [st].
Proof.
  intros HK Hinv Hc Hidx Hfull.
  destruct (GrowingProps.recordCycleStats_step K h pre cur e st HK Hinv Hc Hidx)
    as (h' & _ & [(Hroom & Hrun & Hinv') | (Hfill & Hrun & Hinv')]).
  - exists h', 0%nat, pre, (cur ++ [st]), e.
    split; [assumption|]. split; [assumption|].
    split; [rewrite length_app; cbn; lia|]. split; [assumption|].
    split; [lia|]. split; [lia|].
    split; [rewrite length_app; cbn; lia|].
    rewrite (snapshots_shape K h' _ _ _ Hinv'), (snapshots_shape K h _ _ _ Hinv).
    by rewrite !app_assoc.
  - exists h', 1%nat, (pre ++ [cur ++ [st]]), [], (pred e).
    split; [assumption|]. split; [assumption|].
    split; [cbn; lia|]. split.
    { apply Forall_app. split; [assumption|].
      constructor; [|constructor]. rewrite length_app. cbn. lia. }
    split; [rewrite length_app; cbn; lia|]. split; [lia|].
    split; [cbn; lia|].
    rewrite (snapshots_shape K h' _ _ _ Hinv'), (snapshots_shape K h _ _ _ Hinv).
    rewrite concat_app. cbn. by rewrite !app_nil_r, !app_assoc.
Qed.

Lemma recordAll_appends K snaps : forall h pre cur e,
  1 <= K <= INT_MAX ->
  windows_inv K h pre cur e ->
  Z.of_nat (length cur) < K ->
  Z.of_nat (length pre) + Z.of_nat (length snaps) <= INT_MAX ->
  Forall (fun w => Z.of_nat (length w) = K) pre ->
  exists h' r pre' cur' e',
    recordAll snaps h = Returns (h', r) /\
    windows_inv K h' pre' cur' e' /\
    Z.of_nat (length cur') < K /\
    Forall (fun w => Z.of_nat (length w) = K) pre' /\
    length pre' = (length pre + r)%nat /\
    Z.of_nat (length cur) + Z.of_nat (length snaps)
      = Z.of_nat r * K + Z.of_nat (length cur') /\
    snapshots h' = snapshots h ++ snaps.
Proof.
  induction snaps as [|st snaps IH]; intros h pre cur e HK Hinv Hc Hmax Hfull.
  - exists h, 0%nat, pre, cur, e. cbn [recordAll length]. rewrite app_nil_r.
    split; [reflexivity|]. split; [assumption|]. split; [assumption|].
    split; [assumption|]. split; [lia|]. split; [lia|reflexivity].
  - cbn [length] in Hmax. cbn [recordAll].
    destruct (recordCycleStats_appends K h pre cur e st HK Hinv Hc ltac:(lia) Hfull)
      as (h1 & r1 & pre1 & cur1 & e1 & -> & Hinv1 & Hc1 & Hfull1 & Hlen1 & Hr1
          & Hsum1 & Hsnap1).
    destruct (IH h1 pre1 cur1 e1 HK Hinv1 Hc1 ltac:(lia) Hfull1)
      as (h' & r & pre' & cur' & e' & -> & Hinv' & Hc' & Hfull' & Hlen' & Hsum'
          & Hsnap').
    exists h', (r1 + r)%nat, pre', cur', e'.
    split; [reflexivity|]. split; [assumption|]. split; [assumption|].
    split; [assumption|]. split; [lia|]. split.
    + cbn [length]. lia.
    + rewrite Hsnap', Hsnap1, <- app_assoc. reflexivity.
Qed.

(** extra X20 -- the growing engine of temp_hw_statistics.cc keeps every
    snapshot, in recording order: after [M <= INT_MAX] snapshots on a
    fresh tracking engine with [1 <= stat_buffer_size = K <= INT_MAX],
    the windows read one after the other are the recorded sequence; the
    engine rotated [M / K] times, the windows before the current one
    hold exactly [K] snapshots each and the current one holds the
    [M mod K] latest. *)
Theorem growing_engine_keeps_every_snapshot (K : Z)
    (snaps : list HW_Cycle_Stats) :
  1 <= K <= INT_MAX -> Z.of_nat (length snaps) <= INT_MAX ->
  exists h r full current unused,
    recordAll snaps (newHWStatistics true K) = Returns (h, r) /\
    concat (hw_buffer_list h) = snaps /\
    hw_buffer_list h = full ++ current :: replicate unused [] /\
    length full = r /\
    Forall (fun w => Z.of_nat (length w) = K) full /\
    Z.of_nat r = Z.of_nat (length snaps) / K /\
    Z.of_nat (length current) = Z.of_nat (length snaps) mod K.
Proof.
  intros HK Hmax.
  destruct (recordAll_appends K snaps (newHWStatistics true K) [] [] 1 HK
              (GrowingProps.windows_inv_new K) ltac:(cbn; lia) ltac:(cbn; lia)
              (Forall_nil_2 _))
    as (h & r & pre & cur & e & Hrun & Hinv & Hc & Hfull & Hlen & Hsum & Hsnap).
  exists h, r, pre, cur, e. split; [assumption|].
  split; [exact Hsnap|]. split; [apply Hinv|]. split; [exact Hlen|].
  split; [assumption|].
  cbn [length] in Hsum. rewrite Z.add_0_l in Hsum.
  assert (0 <= Z.of_nat (length cur) < K) by lia.
  split.
  - rewrite Hsum. rewrite Z.div_add_l by lia. rewrite Z.div_small by lia. lia.
  - rewrite Hsum. rewrite Z.add_comm, Z_mod_plus_full. by rewrite Z.mod_small.
Qed.

Lemma growing_engine_keeps_every_snapshot_witness :
  let snaps := map at_cycle [1; 2; 3; 4; 5] in
  exists h r,
    recordAll snaps (newHWStatistics true 2) = Returns (h, r) /\
    concat (hw_buffer_list h) = snaps /\ Z.of_nat r = 5 / 2.
Proof.
  destruct (growing_engine_keeps_every_snapshot 2 (map at_cycle [1; 2; 3; 4; 5])
              ltac:(unfold INT_MAX; lia) ltac:(unfold INT_MAX; simpl; lia))
    as (h & r & full & current & unused & Hrun & Hall & _ & _ & _ & Hr & _).
  exists h, r. split; [exact Hrun|]. split; [exact Hall|exact Hr].
Defined.

Lemma updateHWStatsCycleEnd_at_cycle n h :
  current_cycle_stats h = blank ->
  current_cycle_stats (updateHWStatsCycleEnd n h) = at_cycle n.
Proof. intros H. unfold updateHWStatsCycleEnd. cbn. by rewrite H. Qed.

Lemma windows_inv_set_current K h pre cur e st :
  windows_inv K h pre cur e ->
  windows_inv K (set_current_cycle_stats st h) pre cur e.
Proof. intros H. exact H. Qed.

Lemma last_nonempty {A} (l : list A) : forall x d d',
  List.last (x :: l) d = List.last (x :: l) d'.
Proof.
  induction l as [|y l IH]; intros x d d'; [reflexivity|].
  change (List.last (y :: l) d = List.last (y :: l) d'). apply IH.
Qed.

(** The cycles of a run, from an engine holding the snapshot [now]:
    each start stores the snapshot in hand, each end leaves the next. *)
Lemma run_cycles_appends K cycles : forall h pre cur e,
  1 <= K <= INT_MAX ->
  windows_inv K h pre cur e ->
  Z.of_nat (length cur) < K ->
  Z.of_nat (length pre) + Z.of_nat (length cycles) <= INT_MAX ->
  exists h',
    run_cycles cycles h = Returns h' /\
    snapshots h'
      = snapshots h
        ++ take (length cycles) (current_cycle_stats h :: map at_cycle cycles) /\
    current_cycle_stats h'
      = List.last (map at_cycle cycles) (current_cycle_stats h).
Proof.
  induction cycles as [|n cycles IH]; intros h pre cur e HK Hinv Hc Hmax.
  - exists h. cbn. by rewrite app_nil_r.
  - cbn [length] in Hmax. cbn [run_cycles]. unfold updateHWStatsCycleStart.
    destruct Hinv as (Ht & Hrest). rewrite Ht.
    assert (Hinv : windows_inv K h pre cur e) by (split; assumption).
    destruct (GrowingProps.recordCycleStats_step K h pre cur e
                (current_cycle_stats h) HK Hinv Hc ltac:(lia))
      as (h1 & _ & Hcase).
    assert (Hstep : exists r pre1 cur1 e1,
              recordCycleStats (current_cycle_stats h) h = Returns (h1, r) /\
              windows_inv K h1 pre1 cur1 e1 /\
              Z.of_nat (length cur1) < K /\
              (length pre1 <= length pre + 1)%nat /\
              snapshots h1 = snapshots h ++ [current_cycle_stats h]).
    { destruct Hcase as [(Hroom & Hrun & Hinv1) | (Hfill & Hrun & Hinv1)].
      - exists 0%nat, pre, (cur ++ [current_cycle_stats h]), e.
        split; [assumption|]. split; [assumption|].
        split; [rewrite length_app; cbn; lia|]. split; [lia|].
        rewrite (snapshots_shape K h1 _ _ _ Hinv1), (snapshots_shape K h _ _ _ Hinv).
        by rewrite !app_assoc.
      - exists 1%nat, (pre ++ [cur ++ [current_cycle_stats h]]), [], (pred e).
        split; [assumption|]. split; [assumption|].
        split; [cbn; lia|]. split; [rewrite length_app; cbn; lia|].
        rewrite (snapshots_shape K h1 _ _ _ Hinv1), (snapshots_shape K h _ _ _ Hinv).
        rewrite concat_app. cbn. by rewrite !app_nil_r, !app_assoc. }
    destruct Hstep as (r & pre1 & cur1 & e1 & -> & Hinv1 & Hc1 & Hlen1 & Hsnap1).
    destruct (IH (updateHWStatsCycleEnd n (clearStats h1)) pre1 cur1 e1 HK)
      as (h' & Hrun' & Hsnap' & Hcur'); [exact Hinv1|assumption|lia|].
    exists h'. split; [assumption|]. split.
    + rewrite Hsnap'.
      change (snapshots (updateHWStatsCycleEnd n (clearStats h1)))
        with (snapshots h1).
      rewrite Hsnap1, <- app_assoc. reflexivity.
    + rewrite Hcur'. rewrite updateHWStatsCycleEnd_at_cycle by reflexivity.
      cbn [map]. destruct (map at_cycle cycles) as [|x l]; [reflexivity|].
      change (List.last (at_cycle n :: x :: l) (current_cycle_stats h))
        with (List.last (x :: l) (current_cycle_stats h)).
      apply last_nonempty.
Qed.

(** extra X21 -- the cycle protocol of temp_hw_statistics.cc stores each
    cycle one call late: [updateHWStatsCycleStart] stores the snapshot
    of the cycle before and [updateHWStatsCycleEnd] only stamps the
    cycle number.  On a fresh tracking engine, after the cycles
    [n1 .. nM] the stored snapshots are a blank one followed by those of
    [n1 .. n(M-1)], and the snapshot of [nM] is still in
    [current_cycle_stats], not in any window. *)
Theorem base_cycle_protocol_lags_by_one (K : Z) (cycles : list Z) :
  1 <= K <= INT_MAX -> Z.of_nat (length cycles) <= INT_MAX ->
  exists h,
    run_cycles cycles (newHWStatistics true K) = Returns h /\
    snapshots h = take (length cycles) (blank :: map at_cycle cycles) /\
    current_cycle_stats h = List.last (map at_cycle cycles) blank /\
    length (snapshots h) = length cycles.
Proof.
  intros HK Hmax.
  destruct (run_cycles_appends K cycles (newHWStatistics true K) [] [] 1 HK
              (GrowingProps.windows_inv_new K) ltac:(cbn; lia) ltac:(cbn; lia))
    as (h & Hrun & Hsnap & Hcur).
  exists h. split; [assumption|]. split; [exact Hsnap|]. split; [exact Hcur|].
  rewrite Hsnap, length_app, length_take. cbn [length]. rewrite length_map.
  change (length (snapshots (newHWStatistics true K))) with 0%nat. lia.
Qed.

Lemma base_cycle_protocol_lags_by_one_witness :
  exists h,
    run_cycles [7; 8; 9] (newHWStatistics true 2) = Returns h /\
    snapshots h = [blank; at_cycle 7; at_cycle 8] /\
    current_cycle_stats h = at_cycle 9.
Proof.
  destruct (base_cycle_protocol_lags_by_one 2 [7; 8; 9]
              ltac:(unfold INT_MAX; lia) ltac:(unfold INT_MAX; simpl; lia))
    as (h & Hrun & Hsnap & Hcur & _).
  exists h. split; [exact Hrun|]. split; [exact Hsnap|exact Hcur].
Defined.




End GrowingOrderProps.

(** ** The ring of two windows: clearing, saturation, rotation count *)

Module RingCycleProps.
Import RingWindows RingCycle.

Lemma recordCycleStats_keeps st h h' r :
  recordCycleStats st h = Returns (h', r) ->
  stat_buffer_size h' = stat_buffer_size h /\
  cycle_tracking h' = cycle_tracking h.
Proof.
  unfold recordCycleStats. destruct (cycle_tracking h) eqn:Ht; cbn [negb].
  2: { intros [= <- <-]. done. }
  destruct (hw_buffer_list h !! hw_buffer h) as [w|]; [|discriminate].
  destruct (cycle_buffer h <? length w)%nat; [|discriminate].
  destruct (S (cycle_buffer h) =? length w)%nat.
  - unfold updateBuffer. cbn [hw_buffer_list hw_buffer].
    destruct (_ <? _)%nat; [|discriminate]. intros [= <- <-]. cbn. done.
  - intros [= <- <-]. cbn. done.
Qed.

(** Where [recordCycleStats] writes. *)
Lemma recordCycleStats_writes st h h' r :
  cycle_tracking h = true ->
  recordCycleStats st h = Returns (h', r) ->
  exists w, hw_buffer_list h !! hw_buffer h = Some w /\
            hw_buffer_list h'
            = <[hw_buffer h := <[cycle_buffer h := st]> w]> (hw_buffer_list h).
Proof.
  intros Ht. unfold recordCycleStats. rewrite Ht. cbn [negb].
  destruct (hw_buffer_list h !! hw_buffer h) as [w|]; [|discriminate].
  destruct (cycle_buffer h <? length w)%nat; [|discriminate].
  destruct (S (cycle_buffer h) =? length w)%nat.
  - unfold updateBuffer. cbn [hw_buffer_list hw_buffer].
    destruct (_ <? _)%nat; [|discriminate]. intros [= <- <-]. eauto.
  - intros [= <- <-]. eauto.
Qed.

(** Recording from write position [c]: the ring keeps its shape and its
    size, rotates [(c + n) / K] times and ends at position
    [(c + n) mod K]. *)
Lemma recordAll_ring_inv K snaps : forall h c,
  ring_inv K h c ->
  exists h' r,
    recordAll snaps h = Returns (h', r) /\
    r = ((c + length snaps) / K)%nat /\
    ring_inv K h' ((c + length snaps) mod K) /\
    stat_buffer_size h' = stat_buffer_size h.
Proof.
  induction snaps as [|st snaps IH]; intros h c Hinv.
  - exists h, 0%nat. pose proof Hinv as (_ & _ & _ & _ & HcK).
    cbn [recordAll length]. rewrite Nat.add_0_r, Nat.div_small, Nat.mod_small by lia.
    done.
  - cbn [recordAll length].
    destruct (RingProps.recordCycleStats_ring K h c st Hinv)
      as (h1 & [(Hroom & Hrun & Hinv1) | (Hfull & Hrun & Hinv1)]);
      destruct (recordCycleStats_keeps st h h1 _ Hrun) as [Hsz _]; rewrite Hrun.
    + destruct (IH h1 (S c) Hinv1) as (h' & r & -> & Hr & Hinv' & Hsz').
      exists h', r. split; [reflexivity|].
      replace (c + S (length snaps))%nat with (S c + length snaps)%nat by lia.
      split; [assumption|]. split; [assumption|]. congruence.
    + destruct (IH h1 0%nat Hinv1) as (h' & r & -> & Hr & Hinv' & Hsz').
      exists h', (S r). split; [reflexivity|].
      replace (c + S (length snaps))%nat with (0 + length snaps + 1 * K)%nat by lia.
      rewrite Nat.div_add, Nat.Div0.mod_add by lia.
      split; [lia|]. split; [assumption|]. congruence.
Qed.

Lemma map_const_replicate {A B} (x : B) (l : list A) :
  map (fun _ => x) l = replicate (length l) x.
Proof. induction l as [|y l IH]; cbn; [reflexivity|]. by rewrite IH. Qed.

(** The summary of a ring of blanks counts the first element only. *)
Lemma summarize_blank_ring K :
  (1 <= K)%nat ->
  total_samples (summarizeCycleStats (newHWStatistics true (Z.of_nat K))) = 1.
Proof.
  intros HK. destruct K as [|K]; [lia|].
  unfold summarizeCycleStats.
  cbn [cycle_tracking newHWStatistics negb hw_buffer_list total_samples].
  rewrite Nat2Z.id.
  set (a0 := {| total_res := 0; total_load := 0; total_store := 0;
                total_comp := 0; count := 0; sum := emptySummary |}).
  set (w := replicate (S K) blank).
  assert (Hw : forall a, 0 < count a -> summarize_window w a = a)
    by (intros a Ha; by apply RingProps.summarize_window_blanks).
  assert (H1 : summarize_window w a0 = accumulate blank a0).
  { unfold w. cbn [replicate summarize_window].
    change (cycle blank =? 0) with true. change (count a0 >? 0) with false.
    cbn [andb]. apply RingProps.summarize_window_blanks. by vm_compute. }
  change (replicate 2 w) with [w; w]. cbn [fold_left].
  rewrite H1, Hw by (by vm_compute). by vm_compute.
Qed.

(** extra X23 -- [clearStats] of the ring engine gives back the engine
    the constructor built: whatever snapshots were recorded on a fresh
    tracking engine with [stat_buffer_size = K >= 1], clearing leaves
    two windows of [K] blank elements and the cursors at the start.
    That engine, on which nothing is recorded, already reports
    [total_samples = 1]: the summary counts the first blank element
    before it can stop at one. *)
Theorem clearStats_restores_the_fresh_ring (K : nat)
    (snaps : list HW_Cycle_Stats) :
  (1 <= K)%nat ->
  exists h r,
    recordAll snaps (newHWStatistics true (Z.of_nat K)) = Returns (h, r) /\
    clearStats h = Returns (newHWStatistics true (Z.of_nat K)) /\
    total_samples (summarizeCycleStats (newHWStatistics true (Z.of_nat K))) = 1.
Proof.
  intros HK.
  destruct (recordAll_ring_inv K snaps (newHWStatistics true (Z.of_nat K)) 0
              (RingProps.ring_inv_new K HK))
    as (h & r & Hrun & _ & Hinv & Hsz).
  exists h, r. split; [assumption|]. split; [|by apply summarize_blank_ring].
  destruct Hinv as (Ht & (b0 & b1 & Hl & H0 & H1) & _).
  unfold clearStats. rewrite Ht, Hl. cbn [map].
  rewrite !map_const_replicate, H0, H1, Hsz.
  unfold newHWStatistics. cbn [stat_buffer_size replicate]. by rewrite Nat2Z.id.
Qed.

Lemma clearStats_restores_the_fresh_ring_witness :
  exists h r,
    recordAll (map at_cycle [1; 2; 3]) (newHWStatistics true 2) = Returns (h, r) /\
    clearStats h = Returns (newHWStatistics true 2) /\
    total_samples (summarizeCycleStats (newHWStatistics true 2)) = 1.
Proof.
  exact (clearStats_restores_the_fresh_ring 2 (map at_cycle [1; 2; 3])
           ltac:(lia)).
Defined.

Lemma recordAll_app a b h :
  recordAll (a ++ b) h
  = match recordAll a h with
    | Returns (h1, r1) =>
        match recordAll b h1 with
        | Returns (h2, r2) => Returns (h2, (r1 + r2)%nat)
        | UndefinedBehaviour => UndefinedBehaviour
        end
    | UndefinedBehaviour => UndefinedBehaviour
    end.
Proof.
  revert h. induction a as [|st a IH]; intros h; cbn [app recordAll].
  - by destruct (recordAll b h) as [[h2 r2]|].
  - destruct (recordCycleStats st h) as [[h1 r1]|]; [|reflexivity].
    rewrite IH. destruct (recordAll a h1) as [[h2 r2]|]; [|reflexivity].
    destruct (recordAll b h2) as [[h3 r3]|]; [|reflexivity].
    by rewrite Nat.add_assoc.
Qed.

Lemma ring_full_step K h st :
  ring_full K h -> cycle st <> 0 ->
  exists h' r, recordCycleStats st h = Returns (h', r) /\ ring_full K h'.
Proof.
  intros [[c Hinv] Hnz] Hst.
  pose proof Hinv as (Ht & _).
  destruct (RingProps.recordCycleStats_ring K h c st Hinv)
    as (h1 & [(_ & Hrun & Hinv1) | (_ & Hrun & Hinv1)]);
    destruct (recordCycleStats_writes st h h1 _ Ht Hrun) as (w & Hw & Hl);
    eexists _, _; (split; [exact Hrun|]); (split; [eauto|]);
    rewrite Hl; apply Forall_insert; try assumption;
    apply Forall_insert; try assumption;
    rewrite Forall_lookup in Hnz; by apply (Hnz _ _ Hw).
Qed.

Lemma ring_full_recordAll K snaps : forall h,
  ring_full K h -> Forall (fun st => cycle st <> 0) snaps ->
  exists h' r, recordAll snaps h = Returns (h', r) /\ ring_full K h'.
Proof.
  induction snaps as [|st snaps IH]; intros h Hfull Hnz.
  - by exists h, 0%nat.
  - inversion Hnz as [|? ? Hst Hrest]; subst. cbn [recordAll].
    destruct (ring_full_step K h st Hfull Hst) as (h1 & r1 & -> & Hfull1).
    destruct (IH h1 Hfull1 Hrest) as (h' & r & -> & Hfull').
    by exists h', (r1 + r)%nat.
Qed.

Lemma summarize_full K h :
  ring_full K h -> 2 * Z.of_nat K <= INT_MAX ->
  total_samples (summarizeCycleStats h) = 2 * Z.of_nat K.
Proof.
  intros [[c (Ht & (b0 & b1 & Hl & H0 & H1) & _)] Hnz] Hmax.
  rewrite Hl in Hnz. inversion Hnz as [|? ? Hnz0 Hnz']; subst.
  inversion Hnz' as [|? ? Hnz1 _]; subst.
  unfold summarizeCycleStats. rewrite Ht, Hl. cbn [negb fold_left total_samples].
  set (a0 := {| total_res := 0; total_load := 0; total_store := 0;
                total_comp := 0; count := 0; sum := emptySummary |}).
  destruct (RingProps.summarize_window_counted b0 [] a0 Hnz0)
    as (a1 & Ha1 & Hc1); [cbn; lia | cbn; lia |].
  rewrite app_nil_r in Ha1. cbn [summarize_window] in Ha1. rewrite Ha1.
  cbn [count a0] in Hc1.
  destruct (RingProps.summarize_window_counted b1 [] a1 Hnz1)
    as (a2 & Ha2 & Hc2); [lia | lia |].
  rewrite app_nil_r in Ha2. cbn [summarize_window] in Ha2. rewrite Ha2.
  lia.
Qed.

(** extra X24 -- the ring engine keeps at most two windows: once
    [2 * K] or more snapshots with non-zero cycle numbers have been
    recorded on a fresh tracking engine ([K >= 1], [2 * K <= INT_MAX]),
    [summarizeCycleStats] reports [total_samples = 2 * K], whatever the
    number recorded. *)
Theorem ring_reports_at_most_two_windows (K : nat)
    (snaps : list HW_Cycle_Stats) :
  (1 <= K)%nat -> 2 * Z.of_nat K <= INT_MAX ->
  Forall (fun st => cycle st <> 0) snaps ->
  (2 * K <= length snaps)%nat ->
  exists h r,
    recordAll snaps (newHWStatistics true (Z.of_nat K)) = Returns (h, r) /\
    total_samples (summarizeCycleStats h) = 2 * Z.of_nat K.
Proof.
  intros HK Hmax Hnz Hlen.
  rewrite <- (take_drop (2 * K) snaps) in Hnz |- *.
  apply Forall_app in Hnz as [Hnz1 Hnz2].
  assert (Hl1 : length (take (2 * K) snaps) = (2 * K)%nat)
    by (rewrite length_take; lia).
  destruct (RingProps.recordAll_fill K (take (2 * K) snaps)
              (newHWStatistics true (Z.of_nat K)) [] []
              (RingProps.ring_fill_new K HK) ltac:(rewrite Hl1; cbn [length]; lia))
    as (h1 & r1 & d0 & d1 & Hrun1 & (Ht & Hlist & Hpos) & Hd).
  cbn [app] in Hd.
  assert (Hdl : (length d0 + length d1 = 2 * K)%nat)
    by (rewrite <- length_app, Hd; exact Hl1).
  destruct (recordAll_ring_inv K (take (2 * K) snaps)
              (newHWStatistics true (Z.of_nat K)) 0 (RingProps.ring_inv_new K HK))
    as (h1' & r1' & Hrun1' & _ & Hinv1 & _).
  rewrite Hrun1 in Hrun1'. injection Hrun1' as <- <-.
  assert (Hfull1 : ring_full K h1).
  { split; [eauto|].
    assert (Hk : length d0 = K /\ length d1 = K).
    { destruct Hpos as [(? & -> & _) | [(? & ? & _) | ?]];
        cbn [length] in *; lia. }
    destruct Hk as [Hk0 Hk1].
    rewrite Hlist, Hk0, Hk1, Nat.sub_diag. cbn [replicate]. rewrite !app_nil_r.
    rewrite <- Hd in Hnz1. apply Forall_app in Hnz1 as [? ?].
    by repeat constructor. }
  destruct (ring_full_recordAll K (drop (2 * K) snaps) h1 Hfull1 Hnz2)
    as (h & r & Hrun2 & Hfull).
  exists h, (r1 + r)%nat. split.
  - by rewrite recordAll_app, Hrun1, Hrun2.
  - by apply summarize_full.
Qed.

Lemma ring_reports_at_most_two_windows_witness :
  exists h r,
    recordAll (map at_cycle [1; 2; 3; 4; 5; 6; 7])
      (newHWStatistics true 2) = Returns (h, r) /\
    total_samples (summarizeCycleStats h) = 4.
Proof.
  exact (ring_reports_at_most_two_windows 2 (map at_cycle [1; 2; 3; 4; 5; 6; 7])
           ltac:(lia) ltac:(unfold INT_MAX; lia)
           ltac:(repeat constructor; discriminate) ltac:(simpl; lia)).
Defined.

(** extra X25 -- the number of rotations is the number of snapshots
    divided by the window size, rounded down: for any [M] snapshots on
    a fresh tracking ring engine with [stat_buffer_size = K >= 1], and
    for [M <= INT_MAX] snapshots on a fresh growing engine with
    [1 <= K <= INT_MAX], [updateBuffer] runs [M / K] times; with
    tracking off neither engine stores anything or rotates, and both
    summaries are empty. *)
Theorem rotations_are_snapshots_over_window_size :
  (forall (K : nat) (snaps : list HW_Cycle_Stats), (1 <= K)%nat ->
     exists h,
       recordAll snaps (newHWStatistics true (Z.of_nat K))
       = Returns (h, (length snaps / K)%nat)) /\
  (forall (K : Z) (snaps : list GrowingWindows.HW_Cycle_Stats),
     1 <= K <= INT_MAX -> Z.of_nat (length snaps) <= INT_MAX ->
     exists h r,
       GrowingWindows.recordAll snaps (GrowingWindows.newHWStatistics true K)
       = Returns (h, r) /\
       Z.of_nat r = Z.of_nat (length snaps) / K) /\
  (forall (K : Z) (snaps : list HW_Cycle_Stats),
     recordAll snaps (newHWStatistics false K)
     = Returns (newHWStatistics false K, 0%nat) /\
     summarizeCycleStats (newHWStatistics false K) = emptySummary) /\
  (forall (K : Z) (snaps : list GrowingWindows.HW_Cycle_Stats),
     GrowingWindows.recordAll snaps (GrowingWindows.newHWStatistics false K)
     = Returns (GrowingWindows.newHWStatistics false K, 0%nat) /\
     GrowingWindows.summarizeCycleStats (GrowingWindows.newHWStatistics false K)
     = GrowingWindows.emptySummary).
Proof.
  split; [|split; [|split]].
  - intros K snaps HK.
    destruct (RingProps.recordAll_ring K snaps (newHWStatistics true (Z.of_nat K)) 0
                (RingProps.ring_inv_new K HK)) as (h & r & Hrun & ->).
    by exists h.
  - intros K snaps HK Hmax.
    destruct (GrowingProps.recordAll_growing K snaps
                (GrowingWindows.newHWStatistics true K) [] [] 1 HK
                (GrowingProps.windows_inv_new K) ltac:(cbn; lia) ltac:(cbn; lia))
      as (h & r & Hrun & _ & _ & Hr).
    exists h, r. split; [assumption|]. by rewrite Hr.
  - intros K snaps. split; [|reflexivity].
    induction snaps as [|st snaps IH]; [reflexivity|].
    cbn [recordAll]. unfold recordCycleStats at 1. cbn [cycle_tracking newHWStatistics negb].
    fold (newHWStatistics false K). by rewrite IH.
  - intros K snaps. split; [|reflexivity].
    induction snaps as [|st snaps IH]; [reflexivity|].
    cbn [GrowingWindows.recordAll]. unfold GrowingWindows.recordCycleStats at 1.
    cbn [GrowingWindows.cycle_tracking GrowingWindows.newHWStatistics negb].
    fold (GrowingWindows.newHWStatistics false K). by rewrite IH.
Qed.

Lemma rotations_are_snapshots_over_window_size_witness :
  exists h,
    recordAll (map at_cycle [1; 2; 3; 4; 5]) (newHWStatistics true 2)
    = Returns (h, 2%nat).
Proof.
  exact (proj1 rotations_are_snapshots_over_window_size 2%nat
           (map at_cycle [1; 2; 3; 4; 5]) ltac:(lia)).
Defined.

End RingCycleProps.

(** ** [collectFUStats] of the enhanced engine *)

Module FUCollectProps.
Import Enums FUCollect.







End FUCollectProps.

(** ** Area figures *)

Module AreaProps.
Import Enums Area.

Lemma fold_fu_area_step h l :
  length l = FU_TYPE_COUNT ->
  fold_left (fu_area_step h) (seq 0 FU_TYPE_COUNT) (l, 0%float)
  = (map (fu_area h) (seq 0 FU_TYPE_COUNT),
     fold_left (fun s i => (s + fu_area h i)%float) (seq 0 FU_TYPE_COUNT)
       0%float).
Proof.
  unfold FU_TYPE_COUNT. intros Hl.
  do 13 (destruct l as [|? l]; [discriminate|]).
  destruct l; [|discriminate]. reflexivity.
Qed.

(** extra X27 -- [calculateAreaFromConfig] of the enhanced engine
    recomputes the area figures from the configuration alone: on an area
    record with its [FU_TYPE_COUNT] per-type entries, entry [i] becomes
    [static_count[i] * fu_coeffs[i].area_um2], [fu_area_um2] their sum
    taken in index order from [0.0], and [total_area_um2] the sum of the
    four parts; what [collectAreaStats] stored before has no influence
    on the result, a second call changes nothing, and neither function
    assigns [acc_spm_area_um2] or [acc_cache_area_um2]. *)
Theorem calculateAreaFromConfig_recomputes (h : Enhanced.HWStatistics)
    (ar : AreaStats) (a b c d : float) :
  length (fu_area_by_type ar) = FU_TYPE_COUNT ->
  let ar' := calculateAreaFromConfig h (collectAreaStats a b c d ar) in
  ar' = calculateAreaFromConfig h ar /\
  fu_area_by_type ar' = map (fu_area h) (seq 0 FU_TYPE_COUNT) /\
  fu_area_um2 ar'
  = fold_left (fun s i => (s + fu_area h i)%float) (seq 0 FU_TYPE_COUNT)
      0%float /\
  total_area_um2 ar'
  = (fu_area_um2 ar' + reg_area_um2 ar' + spm_area_um2 ar'
     + cache_area_um2 ar')%float /\
  acc_spm_area_um2 ar' = acc_spm_area_um2 ar /\
  acc_cache_area_um2 ar' = acc_cache_area_um2 ar /\
  calculateAreaFromConfig h ar' = ar'.
Proof.
  intros Hl ar'. unfold ar', calculateAreaFromConfig.
  cbn [collectAreaStats fu_area_by_type acc_spm_area_um2 acc_cache_area_um2].
  rewrite (fold_fu_area_step h _ Hl).
  cbn [fu_area_by_type fu_area_um2 total_area_um2 reg_area_um2 spm_area_um2
       cache_area_um2 acc_spm_area_um2 acc_cache_area_um2].
  rewrite (fold_fu_area_step h (map (fu_area h) (seq 0 FU_TYPE_COUNT)))
    by reflexivity.
  repeat split; reflexivity.
Qed.

Lemma calculateAreaFromConfig_recomputes_witness :
  let h := Enhanced.newHWStatistics in
  let ar' := calculateAreaFromConfig h (collectAreaStats 1 2 3 4 reset) in
  ar' = calculateAreaFromConfig h reset /\
  fu_area_by_type ar' = map (fu_area h) (seq 0 FU_TYPE_COUNT) /\
  fu_area_um2 ar'
  = fold_left (fun s i => (s + fu_area h i)%float) (seq 0 FU_TYPE_COUNT)
      0%float /\
  total_area_um2 ar'
  = (fu_area_um2 ar' + reg_area_um2 ar' + spm_area_um2 ar'
     + cache_area_um2 ar')%float /\
  acc_spm_area_um2 ar' = acc_spm_area_um2 reset /\
  acc_cache_area_um2 ar' = acc_cache_area_um2 reset /\
  calculateAreaFromConfig h ar' = ar'.
Proof.
  exact (calculateAreaFromConfig_recomputes Enhanced.newHWStatistics reset
           1 2 3 4 eq_refl).
Defined.


End AreaProps.

(** ** What [loadFromFile] reads back of a saved file *)

Module SaveFileProps.
Import Coeffs SaveFile.

Lemma parse_line_coefficients stod line c :
  match parse_line stod line c with
  | Normal c' | Uncaught c' => coefficients c' = coefficients c
  end.
Proof.
  unfold parse_line. destruct (find_colon line); [|reflexivity].
  repeat (destruct (String.eqb _ _); [try reflexivity|]);
    try (destruct (stod _); reflexivity). reflexivity.
Qed.

Lemma parse_lines_coefficients stod lines : forall c,
  match parse_lines stod lines c with
  | Normal c' | Uncaught c' => coefficients c' = coefficients c
  end.
Proof.
  induction lines as [|line rest IH]; intros c; [reflexivity|].
  cbn [parse_lines]. pose proof (parse_line_coefficients stod line c) as H1.
  destruct (parse_line stod line c) as [c1|c1]; [|assumption].
  specialize (IH c1). destruct (parse_lines stod rest c1); congruence.
Qed.

(** extra X29 -- [loadFromFile] never reads a coefficient: whatever the
    lines of the file, and however [std::stod] answers, the FU
    coefficients and the register, SPM and cache coefficients are the
    ones the object had before the call, both when the call returns
    (then with [true]) and when it ends by an uncaught exception; only a
    file that cannot be opened changes them, to the defaults. *)
Theorem loadFromFile_keeps_the_coefficients
    (stod : string -> option float) (c : PowerAreaCoefficients) :
  (forall lines,
     match loadFromFile stod (Some lines) c with
     | Normal (c', ok) => ok = true /\ coefficients c' = coefficients c
     | Uncaught c' => coefficients c' = coefficients c
     end) /\
  loadFromFile stod None c = Normal (setDefaults c, false).
Proof.
  split; [|reflexivity]. intros lines. unfold loadFromFile.
  pose proof (parse_lines_coefficients stod lines c) as H.
  destruct (parse_lines stod lines c); [split|]; done.
Qed.

Lemma remove_char_append ch a b :
  remove_char ch (a ++ b) = (remove_char ch a ++ remove_char ch b)%string.
Proof.
  induction a as [|x a IH]; cbn; [reflexivity|].
  destruct (Ascii.eqb x ch); cbn; by rewrite IH.
Qed.

Lemma remove_char_free ch s : free_of ch s = true -> remove_char ch s = s.
Proof.
  induction s as [|x s IH]; cbn; [reflexivity|].
  destruct (Ascii.eqb x ch); cbn; [discriminate|]. intros H. by rewrite IH.
Qed.

Lemma append_empty_r (s : string) : (s ++ "")%string = s.
Proof. induction s as [|x s IH]; cbn; [reflexivity | by rewrite IH]. Qed.

Lemma blank_in_front (s : string) : String " " s <> s.
Proof.
  intros H. apply (f_equal String.length) in H. cbn in H. lia.
Qed.

(** extra X30 -- the [technology_node] line [saveToFile] writes is not
    read back as written: for a name without double quote, comma or
    line feed, loading the first two lines of the saved file returns
    [true] and sets [technology_node] to the name with a blank in front
    (the blank after the colon is part of the value, and only quotes and
    commas are removed from values); nothing else of the object
    changes. *)
Theorem saved_technology_node_gains_a_blank
    (stod : string -> option float) (saved c : PowerAreaCoefficients) :
  free_of dquote (technology_node saved) = true ->
  free_of "," (technology_node saved) = true ->
  free_of newline (technology_node saved) = true ->
  loadFromFile stod (Some ["{"; technology_node_line saved]%string) c
  = Normal (set_technology_node (String " " (technology_node saved)) c, true) /\
  String " " (technology_node saved) <> technology_node saved.
Proof.
  intros Hq Hc _. split; [|apply blank_in_front].
  unfold loadFromFile. cbn [parse_lines].
  rewrite CoeffsProps.parse_line_no_colon by reflexivity.
  set (k := ("  " ++ quoted "technology_node")%string).
  set (v := (" " ++ quoted (technology_node saved) ++ ",")%string).
  change (technology_node_line saved) with (k ++ String ":" v)%string.
  unfold parse_line, find_colon.
  rewrite (CoeffsProps.find_char_append ":" k v) by reflexivity.
  rewrite CoeffsProps.substring_prefix, CoeffsProps.substr_from_suffix.
  change (remove_char " " (remove_char dquote k)) with "technology_node"%string.
  change (String.eqb "technology_node" "technology_node") with true.
  cbv iota. do 2 f_equal. f_equal.
  unfold v, quoted. cbn [append remove_char].
  change (Ascii.eqb " " dquote) with false.
  change (Ascii.eqb dquote dquote) with true.
  change (Ascii.eqb " " ",") with false. cbv iota.
  cbn [remove_char]. change (Ascii.eqb " " ",") with false. cbv iota.
  f_equal.
  rewrite !remove_char_append, (remove_char_free dquote _ Hq).
  change (remove_char dquote (String dquote "")) with ""%string.
  change (remove_char dquote ",") with ","%string.
  rewrite ?remove_char_append, (remove_char_free "," _ Hc).
  change (remove_char "," "") with ""%string.
  change (remove_char "," ",") with ""%string.
  by rewrite !append_empty_r.
Qed.

Lemma saved_technology_node_gains_a_blank_witness :
  loadFromFile stod_integers
    (Some ["{"; technology_node_line (setDefaults initial)]%string) initial
  = Normal (set_technology_node (String " " (technology_node (setDefaults initial)))
              initial, true) /\
  String " " (technology_node (setDefaults initial))
  <> technology_node (setDefaults initial).
Proof.
  exact (saved_technology_node_gains_a_blank stod_integers
           (setDefaults initial) initial eq_refl eq_refl eq_refl).
Defined.

End SaveFileProps.
